(** * Billing and account ledger engine of the dental-laboratory back office

    A shallow embedding of
      - [src/server/services/billing-service.ts]
          (createInvoiceFromOrder, recordPayment, getStatementByClient),
      - [src/pages/api/billing/invoices/[id].ts]
          (recomputeBalances, PATCH = edit invoice amount, DELETE = delete invoice),
      - the payments route (recomputeBalances, DELETE = delete payment),
      - the price table [WORK_TYPE_PRICES],
    over an explicit model of the relational store (the tables [user_profiles],
    [work_orders], [invoices], [payments], [account_entries] of the schema).

    Modelling conventions.
      - A table is the list of its rows in insertion order; a query without
        an [order] clause returns the rows in table order, and [order(col)]
        is a stable sort of that list.
      - Amounts are the [numeric(10,2)] values of the schema; the code only
        adds, subtracts and compares them, so they are integers of [Z] in the
        unit of the price table (every operation commutes with scaling by
        100).  [Number(x)] and [toNumber(x)] are the identity on them.
      - Row ids are uuids, modelled by the number they denote; timestamps are
        milliseconds since the epoch.
      - The values the environment supplies to an operation (the clock and
        the uuids the store generates for inserted rows) are an explicit
        argument [Env]; one operation sees one reading of the clock.
      - Storage calls succeed, except the reads of [getStatementByClient],
        whose outcome is an argument.  Authorisation and the syntactic
        validation of ids and dates happen before the modelled code. *)

From Stdlib Require Import ZArith List Bool String Ascii Lia Permutation Sorted.
Import ListNotations.
Open Scope string_scope.
Open Scope list_scope.
Open Scope Z_scope.

(** ** Results of fallible operations *)

Inductive Error : Type :=
| OrderNotFound          (* 'Orden no encontrada' *)
| BillingPartyMissing    (* 'La orden no tiene un dentista/usuario asignado' *)
| OrderNotReady          (* 'La orden aun no esta terminada' *)
| DuplicateInvoice       (* 'La orden ya tiene una factura registrada' *)
| AmountUndetermined     (* 'No se pudo determinar el precio de la orden' *)
| ClientNotFound         (* 'Cliente no encontrado' *)
| NonPositiveAmount      (* 'El monto debe ser mayor a cero' *)
| InvalidAmount          (* 'Monto invalido', status 400 *)
| InvoiceNotFound        (* 'Factura no encontrada' *)
| PaymentNotFound        (* 'Pago no encontrado' *)
| LoadEntriesFailed      (* 'No se pudieron cargar los movimientos' *)
| NullDereference.       (* TypeError: [.map] on the null data of a failed read *)

Inductive Result (A : Type) : Type :=
| Ok (a : A)
| Err (e : Error).
Arguments Ok {A} a.
Arguments Err {A} e.

Definition bind {A B} (r : Result A) (k : A -> Result B) : Result B :=
  match r with
  | Ok a => k a
  | Err e => Err e
  end.

Notation "x <- r ;; k" := (bind r (fun x => k))
  (at level 61, r at next level, right associativity).

Definition orThrow {A} (o : option A) (e : Error) : Result A :=
  match o with
  | Some a => Ok a
  | None => Err e
  end.

(** ** Data model *)

Definition Id := Z.
Definition Timestamp := Z.
Definition Amount := Z.

Inductive InvoiceStatus := PENDING | PAID | CANCELLED.
Inductive PaymentStatus := PAY_PENDING | COMPLETED | FAILED.
Inductive WorkOrderStatus := CREATED | IN_PROGRESS | DONE | DELIVERED.

Inductive WorkType :=
| PROTESIS | CORONA_ZIRCONIA | CORONA_A_PERNO | MODELO_IMPRESO
| TERMINACION_1_A_5 | TERMINACION_6_A_10 | REPARACION | PROVISORIO
| GANCHO_LABRADO.

Definition InvoiceStatus_eqb (a b : InvoiceStatus) : bool :=
  match a, b with
  | PENDING, PENDING | PAID, PAID | CANCELLED, CANCELLED => true
  | _, _ => false
  end.

Record UserProfile := mkUserProfile {
  up_id : Id;
  up_name : option string;
  up_email : option string
}.

Record Patient := mkPatient { pt_name : option string }.

Record WorkOrder := mkWorkOrder {
  wo_id : Id;
  wo_dentistId : option Id;
  wo_status : WorkOrderStatus;
  wo_workType : option WorkType;
  wo_price : option Amount;
  wo_displayCode : option string;
  wo_patient : option Patient
}.

Record Invoice := mkInvoice {
  inv_id : Id;
  inv_clientId : Id;
  inv_workOrderId : option Id;
  inv_amount : Amount;
  inv_currency : string;
  inv_dueAt : Timestamp;
  inv_status : InvoiceStatus;
  inv_createdAt : Timestamp
}.

Record Payment := mkPayment {
  pay_id : Id;
  pay_invoiceId : Id;
  pay_provider : string;
  pay_providerRef : string;
  pay_amount : Amount;
  pay_status : PaymentStatus;
  pay_createdAt : Timestamp
}.

Record AccountEntry := mkAccountEntry {
  ae_id : Id;
  ae_clientId : Id;
  ae_invoiceId : Id;
  ae_debit : Amount;
  ae_credit : Amount;
  ae_balanceAfter : Amount;
  ae_createdAt : Timestamp
}.

Record Store := mkStore {
  user_profiles : list UserProfile;
  work_orders : list WorkOrder;
  invoices : list Invoice;
  payments : list Payment;
  account_entries : list AccountEntry
}.

(** What the environment supplies to one operation: the reading of the clock
    ([new Date()], [now()]), the uuid of the k-th row the operation inserts
    ([gen_random_uuid()]) and the time zone of the process. *)
Record Env := mkEnv {
  env_now : Timestamp;
  env_uuid : nat -> Id;
  env_tzOffset : Z   (* local time minus UTC, in ms; used by [setHours] *)
}.

(** *** Field updates ([update({...})]) *)

Definition set_inv_amount (a : Amount) (i : Invoice) : Invoice :=
  mkInvoice (inv_id i) (inv_clientId i) (inv_workOrderId i) a
            (inv_currency i) (inv_dueAt i) (inv_status i) (inv_createdAt i).

Definition set_inv_status (st : InvoiceStatus) (i : Invoice) : Invoice :=
  mkInvoice (inv_id i) (inv_clientId i) (inv_workOrderId i) (inv_amount i)
            (inv_currency i) (inv_dueAt i) st (inv_createdAt i).

Definition set_wo_price (p : Amount) (w : WorkOrder) : WorkOrder :=
  mkWorkOrder (wo_id w) (wo_dentistId w) (wo_status w) (wo_workType w)
              (Some p) (wo_displayCode w) (wo_patient w).

Definition set_ae_debit (d : Amount) (e : AccountEntry) : AccountEntry :=
  mkAccountEntry (ae_id e) (ae_clientId e) (ae_invoiceId e) d (ae_credit e)
                 (ae_balanceAfter e) (ae_createdAt e).

Definition set_ae_balanceAfter (b : Amount) (e : AccountEntry) : AccountEntry :=
  mkAccountEntry (ae_id e) (ae_clientId e) (ae_invoiceId e) (ae_debit e)
                 (ae_credit e) b (ae_createdAt e).

Definition with_work_orders (t : list WorkOrder) (s : Store) : Store :=
  mkStore (user_profiles s) t (invoices s) (payments s) (account_entries s).

Definition with_invoices (t : list Invoice) (s : Store) : Store :=
  mkStore (user_profiles s) (work_orders s) t (payments s) (account_entries s).

Definition with_payments (t : list Payment) (s : Store) : Store :=
  mkStore (user_profiles s) (work_orders s) (invoices s) t (account_entries s).

Definition with_account_entries (t : list AccountEntry) (s : Store) : Store :=
  mkStore (user_profiles s) (work_orders s) (invoices s) (payments s) t.

(** ** The query layer *)

Section Query.
Context {A : Type}.

  (** [update(f).eq(...)]: rewrite every row the predicate selects. *)
Definition update_where (p : A -> bool) (f : A -> A) (t : list A) : list A :=
    map (fun r => if p r then f r else r) t.

  (** [delete().eq(...)]: drop every row the predicate selects. *)
Definition delete_where (p : A -> bool) (t : list A) : list A :=
    filter (fun r => negb (p r)) t.

  (** [limit(1).maybeSingle()] and [single()]: the first row, if any. *)
Definition maybeSingle (t : list A) : option A := hd_error t.

  (** [order(col)]: stable insertion sort for the order [leb]. *)
Fixpoint insert_by (leb : A -> A -> bool) (x : A) (l : list A) : list A :=
    match l with
    | [] => [x]
    | y :: r => if leb x y then x :: l else y :: insert_by leb x r
    end.

Fixpoint order_by (leb : A -> A -> bool) (l : list A) : list A :=
    match l with
    | [] => []
    | x :: r => insert_by leb x (order_by leb r)
    end.
End Query.

Definition asc {A} (key : A -> Z) (a b : A) : bool := key a <=? key b.
Definition desc {A} (key : A -> Z) (a b : A) : bool := key b <=? key a.

(** [order('createdAt').order('id')]: creation time, ties broken by id. *)
Definition by_createdAt_id (a b : AccountEntry) : bool :=
  (ae_createdAt a <? ae_createdAt b)
  || ((ae_createdAt a =? ae_createdAt b) && (ae_id a <=? ae_id b)).

Definition sumZ (l : list Z) : Z := fold_left Z.add l 0.

(** A JavaScript [Map], as the list of its entries; [set] replaces the entry
    of an existing key. *)
Section JsMap.
Context {K V : Type} (eqb : K -> K -> bool).

Definition map_get (k : K) (m : list (K * V)) : option V :=
    option_map snd (find (fun kv => eqb (fst kv) k) m).

Definition map_set (k : K) (v : V) (m : list (K * V)) : list (K * V) :=
    (k, v) :: filter (fun kv => negb (eqb (fst kv) k)) m.

Definition map_of_entries (l : list (K * V)) : list (K * V) :=
    fold_left (fun m kv => map_set (fst kv) (snd kv) m) l [].
End JsMap.

(** [x ?? d] *)
Definition orElse {A} (o : option A) (d : A) : A :=
  match o with
  | Some a => a
  | None => d
  end.

Definition mem (x : Id) (l : list Id) : bool := existsb (Z.eqb x) l.

(** [Array.from(new Set(l))]: first occurrences, in order. *)
Fixpoint dedupe (l : list Id) : list Id :=
  match l with
  | [] => []
  | x :: r => x :: filter (fun y => negb (y =? x)) (dedupe r)
  end.

Definition somes {A} (l : list (option A)) : list A :=
  flat_map (fun o => match o with Some a => [a] | None => [] end) l.

(** ** Strings: [toUpperCase], [toLowerCase], [split], [join] on ASCII *)

Definition upper_ascii (c : ascii) : ascii :=
  let n := nat_of_ascii c in
  if (Nat.leb 97 n && Nat.leb n 122)%bool then ascii_of_nat (n - 32) else c.

Definition lower_ascii (c : ascii) : ascii :=
  let n := nat_of_ascii c in
  if (Nat.leb 65 n && Nat.leb n 90)%bool then ascii_of_nat (n + 32) else c.

Fixpoint string_map (f : ascii -> ascii) (s : string) : string :=
  match s with
  | EmptyString => EmptyString
  | String c r => String (f c) (string_map f r)
  end.

Definition toUpperCase := string_map upper_ascii.
Definition toLowerCase := string_map lower_ascii.

(** [s.split(sep)]: the last element of the result is the segment being
    read. *)
Fixpoint split_on (sep : ascii) (s : string) : list string :=
  match s with
  | EmptyString => [EmptyString]
  | String c r =>
      if Ascii.eqb c sep then EmptyString :: split_on sep r
      else match split_on sep r with
           | [] => [String c EmptyString]
           | seg :: segs => String c seg :: segs
           end
  end.

Fixpoint join (sep : string) (l : list string) : string :=
  match l with
  | [] => EmptyString
  | [x] => x
  | x :: r => (x ++ sep ++ join sep r)%string
  end.

(** ** pricing.ts *)

Definition workTypeName (w : WorkType) : string :=
  match w with
  | PROTESIS => "PROTESIS"
  | CORONA_ZIRCONIA => "CORONA_ZIRCONIA"
  | CORONA_A_PERNO => "CORONA_A_PERNO"
  | MODELO_IMPRESO => "MODELO_IMPRESO"
  | TERMINACION_1_A_5 => "TERMINACION_1_A_5"
  | TERMINACION_6_A_10 => "TERMINACION_6_A_10"
  | REPARACION => "REPARACION"
  | PROVISORIO => "PROVISORIO"
  | GANCHO_LABRADO => "GANCHO_LABRADO"
  end.

Definition WORK_TYPE_PRICES : list (string * Amount) :=
  [ ("PROTESIS"%string, 2750);
    ("CORONA_ZIRCONIA"%string, 2990);
    ("CORONA_A_PERNO"%string, 3200);
    ("MODELO_IMPRESO"%string, 400);
    ("TERMINACION_1_A_5"%string, 3350);
    ("TERMINACION_6_A_10"%string, 200);
    ("REPARACION"%string, 1150);
    ("PROVISORIO"%string, 1780);
    ("GANCHO_LABRADO"%string, 1500) ].

(** ** billing-service.ts *)

Module Billing.

Definition workTypePriceMap : list (string * Amount) :=
  map_of_entries String.eqb
    (map (fun kv => (toUpperCase (fst kv), snd kv)) WORK_TYPE_PRICES).

Definition priceForWorkType (workType : option WorkType) : Amount :=
  match workType with
  | None => 0
  | Some w => orElse (map_get String.eqb (workTypeName w) workTypePriceMap) 0
  end.

Definition capitalize (segment : string) : string :=
  match segment with
  | EmptyString => segment
  | String c r => String c (toLowerCase r)
  end.

Definition formatWorkTypeLabel (value : option string) : string :=
  match value with
  | None | Some EmptyString => "Orden de trabajo"
  | Some v => join " " (map capitalize (split_on "_" v))
  end.

Definition getLatestBalance (s : Store) (clientId : Id) : Amount :=
  let data :=
    maybeSingle
      (order_by (desc ae_createdAt)
         (filter (fun e => ae_clientId e =? clientId) (account_entries s))) in
  orElse (option_map ae_balanceAfter data) 0.

Record EntryParams := mkEntryParams {
  p_clientId : Id;
  p_invoiceId : Id;
  p_debit : Amount;
  p_credit : Amount;
  p_createdAt : option Timestamp
}.

(** [uuid] is the id the store gives the inserted row, [now] the clock. *)
Definition createAccountEntry (now : Timestamp) (uuid : Id) (s : Store)
    (params : EntryParams) : Store * AccountEntry :=
  let previousBalance := getLatestBalance s (p_clientId params) in
  let nextBalance := previousBalance + p_debit params - p_credit params in
  let entry :=
    mkAccountEntry uuid (p_clientId params) (p_invoiceId params)
      (p_debit params) (p_credit params) nextBalance
      (orElse (p_createdAt params) now) in
  (with_account_entries (account_entries s ++ [entry]) s, entry).

Definition order_is_finished (st : WorkOrderStatus) : bool :=
  match st with
  | DONE | DELIVERED => true
  | _ => false
  end.

(** [!order.price]: null or zero. *)
Definition price_is_falsy (p : option Amount) : bool :=
  match p with
  | None => true
  | Some v => v =? 0
  end.

Definition createInvoiceFromOrder (env : Env) (s : Store) (orderId : Id)
  : Result (Store * Invoice) :=
  order <- orThrow (maybeSingle (filter (fun o => wo_id o =? orderId)
                                        (work_orders s)))
                   OrderNotFound ;;
  billingClientId <- orThrow (wo_dentistId order) BillingPartyMissing ;;
  if negb (order_is_finished (wo_status order)) then Err OrderNotReady else
  let existingInvoice :=
    maybeSingle
      (filter (fun i => match inv_workOrderId i with
                        | Some w => w =? wo_id order
                        | None => false
                        end) (invoices s)) in
  match existingInvoice with
  | Some _ => Err DuplicateInvoice
  | None =>
      let amountFromWorkType := priceForWorkType (wo_workType order) in
      let finalAmount :=
        if amountFromWorkType >? 0 then amountFromWorkType
        else orElse (wo_price order) 0 in
      if finalAmount <=? 0 then Err AmountUndetermined else
      let invoice :=
        mkInvoice (env_uuid env 0) billingClientId (Some (wo_id order))
                  finalAmount "ARS" (env_now env) PENDING (env_now env) in
      let s1 := with_invoices (invoices s ++ [invoice]) s in
      let s2 :=
        if price_is_falsy (wo_price order)
        then with_work_orders
               (update_where (fun o => wo_id o =? wo_id order)
                             (set_wo_price finalAmount) (work_orders s1)) s1
        else s1 in
      let '(s3, _) :=
        createAccountEntry (env_now env) (env_uuid env 1) s2
          (mkEntryParams billingClientId (inv_id invoice) finalAmount 0
                         (Some (inv_createdAt invoice))) in
      Ok (s3, invoice)
  end.

Record PaymentInput := mkPaymentInput {
  in_clientId : Id;
  in_amount : Amount;
  in_date : option Timestamp;
  in_note : option string
}.

(** The state of the allocation loop of [recordPayment]. *)
Record Alloc := mkAlloc {
  al_store : Store;
  al_remaining : Amount;
  al_createdPayments : list Payment;
  al_firstInvoiceId : option Id
}.

Fixpoint allocate (env : Env) (payload : PaymentInput)
    (paymentsByInvoice : list (Id * Amount)) (invs : list Invoice)
    (a : Alloc) : Alloc :=
  match invs with
  | [] => a
  | invoice :: rest =>
      if al_remaining a <=? 0 then a                              (* break *)
      else
        let invoiceAmount := inv_amount invoice in
        let paidAmount :=
          orElse (map_get Z.eqb (inv_id invoice) paymentsByInvoice) 0 in
        let outstandingAmount := invoiceAmount - paidAmount in
        if outstandingAmount <=? 0
        then allocate env payload paymentsByInvoice rest a        (* continue *)
        else
          let applied :=
            if outstandingAmount >=? al_remaining a
            then al_remaining a else outstandingAmount in
          let payment :=
            mkPayment (env_uuid env (List.length (al_createdPayments a)))
                      (inv_id invoice) "MANUAL" (orElse (in_note payload) EmptyString)
                      applied COMPLETED
                      (orElse (in_date payload) (env_now env)) in
          let s1 :=
            with_payments (payments (al_store a) ++ [payment]) (al_store a) in
          let firstInvoiceId :=
            match al_firstInvoiceId a with
            | None => Some (inv_id invoice)
            | Some f => Some f
            end in
          let remainingAfter := outstandingAmount - applied in
          let s2 :=
            if remainingAfter <=? 0
            then with_invoices
                   (update_where (fun i => inv_id i =? inv_id invoice)
                                 (set_inv_status PAID) (invoices s1)) s1
            else s1 in
          allocate env payload paymentsByInvoice rest
            (mkAlloc s2 (al_remaining a - applied)
                     (al_createdPayments a ++ [payment]) firstInvoiceId)
  end.

Definition recordPayment (env : Env) (s : Store) (payload : PaymentInput)
  : Result (Store * list Payment) :=
  _client <- orThrow (maybeSingle (filter (fun u => up_id u =? in_clientId payload)
                                          (user_profiles s)))
                     ClientNotFound ;;
  if in_amount payload <=? 0 then Err NonPositiveAmount else
  let invs :=
    order_by (asc inv_createdAt)
      (filter (fun i => (inv_clientId i =? in_clientId payload)
                        && InvoiceStatus_eqb (inv_status i) PENDING)
              (invoices s)) in
  let invoiceIds := map inv_id invs in
  let pays :=
    match invoiceIds with
    | [] => []
    | _ => filter (fun p => mem (pay_invoiceId p) invoiceIds) (payments s)
    end in
  let paymentsByInvoice :=
    fold_left
      (fun m payment =>
         let current := orElse (map_get Z.eqb (pay_invoiceId payment) m) 0 in
         map_set Z.eqb (pay_invoiceId payment) (current + pay_amount payment) m)
      pays [] in
  let a :=
    allocate env payload paymentsByInvoice invs
             (mkAlloc s (in_amount payload) [] None) in
  let firstInvoiceId :=
    match al_firstInvoiceId a with
    | Some f => Some f
    | None =>
        option_map inv_id
          (maybeSingle
             (order_by (desc inv_createdAt)
                (filter (fun i => inv_clientId i =? in_clientId payload)
                        (invoices (al_store a)))))
    end in
  let s' :=
    match firstInvoiceId with
    | Some f =>
        fst (createAccountEntry (env_now env)
               (env_uuid env (List.length (al_createdPayments a))) (al_store a)
               (mkEntryParams (in_clientId payload) f 0 (in_amount payload)
                              (Some (orElse (in_date payload) (env_now env)))))
    | None => al_store a
    end in
  Ok (s', al_createdPayments a).

(** *** getStatementByClient *)

(** Which of the five storage reads of [getStatementByClient] succeed; a
    failed read yields [data = null] and an [error]. *)
Record Reads := mkReads {
  rd_client : bool;
  rd_entries : bool;
  rd_invoices : bool;
  rd_work_orders : bool;
  rd_payments : bool
}.

Definition reads_ok : Reads := mkReads true true true true true.

Inductive Tipo := FACTURA | PAGO | MOVIMIENTO.

(** [compNro] is a display code, an invoice id, or the empty string. *)
Inductive CompNro :=
| CompCode (code : string)
| CompInvoice (id : Id)
| CompNone.

Record StatementRow := mkRow {
  fecha : Timestamp;
  tipo : Tipo;
  compNro : CompNro;
  ordenId : option Id;
  detalle : string;
  paciente : string;
  facturas : Amount;
  entregas : Amount;
  saldoAcumulado : Amount;
  paymentId : option Id;
  invoiceId : option Id
}.

Record Totals := mkTotals {
  tot_facturas : Amount;
  tot_entregas : Amount;
  tot_saldo : Amount
}.

Record Statement := mkStatement {
  st_client : Id * string;
  st_rows : list StatementRow;
  st_totals : Totals
}.

(** [setHours(23, 59, 59, 999)] in the local time zone. *)
Definition endOfDay (tz : Z) (t : Timestamp) : Timestamp :=
  let local := t + tz in
  local - local mod 86400000 + 86399999 - tz.

Definition paymentMatches (entry : AccountEntry) (credit : Amount)
    (payment : Payment) : bool :=
  let paymentAmount := pay_amount payment in
  let sameAmount := paymentAmount =? credit in
  let timeDiff := Z.abs (pay_createdAt payment - ae_createdAt entry) in
  sameAmount && (timeDiff <? 5000).

Definition compOfInvoice (invoice : option Invoice) : CompNro :=
  match invoice with
  | Some i => CompInvoice (inv_id i)
  | None => CompNone
  end.

Definition statementRow (invoicesById : list (Id * Invoice))
    (workOrdersById : list (Id * WorkOrder)) (pays : list Payment)
    (entry : AccountEntry) : StatementRow :=
  let debit := ae_debit entry in
  let credit := ae_credit entry in
  let balance := ae_balanceAfter entry in
  let invoice := map_get Z.eqb (ae_invoiceId entry) invoicesById in
  let order :=
    match invoice with
    | Some i =>
        match inv_workOrderId i with
        | Some w => map_get Z.eqb w workOrdersById
        | None => None
        end
    | None => None
    end in
  let ordenId :=
    match invoice with
    | Some i => inv_workOrderId i
    | None => None
    end in
  let mk tipo compNro detalle patientName paymentId :=
    mkRow (ae_createdAt entry) tipo compNro ordenId detalle patientName
          debit credit balance paymentId (option_map inv_id invoice) in
  if debit >? 0 then
    let compNro :=
      match order with
      | Some o =>
          match wo_displayCode o with
          | Some c => CompCode c
          | None => compOfInvoice invoice
          end
      | None => compOfInvoice invoice
      end in
    let detalle :=
      match order with
      | Some o =>
          match wo_workType o with
          | Some w => formatWorkTypeLabel (Some (workTypeName w))
          | None => "Factura emitida"
          end
      | None => "Factura emitida"
      end in
    let patientName :=
      match order with
      | Some o =>
          match wo_patient o with
          | Some pt => orElse (pt_name pt) "-"
          | None => "-"
          end
      | None => "-"
      end in
    mk FACTURA compNro detalle patientName None
  else if credit >? 0 then
    let paymentMatch := find (paymentMatches entry credit) pays in
    let detalle :=
      match paymentMatch with
      | Some pm =>
          match pay_providerRef pm with
          | EmptyString => "Pago registrado"
          | ref => ref
          end
      | None => "Pago registrado"
      end in
    mk PAGO (compOfInvoice invoice) detalle "-" (option_map pay_id paymentMatch)
  else
    mk MOVIMIENTO (compOfInvoice invoice) "Movimiento de cuenta" "-" None.

Definition getStatementByClient (env : Env) (io : Reads) (s : Store)
    (clientId : Id) (dateFrom dateTo : option Timestamp) : Result Statement :=
  client <- orThrow
              (if rd_client io
               then maybeSingle (filter (fun u => up_id u =? clientId)
                                        (user_profiles s))
               else None)
              ClientNotFound ;;
  let inRange (e : AccountEntry) : bool :=
    match dateFrom with
    | Some from => from <=? ae_createdAt e
    | None => true
    end
    && match dateTo with
       | Some to => ae_createdAt e <=? endOfDay (env_tzOffset env) to
       | None => true
       end in
  if negb (rd_entries io) then Err LoadEntriesFailed else
  let entries :=
    order_by (asc ae_createdAt)
      (filter (fun e => (ae_clientId e =? clientId) && inRange e)
              (account_entries s)) in
  let invoiceIds := dedupe (map ae_invoiceId entries) in
  invs <- orThrow
            (match invoiceIds with
             | [] => Some []
             | _ => if rd_invoices io
                    then Some (filter (fun i => mem (inv_id i) invoiceIds)
                                      (invoices s))
                    else None
             end)
            NullDereference ;;
  let invoicesById :=
    map_of_entries Z.eqb (map (fun i => (inv_id i, i)) invs) in
  let workOrderIds := dedupe (somes (map inv_workOrderId invs)) in
  orders <- orThrow
              (match workOrderIds with
               | [] => Some []
               | _ => if rd_work_orders io
                      then Some (filter (fun o => mem (wo_id o) workOrderIds)
                                        (work_orders s))
                      else None
               end)
              NullDereference ;;
  let workOrdersById :=
    map_of_entries Z.eqb (map (fun o => (wo_id o, o)) orders) in
  let pays :=
    match invoiceIds with
    | [] => []
    | _ => if rd_payments io
           then filter (fun p => mem (pay_invoiceId p) invoiceIds) (payments s)
           else []
    end in
  let '(rows, facturasTotal, entregasTotal) :=
    fold_left
      (fun acc entry =>
         let '(rows, facturasTotal, entregasTotal) := acc in
         (rows ++ [statementRow invoicesById workOrdersById pays entry],
          facturasTotal + ae_debit entry,
          entregasTotal + ae_credit entry))
      entries ([], 0, 0) in
  Ok (mkStatement
        (up_id client,
         orElse (up_name client) (orElse (up_email client) "Cliente"))
        rows
        (mkTotals facturasTotal entregasTotal (facturasTotal - entregasTotal))).

End Billing.

(** ** pages/api/billing/invoices/[id].ts

    The handlers are modelled from the point where the caller has been
    authorised and the invoice id is present; a thrown error is the [Err]
    the handler turns into a 500 response. *)

Module InvoiceRoute.

Fixpoint recompute_loop (entries : list AccountEntry) (running : Amount)
    (table : list AccountEntry) : list AccountEntry :=
  match entries with
  | [] => table
  | entry :: rest =>
      let running' := running + ae_debit entry - ae_credit entry in
      recompute_loop rest running'
        (update_where (fun e => ae_id e =? ae_id entry)
                      (set_ae_balanceAfter running') table)
  end.

Definition recomputeBalances (s : Store) (clientId : Id) : Store :=
  let entries :=
    order_by by_createdAt_id
      (filter (fun e => ae_clientId e =? clientId) (account_entries s)) in
  with_account_entries (recompute_loop entries 0 (account_entries s)) s.

Definition PATCH (s : Store) (invoiceId : Id) (amountValue : Amount)
  : Result Store :=
  if amountValue <=? 0 then Err InvalidAmount else
  invoice <- orThrow (maybeSingle (filter (fun i => inv_id i =? invoiceId)
                                          (invoices s)))
                     InvoiceNotFound ;;
  let oldAmount := inv_amount invoice in
  let s1 :=
    if negb (oldAmount =? amountValue) then
      let s_a :=
        with_invoices
          (update_where (fun i => inv_id i =? invoiceId)
                        (set_inv_amount amountValue) (invoices s)) s in
      let createdAt := inv_createdAt invoice in
      let start := createdAt - 5000 in
      let end_ := createdAt + 5000 in
      let ofInvoice (e : AccountEntry) : bool :=
        (ae_clientId e =? inv_clientId invoice)
        && (ae_invoiceId e =? inv_id invoice) in
      let exact :=
        maybeSingle
          (order_by (asc ae_createdAt)
             (filter (fun e => ofInvoice e && (ae_debit e =? oldAmount)
                               && (start <=? ae_createdAt e)
                               && (ae_createdAt e <=? end_))
                     (account_entries s_a))) in
      let accountEntry :=
        match exact with
        | Some e => Some e
        | None =>
            maybeSingle
              (order_by (asc ae_createdAt)
                 (filter (fun e => ofInvoice e && (ae_debit e >? 0))
                         (account_entries s_a)))
        end in
      let s_b :=
        match accountEntry with
        | Some found =>
            with_account_entries
              (update_where (fun e => ae_id e =? ae_id found)
                            (set_ae_debit amountValue) (account_entries s_a))
              s_a
        | None => s_a
        end in
      recomputeBalances s_b (inv_clientId invoice)
    else s in
  let pays := filter (fun p => pay_invoiceId p =? invoiceId) (payments s1) in
  let totalPaid := fold_left (fun sum payment => sum + pay_amount payment) pays 0 in
  let nextStatus := if totalPaid >=? amountValue then PAID else PENDING in
  Ok (with_invoices
        (update_where (fun i => inv_id i =? invoiceId)
                      (set_inv_status nextStatus) (invoices s1)) s1).

Definition DELETE (s : Store) (invoiceId : Id) : Result Store :=
  invoice <- orThrow (maybeSingle (filter (fun i => inv_id i =? invoiceId)
                                          (invoices s)))
                     InvoiceNotFound ;;
  let s1 :=
    with_payments
      (delete_where (fun p => pay_invoiceId p =? invoiceId) (payments s)) s in
  let s2 :=
    with_account_entries
      (delete_where (fun e => ae_invoiceId e =? invoiceId) (account_entries s1))
      s1 in
  let s3 :=
    with_invoices
      (delete_where (fun i => inv_id i =? invoiceId) (invoices s2)) s2 in
  Ok (recomputeBalances s3 (inv_clientId invoice)).

End InvoiceRoute.

(** ** pages/api/billing/payments/[id].ts *)

Module PaymentRoute.

Fixpoint recompute_loop (entries : list AccountEntry) (running : Amount)
    (table : list AccountEntry) : list AccountEntry :=
  match entries with
  | [] => table
  | entry :: rest =>
      let running' := running + ae_debit entry - ae_credit entry in
      recompute_loop rest running'
        (update_where (fun e => ae_id e =? ae_id entry)
                      (set_ae_balanceAfter running') table)
  end.

Definition recomputeBalances (s : Store) (clientId : Id) : Store :=
  let entries :=
    order_by by_createdAt_id
      (filter (fun e => ae_clientId e =? clientId) (account_entries s)) in
  with_account_entries (recompute_loop entries 0 (account_entries s)) s.

Definition DELETE (s : Store) (paymentId : Id) : Result Store :=
  payment <- orThrow (maybeSingle (filter (fun p => pay_id p =? paymentId)
                                          (payments s)))
                     PaymentNotFound ;;
  invoice <- orThrow (maybeSingle (filter (fun i => inv_id i =? pay_invoiceId payment)
                                          (invoices s)))
                     InvoiceNotFound ;;
  let paymentAmount := pay_amount payment in
  let createdAt := pay_createdAt payment in
  let start := createdAt - 5000 in
  let end_ := createdAt + 5000 in
  let accountEntry :=
    maybeSingle
      (order_by (asc ae_createdAt)
         (filter (fun e => (ae_clientId e =? inv_clientId invoice)
                           && (ae_invoiceId e =? inv_id invoice)
                           && (ae_credit e =? paymentAmount)
                           && (start <=? ae_createdAt e)
                           && (ae_createdAt e <=? end_))
                 (account_entries s))) in
  let s1 :=
    match accountEntry with
    | Some found =>
        with_account_entries
          (delete_where (fun e => ae_id e =? ae_id found) (account_entries s)) s
    | None => s
    end in
  let s2 :=
    with_payments (delete_where (fun p => pay_id p =? paymentId) (payments s1)) s1 in
  let s3 := recomputeBalances s2 (inv_clientId invoice) in
  let remainingPayments :=
    filter (fun p => pay_invoiceId p =? inv_id invoice) (payments s3) in
  let totalPaid :=
    fold_left (fun sum row => sum + pay_amount row) remainingPayments 0 in
  Ok (if totalPaid <? inv_amount invoice
      then with_invoices
             (update_where (fun i => inv_id i =? inv_id invoice)
                           (set_inv_status PENDING) (invoices s3)) s3
      else s3).

End PaymentRoute.

(** ** Notions the properties are stated with *)

(** Total of the payment rows recorded against an invoice. *)
Definition paid (s : Store) (id : Id) : Amount :=
  sumZ (map pay_amount
          (filter (fun p => pay_invoiceId p =? id) (payments s))).

Definition outstanding (s : Store) (i : Invoice) : Amount :=
  inv_amount i - paid s (inv_id i).

(** The ledger of a client in the order [(createdAt, id)]. *)
Definition client_ledger (s : Store) (clientId : Id) : list AccountEntry :=
  order_by by_createdAt_id
    (filter (fun e => ae_clientId e =? clientId) (account_entries s)).

(** The running-balance chain: every stored balance is the previous one
    plus debit minus credit, starting from [prev]. *)
Fixpoint chain_ok (prev : Amount) (l : list AccountEntry) : bool :=
  match l with
  | [] => true
  | e :: r =>
      (ae_balanceAfter e =? prev + ae_debit e - ae_credit e)
      && chain_ok (ae_balanceAfter e) r
  end.

Definition ledger_ok (s : Store) (clientId : Id) : bool :=
  chain_ok 0 (client_ledger s clientId).

(** The running sums of debit - credit, from [running]. *)
Fixpoint running_sums (running : Amount) (l : list AccountEntry)
  : list Amount :=
  match l with
  | [] => []
  | e :: r =>
      let running' := running + ae_debit e - ae_credit e in
      running' :: running_sums running' r
  end.

(** Every field of a ledger row except the stored balance. *)
Definition entry_frame (e : AccountEntry)
  : Id * Id * Id * Amount * Amount * Timestamp :=
  (ae_id e, ae_clientId e, ae_invoiceId e, ae_debit e, ae_credit e,
   ae_createdAt e).

(** Primary keys. *)
Definition keys_unique (s : Store) : Prop :=
  NoDup (map inv_id (invoices s))
  /\ NoDup (map pay_id (payments s))
  /\ NoDup (map ae_id (account_entries s)).

(** The uuids handed out to an operation are pairwise distinct and clash
    with no stored row. *)
Definition uuid_fresh (env : Env) (s : Store) : Prop :=
  (forall j k : nat, env_uuid env j = env_uuid env k -> j = k)
  /\ (forall k, ~ In (env_uuid env k) (map inv_id (invoices s)))
  /\ (forall k, ~ In (env_uuid env k) (map pay_id (payments s)))
  /\ (forall k, ~ In (env_uuid env k) (map ae_id (account_entries s))).

(** One successful core operation, or a change made by the collaborators
    that own the work orders and the user profiles. *)
Inductive step : Store -> Store -> Prop :=
| step_createInvoice env s orderId s' invoice :
    uuid_fresh env s ->
    Billing.createInvoiceFromOrder env s orderId = Ok (s', invoice) ->
    step s s'
| step_recordPayment env s payload s' created :
    uuid_fresh env s ->
    Billing.recordPayment env s payload = Ok (s', created) ->
    step s s'
| step_editInvoiceAmount s invoiceId amount s' :
    InvoiceRoute.PATCH s invoiceId amount = Ok s' ->
    step s s'
| step_deleteInvoice s invoiceId s' :
    InvoiceRoute.DELETE s invoiceId = Ok s' ->
    step s s'
| step_deletePayment s paymentId s' :
    PaymentRoute.DELETE s paymentId = Ok s' ->
    step s s'
| step_external s profiles orders :
    step s (mkStore profiles orders (invoices s) (payments s)
                    (account_entries s)).

Inductive reachable : Store -> Prop :=
| reach_init profiles orders :
    reachable (mkStore profiles orders [] [] [])
| reach_step s s' :
    reachable s -> step s s' -> reachable s'.

(** *** The allocation of a payment, in the words of the specification *)

Record Allocation := mkAllocation {
  alloc_invoice : Id;
  alloc_amount : Amount;
  alloc_settles : bool      (* the allocation covers the outstanding amount *)
}.

Fixpoint allocation_plan (outstanding_of : Invoice -> Amount)
    (invs : list Invoice) (remaining : Amount) : list Allocation :=
  match invs with
  | [] => []
  | i :: rest =>
      if remaining <=? 0 then []
      else if outstanding_of i <=? 0
           then allocation_plan outstanding_of rest remaining
           else
             let give := Z.min (outstanding_of i) remaining in
             mkAllocation (inv_id i) give (outstanding_of i <=? give)
             :: allocation_plan outstanding_of rest (remaining - give)
  end.

Definition pending_invoices (s : Store) (clientId : Id) : list Invoice :=
  order_by (asc inv_createdAt)
    (filter (fun i => (inv_clientId i =? clientId)
                      && InvoiceStatus_eqb (inv_status i) PENDING)
            (invoices s)).

Definition settle (t : list Invoice) (a : Allocation) : list Invoice :=
  if alloc_settles a
  then update_where (fun i => inv_id i =? alloc_invoice a)
                    (set_inv_status PAID) t
  else t.

Definition most_recent_invoice (s : Store) (clientId : Id) : option Invoice :=
  maybeSingle
    (order_by (desc inv_createdAt)
       (filter (fun i => inv_clientId i =? clientId) (invoices s))).

(** *** The writes of [recomputeBalances] *)

(** The sequence of [(id, balanceAfter)] updates the replay issues. *)
Fixpoint writes (running : Amount) (es : list AccountEntry)
  : list (Id * Amount) :=
  match es with
  | [] => []
  | e :: r =>
      let running' := running + ae_debit e - ae_credit e in
      (ae_id e, running') :: writes running' r
  end.

(** The value the last update addressed to [id] carries. *)
Fixpoint last_write (ws : list (Id * Amount)) (id : Id) : option Amount :=
  match ws with
  | [] => None
  | (k, b) :: r =>
      match last_write r id with
      | Some b' => Some b'
      | None => if id =? k then Some b else None
      end
  end.

Definition rewrite_balance (ws : list (Id * Amount)) (e : AccountEntry)
  : AccountEntry :=
  match last_write ws (ae_id e) with
  | Some b => set_ae_balanceAfter b e
  | None => e
  end.

(** ** The scenarios of the specification, as runs of the model *)

Definition env_at (now : Timestamp) (base : Id) : Env :=
  mkEnv now (fun k => base + Z.of_nat k) 0.

(** One client, a delivered PROTESIS order without stamped price, and two
    delivered orders without work type stamped 100 and 50. *)
Definition store0 : Store :=
  mkStore
    [mkUserProfile 1 (Some "Ana") None]
    [mkWorkOrder 10 (Some 1) DELIVERED (Some PROTESIS) None (Some "OT-10")
                 (Some (mkPatient (Some "Juan")));
     mkWorkOrder 11 (Some 1) DONE None (Some 100) (Some "OT-11") None;
     mkWorkOrder 12 (Some 1) DONE None (Some 50) (Some "OT-12") None]
    [] [] [].

Definition store_of {A} (r : Result (Store * A)) : Store :=
  match r with
  | Ok (s, _) => s
  | Err _ => store0
  end.

(** Scenario 1: the invoice of order 10, created at time 100000. *)
Definition store1 : Store :=
  store_of (Billing.createInvoiceFromOrder (env_at 100000 100) store0 10).

(** Scenario 2: the full payment of 2750, at time 200000. *)
Definition store2 : Store :=
  store_of (Billing.recordPayment (env_at 200000 200) store1
              (Billing.mkPaymentInput 1 2750 None None)).

(** A payment of 1000 recorded at time 200000 and dated 50000, before the
    invoice of scenario 1. *)
Definition store_backdated : Store :=
  store_of (Billing.recordPayment (env_at 200000 200) store1
              (Billing.mkPaymentInput 1 1000 (Some 50000) None)).

(** Invoices A (order 11, amount 100, time 1000) and B (order 12, amount 50,
    time 2000), both pending and unpaid. *)
Definition storeAB : Store :=
  store_of (Billing.createInvoiceFromOrder (env_at 2000 120)
              (store_of (Billing.createInvoiceFromOrder (env_at 1000 110)
                           store0 11))
              12).

(** *** The invariant of the invoice and payment tables *)

Definition status_ok (s : Store) : Prop :=
  forall i, In i (invoices s) ->
    (inv_status i = PAID <-> inv_amount i <= paid s (inv_id i)).

Definition billing_inv (s : Store) : Prop :=
  NoDup (map inv_id (invoices s))
  /\ NoDup (map pay_id (payments s))
  /\ Forall (fun p => 0 < pay_amount p) (payments s)
  /\ Forall (fun p => In (pay_invoiceId p) (map inv_id (invoices s)))
            (payments s)
  /\ status_ok s.

(** What the allocation loop of [recordPayment] relies on when it reaches
    the invoices [invs] in state [a]: the tables are consistent, the invoices
    still to visit are distinct rows of the store, pending, with their
    payments summed in [paymentsByInvoice], and the uuids not yet handed out
    are unused. *)
Definition alloc_ready (env : Env) (paymentsByInvoice : list (Id * Amount))
    (invs : list Invoice) (a : Billing.Alloc) : Prop :=
  billing_inv (Billing.al_store a)
  /\ NoDup (map inv_id invs)
  /\ Forall (fun i =>
               In i (invoices (Billing.al_store a))
               /\ inv_status i = PENDING
               /\ orElse (map_get Z.eqb (inv_id i) paymentsByInvoice) 0
                  = paid (Billing.al_store a) (inv_id i)) invs
  /\ (forall k, (List.length (Billing.al_createdPayments a) <= k)%nat ->
        ~ In (env_uuid env k)
             (map pay_id (payments (Billing.al_store a)))).

(** The payment rows an allocation plan produces; the k-th row inserted by
    the call takes the k-th uuid. *)
Definition payment_of (env : Env) (payload : Billing.PaymentInput) (k : nat)
    (a : Allocation) : Payment :=
  mkPayment (env_uuid env k) (alloc_invoice a) "MANUAL"
            (orElse (Billing.in_note payload) EmptyString)
            (alloc_amount a) COMPLETED
            (orElse (Billing.in_date payload) (env_now env)).

Fixpoint payments_of (env : Env) (payload : Billing.PaymentInput) (k : nat)
    (plan : list Allocation) : list Payment :=
  match plan with
  | [] => []
  | a :: r => payment_of env payload k a :: payments_of env payload (S k) r
  end.

(** The ledger row [recordPayment] appends for the invoice [target]. *)
Definition credit_entry (env : Env) (s : Store)
    (payload : Billing.PaymentInput) (uuid : Id) (target : Id)
  : AccountEntry :=
  mkAccountEntry uuid (Billing.in_clientId payload) target 0
    (Billing.in_amount payload)
    (Billing.getLatestBalance s (Billing.in_clientId payload)
     + 0 - Billing.in_amount payload)
    (orElse (Billing.in_date payload) (env_now env)).

(** The invoice of scenario 1 as scenario 2 leaves it. *)
Definition paid_invoice : Invoice :=
  mkInvoice 100 1 (Some 10) 2750 "ARS" 100000 PAID 100000.

(** *** The amount of an invoice, in the words of the specification *)

(** The entry of the static price table for a work type, if present. *)
Definition table_price (workType : option WorkType) : option Amount :=
  match workType with
  | Some w => map_get String.eqb (workTypeName w) WORK_TYPE_PRICES
  | None => None
  end.

(** The table price when present and positive, otherwise the price stamped
    on the order (0 when it has none). *)
Definition resolved_amount (order : WorkOrder) : Amount :=
  let stamped := orElse (wo_price order) 0 in
  match table_price (wo_workType order) with
  | Some v => if 0 <? v then v else stamped
  | None => stamped
  end.

(** The payment of 120 against invoices A and B. *)
Definition storeAB_paid : Store :=
  store_of (Billing.recordPayment (env_at 3000 300) storeAB
              (Billing.mkPaymentInput 1 120 None None)).

(** *** Reconciliation of ledger rows, in the words of the specification *)

(** [t] lies within 5 seconds of [center], bounds included. *)
Definition in_window (center t : Timestamp) : bool :=
  (center - 5000 <=? t) && (t <=? center + 5000).

(** The earliest row of a list, the first in table order among equals. *)
Definition earliest (l : list AccountEntry) : option AccountEntry :=
  maybeSingle (order_by (asc ae_createdAt) l).

(** The credit row matching a payment: same client, same invoice, credit
    equal to the payment amount, created within 5 s of the payment. *)
Definition credit_entry_matches (invoice : Invoice) (payment : Payment)
    (e : AccountEntry) : bool :=
  (ae_clientId e =? inv_clientId invoice)
  && (ae_invoiceId e =? inv_id invoice)
  && (ae_credit e =? pay_amount payment)
  && in_window (pay_createdAt payment) (ae_createdAt e).

Definition credit_entry_of (s : Store) (invoice : Invoice) (payment : Payment)
  : option AccountEntry :=
  earliest (filter (credit_entry_matches invoice payment) (account_entries s)).

(** The debit row an invoice originated: same client, same invoice, debit
    equal to the invoice amount, created within 5 s of the invoice; failing
    that, the first row of that client and invoice with a positive debit. *)
Definition debit_entry_matches (invoice : Invoice) (e : AccountEntry) : bool :=
  (ae_clientId e =? inv_clientId invoice)
  && (ae_invoiceId e =? inv_id invoice)
  && (ae_debit e =? inv_amount invoice)
  && in_window (inv_createdAt invoice) (ae_createdAt e).

Definition debit_entry_fallback (invoice : Invoice) (e : AccountEntry) : bool :=
  (ae_clientId e =? inv_clientId invoice)
  && (ae_invoiceId e =? inv_id invoice)
  && (0 <? ae_debit e).

Definition debit_entry_of (s : Store) (invoice : Invoice)
  : option AccountEntry :=
  match earliest (filter (debit_entry_matches invoice) (account_entries s)) with
  | Some e => Some e
  | None => earliest (filter (debit_entry_fallback invoice) (account_entries s))
  end.

(** The ledger after an edit of the invoice amount as the specification
    describes it: the matched row takes the new debit and the balances of
    the client are recomputed. *)
Definition edited_ledger (s : Store) (invoice : Invoice) (amount : Amount)
  : list AccountEntry :=
  account_entries
    (InvoiceRoute.recomputeBalances
       (with_account_entries
          (match debit_entry_of s invoice with
           | Some found =>
               update_where (fun e => ae_id e =? ae_id found)
                            (set_ae_debit amount) (account_entries s)
           | None => account_entries s
           end) s)
       (inv_clientId invoice)).

(** The ledger after the deletion of a payment: the matched credit row, if
    any, is dropped and the balances of the client are recomputed. *)
Definition ledger_without_credit (s : Store) (invoice : Invoice)
    (payment : Payment) : list AccountEntry :=
  account_entries
    (PaymentRoute.recomputeBalances
       (with_account_entries
          (match credit_entry_of s invoice payment with
           | Some found =>
               delete_where (fun e => ae_id e =? ae_id found)
                            (account_entries s)
           | None => account_entries s
           end) s)
       (inv_clientId invoice)).

(** The invoice of scenario 1 while pending. *)
Definition pending_invoice : Invoice :=
  mkInvoice 100 1 (Some 10) 2750 "ARS" 100000 PENDING 100000.

(** *** The statement, in the words of the specification *)

(** The ledger rows of a client in the requested range, chronologically. *)
Definition statement_entries (env : Env) (s : Store) (clientId : Id)
    (dateFrom dateTo : option Timestamp) : list AccountEntry :=
  order_by (asc ae_createdAt)
    (filter (fun e =>
               (ae_clientId e =? clientId)
               && (match dateFrom with
                   | Some from => from <=? ae_createdAt e
                   | None => true
                   end
                   && match dateTo with
                      | Some to =>
                          ae_createdAt e
                          <=? Billing.endOfDay (env_tzOffset env) to
                      | None => true
                      end))
            (account_entries s)).

(** The payment rows fetched for a statement: those of the invoices the
    ledger rows refer to, in the order the store returns them. *)
Definition statement_payments (s : Store) (entries : list AccountEntry)
  : list Payment :=
  filter (fun p => mem (pay_invoiceId p) (map ae_invoiceId entries))
         (payments s).

(** The candidates for a credit row: same amount, created less than 5 s
    away from the row. *)
Definition payment_candidates (pays : list Payment) (e : AccountEntry)
  : list Payment :=
  filter (fun p => (pay_amount p =? ae_credit e)
                   && (Z.abs (pay_createdAt p - ae_createdAt e) <? 5000))
         pays.

Definition first_chronological (l : list Payment) : option Payment :=
  maybeSingle (order_by (asc pay_createdAt) l).

Definition invoice_of (s : Store) (e : AccountEntry) : option Invoice :=
  find (fun i => inv_id i =? ae_invoiceId e) (invoices s).

Definition order_of (s : Store) (e : AccountEntry) : option WorkOrder :=
  match invoice_of s e with
  | Some i =>
      match inv_workOrderId i with
      | Some w => find (fun o => wo_id o =? w) (work_orders s)
      | None => None
      end
  | None => None
  end.

(** The work description of an invoice row. *)
Definition work_description (order : option WorkOrder) : string :=
  match order with
  | Some o =>
      match wo_workType o with
      | Some w => Billing.formatWorkTypeLabel (Some (workTypeName w))
      | None => "Factura emitida"
      end
  | None => "Factura emitida"
  end.

Definition patient_name (order : option WorkOrder) : string :=
  match order with
  | Some o =>
      match wo_patient o with
      | Some pt => orElse (pt_name pt) "-"
      | None => "-"
      end
  | None => "-"
  end.

(** The label of a payment row: the note of the matched payment, or the
    generic label. *)
Definition payment_label (matched : option Payment) : string :=
  match matched with
  | Some pm =>
      match pay_providerRef pm with
      | EmptyString => "Pago registrado"
      | ref => ref
      end
  | None => "Pago registrado"
  end.

(** What a statement row says of its ledger row; [matched] is the payment
    a credit row is reconciled with. *)
Definition row_ok (s : Store) (matched : AccountEntry -> option Payment)
    (e : AccountEntry) (r : Billing.StatementRow) : Prop :=
  Billing.fecha r = ae_createdAt e
  /\ Billing.facturas r = ae_debit e
  /\ Billing.entregas r = ae_credit e
  /\ Billing.saldoAcumulado r = ae_balanceAfter e
  /\ Billing.invoiceId r = option_map inv_id (invoice_of s e)
  /\ (0 < ae_debit e ->
      Billing.tipo r = Billing.FACTURA
      /\ Billing.detalle r = work_description (order_of s e)
      /\ Billing.paciente r = patient_name (order_of s e)
      /\ Billing.paymentId r = None)
  /\ (ae_debit e <= 0 -> 0 < ae_credit e ->
      Billing.tipo r = Billing.PAGO
      /\ Billing.paymentId r = option_map pay_id (matched e)
      /\ Billing.detalle r = payment_label (matched e)
      /\ Billing.paciente r = "-")
  /\ (ae_debit e <= 0 -> ae_credit e <= 0 ->
      Billing.tipo r = Billing.MOVIMIENTO
      /\ Billing.detalle r = "Movimiento de cuenta"
      /\ Billing.paciente r = "-"
      /\ Billing.paymentId r = None).

(** Two payments of 500 on the invoice of scenario 1: the first recorded is
    dated 300000, the second is dated 299000, one second earlier. *)
Definition store_two_payments : Store :=
  store_of
    (Billing.recordPayment (env_at 301000 300)
       (store_of
          (Billing.recordPayment (env_at 300000 200) store1
             (Billing.mkPaymentInput 1 500 (Some 300000) (Some "primero"))))
       (Billing.mkPaymentInput 1 500 (Some 299000) (Some "segundo"))).

(** The statement of the client after scenario 2, read at time 400000. *)
Definition store_statement2 : Billing.Statement :=
  match Billing.getStatementByClient (env_at 400000 400) Billing.reads_ok
          store2 1 None None with
  | Ok st => st
  | Err _ => Billing.mkStatement (0, EmptyString) [] (Billing.mkTotals 0 0 0)
  end.

(** ** Proof automation *)

(** [Id], [Amount] and [Timestamp] are [Z]; arithmetic goals are closed
    after unfolding them. *)
Ltac zlia := unfold Amount, Id, Timestamp in *; lia.

(** Membership of a generated uuid in a list of stored ids, decided by
    arithmetic. *)
Ltac fresh_uuid :=
  let H := fresh "H" in
  intros ? H; unfold env_at in H; cbn [env_uuid] in H;
  repeat (destruct H as [H|H]; [lia|]); exact H.

Ltac uuid_injective :=
  let H := fresh "H" in
  intros ? ? H; unfold env_at in H; cbn [env_uuid] in H; lia.

(** * Further code of the back office

    A shallow embedding of
      - [src/server/auth/permissions.ts] (the permission predicates and
        [workOrderScopeForUser]),
      - [src/server/services/work-order-service.ts] ([applyScope],
        [sanitizePrice], [statusTransitions], [updateWorkOrderStatus]),
      - [src/server/services/invoicing-service.ts] ([escapePdfText],
        [markOrderAsDelivered] up to the invoice it bills),
      - [src/server/services/billing-report-service.ts] ([priceForOrder],
        [formatDebtor], [getBillableOrdersForExport]),
      - [src/pages/api/billing/export.ts] ([csvEscape], [GET]),
    together with the notions the further properties of the billing engine
    are stated with. *)

(** ** Further notions of the allocation and the ledger *)


(** Whether a plan settles the invoice [id]. *)
Definition settled_by (plan : list Allocation) (id : Id) : bool :=
  existsb (fun a => alloc_settles a && (id =? alloc_invoice a)) plan.


(** The store and the invoice a run of [createInvoiceFromOrder] produces
    for an order that passes the checks. *)
Definition invoiced_store (env : Env) (s : Store) (order : WorkOrder)
    (clientId : Id) : Store * Invoice :=
  let amount := resolved_amount order in
  let invoice :=
    mkInvoice (env_uuid env 0) clientId (Some (wo_id order)) amount "ARS"
              (env_now env) PENDING (env_now env) in
  (mkStore
     (user_profiles s)
     (if Billing.price_is_falsy (wo_price order)
      then update_where (fun o => wo_id o =? wo_id order)
                        (set_wo_price amount) (work_orders s)
      else work_orders s)
     (invoices s ++ [invoice])
     (payments s)
     (account_entries s
      ++ [mkAccountEntry (env_uuid env 1) clientId (env_uuid env 0) amount 0
            (Billing.getLatestBalance s clientId + amount - 0) (env_now env)]),
   invoice).


(** *** Well-formedness of the ledger against the invoice table *)

(** Every field of an invoice that no operation rewrites except an edit of
    the amount. *)
Definition inv_view (i : Invoice)
  : Id * Id * option Id * Amount * Timestamp :=
  (inv_id i, inv_clientId i, inv_workOrderId i, inv_amount i, inv_createdAt i).

(** The debit rows of an invoice. *)
Definition debit_rows (es : list AccountEntry) (invoiceId : Id)
  : list AccountEntry :=
  filter (fun e => (ae_invoiceId e =? invoiceId) && (0 <? ae_debit e)) es.

(** A ledger row is a debit or a credit, never both and never neither. *)
Definition entry_pure (e : AccountEntry) : Prop :=
  0 < ae_debit e /\ ae_credit e = 0 \/ ae_debit e = 0 /\ 0 < ae_credit e.

(** A ledger row refers to a stored invoice of the same client. *)
Definition entry_linked (invs : list Invoice) (e : AccountEntry) : Prop :=
  exists i, In i invs /\ inv_id i = ae_invoiceId e
            /\ inv_clientId i = ae_clientId e.

(** An invoice has exactly one debit row, of its amount, created with it. *)
Definition invoice_debited (es : list AccountEntry) (i : Invoice) : Prop :=
  exists d, debit_rows es (inv_id i) = [d]
            /\ ae_debit d = inv_amount i
            /\ ae_createdAt d = inv_createdAt i.

Definition ledger_wf (invs : list Invoice) (es : list AccountEntry) : Prop :=
  NoDup (map inv_id invs)
  /\ NoDup (map ae_id es)
  /\ NoDup (somes (map inv_workOrderId invs))
  /\ Forall (fun i => 0 < inv_amount i) invs
  /\ Forall (fun e => entry_linked invs e /\ entry_pure e) es
  /\ Forall (invoice_debited es) invs.

Definition ledger_inv (s : Store) : Prop :=
  ledger_wf (invoices s) (account_entries s).

(** ** server/auth/permissions.ts *)

Module Permissions.

Inductive Role := ADMIN | TECHNICIAN | CLINIC_ADMIN | DENTIST | LAB | CLIENT.

Definition Role_eqb (a b : Role) : bool :=
  match a, b with
  | ADMIN, ADMIN | TECHNICIAN, TECHNICIAN | CLINIC_ADMIN, CLINIC_ADMIN
  | DENTIST, DENTIST | LAB, LAB | CLIENT, CLIENT => true
  | _, _ => false
  end.

(** A [MinimalUser] that is not null; every field of it is optional. *)
Record User := mkUser {
  u_id : option Id;
  u_email : option string;
  u_role : option Role;
  u_clinicId : option Id
}.

(** [user.role === r] *)
Definition role_is (user : User) (r : Role) : bool :=
  match u_role user with
  | Some r' => Role_eqb r' r
  | None => false
  end.

(** [adminEmail] is [process.env.ADMIN_EMAIL]: absent, or a string, which is
    truthy when it is not empty. *)
Definition isAdmin (adminEmail : option string) (user : option User) : bool :=
  match user with
  | None => false
  | Some u =>
      if role_is u ADMIN then true
      else
        match adminEmail with
        | Some (String c r) =>
            if role_is u TECHNICIAN
            then match u_email u with
                 | Some e => String.eqb e (String c r)
                 | None => false
                 end
            else false
        | _ => false
        end
  end.

Definition isTecnico (user : option User) : bool :=
  match user with
  | None => false
  | Some u => role_is u TECHNICIAN
  end.

Definition canRunBilling (adminEmail : option string) (user : option User)
  : bool :=
  isAdmin adminEmail user.

Definition canCreateWorkOrder (user : option User) : bool :=
  match user with
  | None => false
  | Some u =>
      role_is u ADMIN || role_is u TECHNICIAN || role_is u CLINIC_ADMIN
      || role_is u DENTIST || role_is u LAB || role_is u CLIENT
  end.

Definition canSeePrices (user : option User) : bool :=
  match user with
  | None => false
  | Some u => role_is u ADMIN || role_is u CLINIC_ADMIN || role_is u TECHNICIAN
  end.

Definition canUploadWorkOrderFiles (user : option User) : bool :=
  match user with
  | None => false
  | Some u => role_is u TECHNICIAN || role_is u CLINIC_ADMIN || role_is u DENTIST
  end.

(** [or] lists the alternatives [column.eq.value] of the filter string;
    [eq] the columns that must equal a value.  A value is absent when the
    user lacks the field. *)
Record WorkOrderScope := mkScope {
  sc_or : option (list (string * option Id));
  sc_eq : list (string * option Id)
}.

Definition workOrderScopeForUser (user : option User) : option WorkOrderScope :=
  match user with
  | None => None
  | Some u =>
      match u_role u with
      | Some ADMIN => None
      | Some CLIENT =>
          Some (mkScope (Some [("dentistId", u_id u); ("clientId", u_id u)]) [])
      | Some DENTIST => Some (mkScope None [("dentistId", u_id u)])
      | Some LAB => Some (mkScope None [("labId", u_id u)])
      | Some TECHNICIAN | Some CLINIC_ADMIN =>
          Some (mkScope None [("clinicId", u_clinicId u)])
      | None => None
      end
  end.

End Permissions.

(** ** server/services/work-order-service.ts: the status of an order *)

(** The columns of a work-order row that the record [WorkOrder] does not
    carry, looked up by the id of the row. *)
Record OrderColumns := mkOrderColumns {
  col_code : option string;
  col_updatedAt : Timestamp;
  col_labId : option Id;
  col_clientId : option Id;
  col_clinicId : option Id
}.

Definition set_wo_status (st : WorkOrderStatus) (w : WorkOrder) : WorkOrder :=
  mkWorkOrder (wo_id w) (wo_dentistId w) st (wo_workType w) (wo_price w)
              (wo_displayCode w) (wo_patient w).

Definition WorkOrderStatus_eqb (a b : WorkOrderStatus) : bool :=
  match a, b with
  | CREATED, CREATED | IN_PROGRESS, IN_PROGRESS | DONE, DONE
  | DELIVERED, DELIVERED => true
  | _, _ => false
  end.

Module WorkOrders.

Inductive StatusError :=
| WorkOrderNotFound                                (* 'Work order not found' *)
| TransitionNotAllowed (from to : WorkOrderStatus)
| UpdateFailed.                        (* 'No se pudo actualizar la orden' *)

(** The uuid column [name] of a row. *)
Definition column (cols : Id -> OrderColumns) (o : WorkOrder) (name : string)
  : option Id :=
  if String.eqb name "dentistId" then wo_dentistId o
  else if String.eqb name "labId" then col_labId (cols (wo_id o))
  else if String.eqb name "clientId" then col_clientId (cols (wo_id o))
  else if String.eqb name "clinicId" then col_clinicId (cols (wo_id o))
  else None.

Definition column_is (cols : Id -> OrderColumns) (o : WorkOrder)
    (kv : string * option Id) : bool :=
  match snd kv, column cols o (fst kv) with
  | Some v, Some x => x =? v
  | _, _ => false
  end.

(** The rows a scoped query keeps: an [eq] entry without value adds no
    filter. *)
Definition applyScope (cols : Id -> OrderColumns)
    (scope : option Permissions.WorkOrderScope) (o : WorkOrder) : bool :=
  match scope with
  | None => true
  | Some sc =>
      forallb (fun kv => match snd kv with
                         | Some _ => column_is cols o kv
                         | None => true
                         end) (Permissions.sc_eq sc)
      && match Permissions.sc_or sc with
         | Some alternatives => existsb (column_is cols o) alternatives
         | None => true
         end
  end.

Definition sanitizePrice (record : WorkOrder) (allowPrice : bool) : WorkOrder :=
  if allowPrice then record
  else mkWorkOrder (wo_id record) (wo_dentistId record) (wo_status record)
                   (wo_workType record) None (wo_displayCode record)
                   (wo_patient record).

Definition statusTransitions (st : WorkOrderStatus) : list WorkOrderStatus :=
  match st with
  | CREATED => [IN_PROGRESS]
  | IN_PROGRESS => [DONE]
  | DONE => [DELIVERED]
  | DELIVERED => []
  end.

(** The row of [work_order_events] and the realtime broadcast that follow a
    change of status lie outside the modelled tables. *)
Definition updateWorkOrderStatus (cols : Id -> OrderColumns) (s : Store)
    (workOrderId : Id) (status : WorkOrderStatus)
    (currentUser : option Permissions.User)
  : StatusError + Store * WorkOrder :=
  let scope :=
    Permissions.workOrderScopeForUser
      (option_map (fun u => Permissions.mkUser (Permissions.u_id u) None
                              (Permissions.u_role u) None) currentUser) in
  let allowPrice := Permissions.canSeePrices currentUser in
  match
    maybeSingle
      (filter (fun o => (wo_id o =? workOrderId) && applyScope cols scope o)
              (work_orders s))
  with
  | None => inl WorkOrderNotFound
  | Some existing =>
      if WorkOrderStatus_eqb (wo_status existing) status
      then inr (s, sanitizePrice existing allowPrice)
      else
        let currentStatus := wo_status existing in
        let allowedNext := statusTransitions currentStatus in
        if negb (existsb (WorkOrderStatus_eqb status) allowedNext)
        then inl (TransitionNotAllowed currentStatus status)
        else
          let s1 :=
            with_work_orders
              (update_where (fun o => wo_id o =? wo_id existing)
                            (set_wo_status status) (work_orders s)) s in
          match
            maybeSingle (filter (fun o => wo_id o =? wo_id existing)
                                (work_orders s1))
          with
          | None => inl UpdateFailed
          | Some updated => inr (s1, sanitizePrice updated allowPrice)
          end
  end.

End WorkOrders.

(** ** server/services/invoicing-service.ts *)

Module Invoicing.

Definition backslash : ascii := ascii_of_nat 92.
Definition lparen : ascii := ascii_of_nat 40.
Definition rparen : ascii := ascii_of_nat 41.

(** [value.replace(/c/g, by)] for a single character [c]. *)
Fixpoint replaceAll (c : ascii) (by_ : string) (value : string) : string :=
  match value with
  | EmptyString => EmptyString
  | String x r =>
      if Ascii.eqb x c then (by_ ++ replaceAll c by_ r)%string
      else String x (replaceAll c by_ r)
  end.

Definition escapePdfText (value : string) : string :=
  replaceAll rparen (String backslash (String rparen EmptyString))
    (replaceAll lparen (String backslash (String lparen EmptyString))
       (replaceAll backslash (String backslash (String backslash EmptyString))
          value)).

Inductive DeliveryError :=
| StatusFailed (e : WorkOrders.StatusError)
| BillingFailed (e : Error).

(** The delivery of an order up to the invoice it bills: the status change,
    the search for the latest invoice of the order, the creation of one when
    there is none.  The store is returned in either case, since the status
    change is not undone when the invoice cannot be created.  The PDF and
    the notifications that follow write to none of the modelled tables. *)
Definition markOrderAsDelivered (cols : Id -> OrderColumns) (env : Env)
    (s : Store) (orderId : Id) (currentUser : option Permissions.User)
  : Store * (DeliveryError + WorkOrder * Invoice) :=
  match WorkOrders.updateWorkOrderStatus cols s orderId DELIVERED currentUser with
  | inl e => (s, inl (StatusFailed e))
  | inr (s1, updated) =>
      let invoice :=
        maybeSingle
          (order_by (desc inv_createdAt)
             (filter (fun i => match inv_workOrderId i with
                               | Some w => w =? orderId
                               | None => false
                               end) (invoices s1))) in
      match invoice with
      | Some i => (s1, inr (updated, i))
      | None =>
          match Billing.createInvoiceFromOrder env s1 orderId with
          | Ok (s2, created) => (s2, inr (updated, created))
          | Err e => (s1, inl (BillingFailed e))
          end
      end
  end.

End Invoicing.

(** ** server/services/billing-report-service.ts *)

Module Report.

Definition workTypePriceMap : list (string * Amount) :=
  map_of_entries String.eqb
    (map (fun kv => (toUpperCase (fst kv), snd kv)) WORK_TYPE_PRICES).

Record WorkOrderRow := mkWorkOrderRow {
  r_id : Id;
  r_code : option string;
  r_displayCode : option string;
  r_status : WorkOrderStatus;
  r_price : option Amount;
  r_workType : option WorkType;
  r_dentist : option UserProfile
}.

Definition priceForOrder (order : WorkOrderRow) : Amount :=
  let fromTable :=
    match r_workType order with
    | None => 0
    | Some w =>
        orElse (map_get String.eqb (toUpperCase (workTypeName w))
                        workTypePriceMap) 0
    end in
  match r_price order with
  | Some p => if p >? 0 then p else fromTable
  | None => fromTable
  end.

Definition formatDebtor (order : WorkOrderRow) : string :=
  match r_dentist order with
  | Some d =>
      match up_name d with
      | Some n => n
      | None => orElse (up_email d) "Sin asignar"
      end
  | None => "Sin asignar"
  end.

(** [displayCode ?? code ?? id] *)
Inductive Code :=
| CodeText (c : string)
| CodeId (id : Id).

(** A row of the export; [x_amount] is the number that [toFixed(2)] then
    prints. *)
Record ExportRow := mkExportRow {
  x_id : Id;
  x_code : Code;
  x_amount : Amount;
  x_status : WorkOrderStatus;
  x_debtor : string
}.

(** The row of the first query for an order: the selected columns and the
    joined dentist. *)
Definition orderRow (cols : Id -> OrderColumns) (s : Store) (o : WorkOrder)
  : WorkOrderRow :=
  mkWorkOrderRow (wo_id o) (col_code (cols (wo_id o))) (wo_displayCode o)
    (wo_status o) (wo_price o) (wo_workType o)
    (match wo_dentistId o with
     | Some d => maybeSingle (filter (fun u => up_id u =? d) (user_profiles s))
     | None => None
     end).

Definition exportRow (order : WorkOrderRow) : ExportRow :=
  let amount := priceForOrder order in
  mkExportRow (r_id order)
    (match r_displayCode order with
     | Some c => CodeText c
     | None => match r_code order with
               | Some c => CodeText c
               | None => CodeId (r_id order)
               end
     end)
    amount (r_status order) (formatDebtor order).

Definition getBillableOrdersForExport (cols : Id -> OrderColumns) (s : Store)
  : list ExportRow :=
  let orders :=
    map (orderRow cols s)
      (order_by (desc (fun o => col_updatedAt (cols (wo_id o))))
         (filter (fun o => match wo_status o with
                           | DONE | DELIVERED => true
                           | _ => false
                           end) (work_orders s))) in
  let invoiceLinks :=
    filter (fun i => match inv_workOrderId i with
                     | Some _ => true
                     | None => false
                     end) (invoices s) in
  let invoicedIds := somes (map inv_workOrderId invoiceLinks) in
  map exportRow
    (filter (fun order => negb (mem (r_id order) invoicedIds)) orders).

End Report.

(** ** pages/api/billing/export.ts *)

Module ExportRoute.

Definition dquote : ascii := ascii_of_nat 34.
Definition comma : ascii := ascii_of_nat 44.
Definition newline : ascii := ascii_of_nat 10.

(** [value.includes(c)] for a single character. *)
Fixpoint includes (c : ascii) (value : string) : bool :=
  match value with
  | EmptyString => false
  | String x r => Ascii.eqb x c || includes c r
  end.

Definition csvEscape (value : string) : string :=
  if includes dquote value || includes comma value || includes newline value
  then String dquote
         (Invoicing.replaceAll dquote (String dquote (String dquote EmptyString))
            value
          ++ String dquote EmptyString)%string
  else value.

(** A row as the report service returns it: five strings. *)
Record CsvRow := mkCsvRow {
  c_id : string;
  c_code : string;
  c_amount : string;
  c_status : string;
  c_debtor : string
}.

Definition header : list string := ["id"; "code"; "amount"; "status"; "debtor"].

Definition csvLines (rows : list CsvRow) : list string :=
  join "," header
  :: map (fun row =>
            join "," [csvEscape (c_id row); csvEscape (c_code row);
                      csvEscape (c_amount row); csvEscape (c_status row);
                      csvEscape (c_debtor row)]) rows.

Definition csv (rows : list CsvRow) : string :=
  join (String newline EmptyString) (csvLines rows).

Inductive Response :=
| Unauthorized            (* 401 *)
| Forbidden               (* 403 *)
| CsvFile (body : string) (* 200, text/csv *)
| ServerError.            (* 500 *)

(** [rows] is the outcome of [getBillableOrdersForExport], absent when it
    throws. *)
Definition GET (adminEmail : option string) (user : option Permissions.User)
    (rows : option (list CsvRow)) : Response :=
  match user with
  | None => Unauthorized
  | Some u =>
      match Permissions.u_id u with
      | None => Unauthorized
      | Some _ =>
          if negb (Permissions.canRunBilling adminEmail user) then Forbidden
          else match rows with
               | Some rs => CsvFile (csv rs)
               | None => ServerError
               end
      end
  end.

(** *** Reading the file back

    A reader of comma-separated values: a field that starts with a double
    quote runs to the closing quote, a doubled quote inside it standing for
    one quote; any other field runs to the next comma or line feed. *)
Inductive CsvState :=
| FieldStart
| Unquoted
| Quoted
| QuoteSeen.

Fixpoint parse_csv_from (st : CsvState) (field : string) (row : list string)
    (input : string) : list (list string) :=
  match input with
  | EmptyString => [row ++ [field]]
  | String c rest =>
      let add := (field ++ String c EmptyString)%string in
      match st with
      | Quoted =>
          if Ascii.eqb c dquote then parse_csv_from QuoteSeen field row rest
          else parse_csv_from Quoted add row rest
      | _ =>
          if Ascii.eqb c comma
          then parse_csv_from FieldStart EmptyString (row ++ [field]) rest
          else if Ascii.eqb c newline
          then (row ++ [field]) :: parse_csv_from FieldStart EmptyString [] rest
          else if Ascii.eqb c dquote
          then match st with
               | FieldStart => parse_csv_from Quoted field row rest
               | QuoteSeen => parse_csv_from Quoted add row rest
               | _ => parse_csv_from Unquoted add row rest
               end
          else parse_csv_from Unquoted add row rest
      end
  end.

Definition parse_csv (input : string) : list (list string) :=
  parse_csv_from FieldStart EmptyString [] input.

Definition fields (row : CsvRow) : list string :=
  [c_id row; c_code row; c_amount row; c_status row; c_debtor row].

End ExportRoute.

(** *** Reading a PDF literal string back

    The text of a literal string up to its closing parenthesis: a backslash
    makes the next character literal; the other escapes of the format do not
    occur in what [escapePdfText] writes and are not read. *)
Fixpoint pdf_read_literal (depth : nat) (input : string)
  : option (string * string) :=
  match input with
  | EmptyString => None
  | String c rest =>
      if Ascii.eqb c Invoicing.backslash then
        match rest with
        | String e rest' =>
            if Ascii.eqb e Invoicing.backslash || Ascii.eqb e Invoicing.lparen
               || Ascii.eqb e Invoicing.rparen
            then option_map (fun r => (String e (fst r), snd r))
                            (pdf_read_literal depth rest')
            else None
        | EmptyString => None
        end
      else if Ascii.eqb c Invoicing.lparen then
        option_map (fun r => (String c (fst r), snd r))
                   (pdf_read_literal (S depth) rest)
      else if Ascii.eqb c Invoicing.rparen then
        match depth with
        | O => Some (EmptyString, rest)
        | S d => option_map (fun r => (String c (fst r), snd r))
                            (pdf_read_literal d rest)
        end
      else option_map (fun r => (String c (fst r), snd r))
                      (pdf_read_literal depth rest)
  end.

(** The position of a status in the life of an order. *)
Definition status_rank (st : WorkOrderStatus) : Z :=
  match st with
  | CREATED => 0
  | IN_PROGRESS => 1
  | DONE => 2
  | DELIVERED => 3
  end.

(** The rows [updateWorkOrderStatus] may act on for a caller: the scope is
    computed from the id and the role of the caller alone. *)
Definition visible_to (cols : Id -> OrderColumns)
    (currentUser : option Permissions.User) (workOrderId : Id) (o : WorkOrder)
  : bool :=
  (wo_id o =? workOrderId)
  && WorkOrders.applyScope cols
       (Permissions.workOrderScopeForUser
          (option_map (fun u => Permissions.mkUser (Permissions.u_id u) None
                                  (Permissions.u_role u) None) currentUser)) o.

(** The latest invoice of an order, as [markOrderAsDelivered] looks it up. *)
Definition invoice_of_order (s : Store) (orderId : Id) : option Invoice :=
  maybeSingle
    (order_by (desc inv_createdAt)
       (filter (fun i => match inv_workOrderId i with
                         | Some w => w =? orderId
                         | None => false
                         end) (invoices s))).

(** Columns for the examples: no code, no lab, client or clinic. *)
Definition no_columns (id : Id) : OrderColumns :=
  mkOrderColumns None 0 None None None.

Definition admin_user : Permissions.User :=
  Permissions.mkUser (Some 1) (Some "admin@example.com")
                     (Some Permissions.ADMIN) None.

(** An order that is done but has neither work type nor price. *)
Definition store_unpriced : Store :=
  mkStore [mkUserProfile 1 (Some "Ana") None]
          [mkWorkOrder 20 (Some 1) DONE None None None None]
          [] [] [].

(** The text after a field: nothing, or a comma or a line feed and more. *)
Definition field_end (tail : string) : Prop :=
  match tail with
  | EmptyString => True
  | String c _ => c = ExportRoute.comma \/ c = ExportRoute.newline
  end.

(** * Properties *)

(** ** Sums, sorting and the query layer *)

Lemma fold_add_acc (l : list Z) (a : Z) : fold_left Z.add l a = a + sumZ l.
Proof.
  unfold sumZ. revert a.
  induction l as [|x l IH]; intros a; simpl.
  - lia.
  - rewrite IH, (IH x). lia.
Qed.

Lemma sumZ_cons (x : Z) (l : list Z) : sumZ (x :: l) = x + sumZ l.
Proof. unfold sumZ at 1. simpl. apply fold_add_acc. Qed.

Lemma sumZ_app (l1 l2 : list Z) : sumZ (l1 ++ l2) = sumZ l1 + sumZ l2.
Proof.
  induction l1 as [|x l1 IH]; simpl.
  - reflexivity.
  - rewrite !sumZ_cons, IH. lia.
Qed.

Lemma fold_sum_map {A} (f : A -> Z) (l : list A) (a : Z) :
  fold_left (fun sum x => sum + f x) l a = a + sumZ (map f l).
Proof.
  revert a. induction l as [|x l IH]; intros a; simpl.
  - unfold sumZ. simpl. lia.
  - rewrite IH, sumZ_cons. lia.
Qed.

Section SortFacts.
Context {A : Type} (leb : A -> A -> bool).

Lemma insert_by_perm (x : A) (l : list A) :
  Permutation (insert_by leb x l) (x :: l).
Proof.
  induction l as [|y l IH]; simpl.
  - apply Permutation_refl.
  - destruct (leb x y).
    + apply Permutation_refl.
    + eapply Permutation_trans.
      * apply perm_skip, IH.
      * apply perm_swap.
Qed.

Lemma order_by_perm (l : list A) : Permutation (order_by leb l) l.
Proof.
  induction l as [|x l IH]; simpl.
  - apply perm_nil.
  - eapply Permutation_trans.
    + apply insert_by_perm.
    + apply perm_skip, IH.
Qed.

Lemma order_by_In (l : list A) (x : A) : In x (order_by leb l) <-> In x l.
Proof.
  split; apply Permutation_in.
  - apply order_by_perm.
  - apply Permutation_sym, order_by_perm.
Qed.

Lemma order_by_nil_iff (l : list A) : order_by leb l = [] <-> l = [].
Proof.
  split; intros H.
  - apply Permutation_nil. rewrite <- H. apply order_by_perm.
  - subst l. reflexivity.
Qed.

Lemma order_by_length (l : list A) :
  List.length (order_by leb l) = List.length l.
Proof. apply Permutation_length, order_by_perm. Qed.
End SortFacts.

Section SortMap.
Context {A : Type} (leb : A -> A -> bool) (f : A -> A).
Hypothesis leb_f : forall a b, leb (f a) (f b) = leb a b.

Lemma insert_by_map (x : A) (l : list A) :
  insert_by leb (f x) (map f l) = map f (insert_by leb x l).
Proof.
  induction l as [|y l IH]; simpl.
  - reflexivity.
  - rewrite leb_f. destruct (leb x y); simpl.
    + reflexivity.
    + now rewrite IH.
Qed.

Lemma order_by_map (l : list A) :
  order_by leb (map f l) = map f (order_by leb l).
Proof.
  induction l as [|x l IH]; simpl.
  - reflexivity.
  - now rewrite IH, insert_by_map.
Qed.
End SortMap.

Lemma filter_map_comm {A} (p : A -> bool) (f : A -> A) (l : list A) :
  (forall a, p (f a) = p a) ->
  filter p (map f l) = map f (filter p l).
Proof.
  intros Hp. induction l as [|x l IH]; simpl.
  - reflexivity.
  - rewrite Hp. destruct (p x); simpl; now rewrite IH.
Qed.

Lemma NoDup_map_In_eq {A B} (f : A -> B) (l : list A) (a b : A) :
  NoDup (map f l) -> In a l -> In b l -> f a = f b -> a = b.
Proof.
  induction l as [|x l IH]; simpl; intros Hnd Ha Hb Hf.
  - contradiction.
  - inversion Hnd as [|? ? Hx Hnd']; subst.
    destruct Ha as [->|Ha], Hb as [->|Hb].
    + reflexivity.
    + exfalso. apply Hx. rewrite Hf. now apply in_map.
    + exfalso. apply Hx. rewrite <- Hf. now apply in_map.
    + now apply IH.
Qed.

Lemma NoDup_map_filter {Row Key} (key : Row -> Key) (keep : Row -> bool)
    (rows : list Row) :
  NoDup (map key rows) -> NoDup (map key (filter keep rows)).
Proof.
  intros Hnd. induction rows as [|r rows IH]; simpl in *.
  - constructor.
  - inversion Hnd as [|? ? Hr Hnd']; subst.
    destruct (keep r); simpl; [constructor|]; auto.
    intros Hin. apply Hr. apply in_map_iff in Hin.
    destruct Hin as [y [Hy Hin]]. apply filter_In in Hin.
    rewrite <- Hy. now apply in_map.
Qed.

Lemma NoDup_map_order_by {A B} (f : A -> B) (leb : A -> A -> bool)
    (l : list A) :
  NoDup (map f l) -> NoDup (map f (order_by leb l)).
Proof.
  intros H. eapply Permutation_NoDup; [|exact H].
  apply Permutation_map, Permutation_sym, order_by_perm.
Qed.

Lemma map_update_where_key {A B} (key : A -> B) (p : A -> bool) (f : A -> A)
    (t : list A) :
  (forall a, key (f a) = key a) ->
  map key (update_where p f t) = map key t.
Proof.
  intros Hk. unfold update_where. rewrite map_map.
  apply map_ext. intros a. destruct (p a); auto.
Qed.

(** ** recomputeBalances *)

(** The two route files carry the same copy of [recomputeBalances]. *)
Lemma recompute_loop_same es r t :
  PaymentRoute.recompute_loop es r t = InvoiceRoute.recompute_loop es r t.
Proof.
  revert r t. induction es as [|e es IH]; intros r t; simpl.
  - reflexivity.
  - apply IH.
Qed.

Lemma recomputeBalances_same s c :
  PaymentRoute.recomputeBalances s c = InvoiceRoute.recomputeBalances s c.
Proof.
  unfold PaymentRoute.recomputeBalances, InvoiceRoute.recomputeBalances.
  now rewrite recompute_loop_same.
Qed.

Lemma recompute_loop_char es r t :
  InvoiceRoute.recompute_loop es r t = map (rewrite_balance (writes r es)) t.
Proof.
  revert r t. induction es as [|e es IH]; intros r t; simpl.
  - unfold rewrite_balance. simpl. symmetry. apply map_id.
  - rewrite IH. unfold update_where. rewrite map_map.
    apply map_ext. intros x. unfold rewrite_balance. simpl.
    destruct (ae_id x =? ae_id e) eqn:E; simpl.
    + destruct (last_write _ (ae_id x)); reflexivity.
    + destruct (last_write _ (ae_id x)); reflexivity.
Qed.

Lemma rewrite_balance_frame ws e :
  entry_frame (rewrite_balance ws e) = entry_frame e.
Proof. unfold rewrite_balance. destruct (last_write ws (ae_id e)); reflexivity. Qed.

Lemma rewrite_balance_id ws e : ae_id (rewrite_balance ws e) = ae_id e.
Proof. unfold rewrite_balance. destruct (last_write ws (ae_id e)); reflexivity. Qed.

Lemma rewrite_balance_client ws e :
  ae_clientId (rewrite_balance ws e) = ae_clientId e.
Proof. unfold rewrite_balance. destruct (last_write ws (ae_id e)); reflexivity. Qed.

Lemma rewrite_balance_order ws a b :
  by_createdAt_id (rewrite_balance ws a) (rewrite_balance ws b)
  = by_createdAt_id a b.
Proof.
  unfold rewrite_balance.
  destruct (last_write ws (ae_id a)), (last_write ws (ae_id b)); reflexivity.
Qed.

Lemma rewrite_balance_twice ws e :
  rewrite_balance ws (rewrite_balance ws e) = rewrite_balance ws e.
Proof.
  unfold rewrite_balance at 1. rewrite rewrite_balance_id.
  unfold rewrite_balance.
  destruct (last_write ws (ae_id e)); reflexivity.
Qed.

Lemma writes_rewrite ws r es :
  writes r (map (rewrite_balance ws) es) = writes r es.
Proof.
  revert r. induction es as [|e es IH]; intros r; simpl.
  - reflexivity.
  - rewrite IH, rewrite_balance_id.
    unfold rewrite_balance. destruct (last_write ws (ae_id e)); reflexivity.
Qed.

Lemma writes_keys r es : map fst (writes r es) = map ae_id es.
Proof.
  revert r. induction es as [|e es IH]; intros r; simpl.
  - reflexivity.
  - now rewrite IH.
Qed.

Lemma last_write_absent ws id : ~ In id (map fst ws) -> last_write ws id = None.
Proof.
  induction ws as [|[k b] ws IH]; simpl; intros H.
  - reflexivity.
  - rewrite IH by tauto.
    destruct (Z.eqb_spec id k); [exfalso; apply H; auto | reflexivity].
Qed.

Lemma last_write_present ws id :
  In id (map fst ws) -> exists b, last_write ws id = Some b.
Proof.
  induction ws as [|[k b] ws IH]; simpl; intros H.
  - contradiction.
  - destruct (last_write ws id) as [b'|] eqn:E.
    + now exists b'.
    + destruct (Z.eqb_spec id k).
      * now exists b.
      * destruct H as [H|H]; [congruence|].
        destruct (IH H) as [b' Hb]. discriminate.
Qed.

Lemma recomputeBalances_char s c :
  InvoiceRoute.recomputeBalances s c
  = with_account_entries
      (map (rewrite_balance (writes 0 (client_ledger s c)))
           (account_entries s)) s.
Proof.
  unfold InvoiceRoute.recomputeBalances. fold (client_ledger s c).
  now rewrite recompute_loop_char.
Qed.

Lemma client_ledger_recompute s c :
  client_ledger (InvoiceRoute.recomputeBalances s c) c
  = map (rewrite_balance (writes 0 (client_ledger s c))) (client_ledger s c).
Proof.
  rewrite recomputeBalances_char. unfold client_ledger at 1. simpl.
  rewrite filter_map_comm
    by (intros a; now rewrite rewrite_balance_client).
  rewrite order_by_map by (intros a b; apply rewrite_balance_order).
  reflexivity.
Qed.

Lemma recompute_twice s c :
  InvoiceRoute.recomputeBalances (InvoiceRoute.recomputeBalances s c) c
  = InvoiceRoute.recomputeBalances s c.
Proof.
  rewrite (recomputeBalances_char (InvoiceRoute.recomputeBalances s c)).
  rewrite client_ledger_recompute, writes_rewrite.
  rewrite recomputeBalances_char. unfold with_account_entries. simpl.
  f_equal. rewrite map_map.
  apply map_ext. intros e. apply rewrite_balance_twice.
Qed.

Lemma rewrite_ledger_running es r :
  NoDup (map ae_id es) ->
  map ae_balanceAfter (map (rewrite_balance (writes r es)) es)
  = running_sums r es.
Proof.
  revert r. induction es as [|e es IH]; intros r Hnd; simpl.
  - reflexivity.
  - inversion Hnd as [|? ? Hx Hnd']; subst.
    f_equal.
    + unfold rewrite_balance. simpl.
      rewrite last_write_absent by now rewrite writes_keys.
      rewrite Z.eqb_refl. reflexivity.
    + rewrite <- (IH _ Hnd'). rewrite !map_map.
      apply map_ext_in. intros x Hin.
      unfold rewrite_balance. simpl.
      destruct (last_write_present (writes (r + ae_debit e - ae_credit e) es)
                                   (ae_id x)) as [b Hb].
      { rewrite writes_keys. now apply in_map. }
      now rewrite Hb.
Qed.

Lemma chain_ok_running l r :
  chain_ok r l = true <-> map ae_balanceAfter l = running_sums r l.
Proof.
  revert r. induction l as [|e l IH]; intros r; simpl.
  - tauto.
  - rewrite andb_true_iff, Z.eqb_eq, IH. split.
    + intros [H1 H2]. rewrite <- H1. now f_equal.
    + intros H. injection H as H1 H2. rewrite <- H1 in H2. auto.
Qed.

Lemma running_sums_rewrite ws r es :
  running_sums r (map (rewrite_balance ws) es) = running_sums r es.
Proof.
  revert r. induction es as [|e es IH]; intros r; simpl.
  - reflexivity.
  - rewrite IH.
    unfold rewrite_balance. destruct (last_write ws (ae_id e)); reflexivity.
Qed.

Lemma client_ledger_NoDup s c :
  NoDup (map ae_id (account_entries s)) ->
  NoDup (map ae_id (client_ledger s c)).
Proof.
  intros Hnd. unfold client_ledger.
  apply NoDup_map_order_by, NoDup_map_filter, Hnd.
Qed.

(** With unique ids, a recomputation leaves the client's chain consistent. *)
Lemma recompute_ledger_ok s c :
  NoDup (map ae_id (account_entries s)) ->
  ledger_ok (InvoiceRoute.recomputeBalances s c) c = true.
Proof.
  intros Hnd. unfold ledger_ok. apply chain_ok_running.
  rewrite client_ledger_recompute, running_sums_rewrite.
  apply rewrite_ledger_running, client_ledger_NoDup, Hnd.
Qed.

Lemma recompute_other_clients s c :
  NoDup (map ae_id (account_entries s)) ->
  filter (fun e => negb (ae_clientId e =? c))
         (account_entries (InvoiceRoute.recomputeBalances s c))
  = filter (fun e => negb (ae_clientId e =? c)) (account_entries s).
Proof.
  intros Hnd. rewrite recomputeBalances_char. simpl.
  rewrite filter_map_comm
    by (intros a; now rewrite rewrite_balance_client).
  rewrite <- (map_id (filter _ (account_entries s))) at 2.
  apply map_ext_in. intros e He. apply filter_In in He. destruct He as [He Hc].
  unfold rewrite_balance. rewrite last_write_absent; [reflexivity|].
  rewrite writes_keys. intros Hin. apply in_map_iff in Hin.
  destruct Hin as [e' [Hid He']].
  unfold client_ledger in He'. apply order_by_In, filter_In in He'.
  destruct He' as [He' Hc'].
  assert (e' = e) by (eapply NoDup_map_In_eq; eauto). subst e'.
  rewrite Hc' in Hc. discriminate.
Qed.

(** C4.  [recomputeBalances] is idempotent: a second run with no write in
    between leaves the store as the first run left it (for both copies of
    the function).  A run rewrites nothing but the [balanceAfter] field of
    ledger rows; and, ids being unique, it stores on the client's rows, in
    the order (createdAt, id), the running sums of debit - credit from 0 and
    leaves the rows of other clients alone. *)
Theorem recomputeBalances_idempotent (s : Store) (clientId : Id) :
  let s1 := InvoiceRoute.recomputeBalances s clientId in
  InvoiceRoute.recomputeBalances s1 clientId = s1
  /\ PaymentRoute.recomputeBalances
       (PaymentRoute.recomputeBalances s clientId) clientId
     = PaymentRoute.recomputeBalances s clientId
  /\ map entry_frame (account_entries s1) = map entry_frame (account_entries s)
  /\ user_profiles s1 = user_profiles s
  /\ work_orders s1 = work_orders s
  /\ invoices s1 = invoices s
  /\ payments s1 = payments s
  /\ (NoDup (map ae_id (account_entries s)) ->
      map ae_balanceAfter (client_ledger s1 clientId)
      = running_sums 0 (client_ledger s clientId)
      /\ filter (fun e => negb (ae_clientId e =? clientId)) (account_entries s1)
         = filter (fun e => negb (ae_clientId e =? clientId))
                  (account_entries s)).
Proof.
  intros s1. subst s1. split; [apply recompute_twice|].
  split; [rewrite !recomputeBalances_same; apply recompute_twice|].
  split.
  { rewrite recomputeBalances_char. simpl. rewrite map_map.
    apply map_ext. intros e. apply rewrite_balance_frame. }
  repeat (split; [reflexivity|]).
  intros Hnd. split.
  - rewrite client_ledger_recompute.
    apply rewrite_ledger_running, client_ledger_NoDup, Hnd.
  - apply recompute_other_clients, Hnd.
Qed.

Lemma recomputeBalances_idempotent_witness :
  NoDup (map ae_id (account_entries store_backdated))
  /\ map ae_balanceAfter
       (client_ledger (InvoiceRoute.recomputeBalances store_backdated 1) 1)
     = [-1000; 1750].
Proof.
  assert (Hnd : NoDup (map ae_id (account_entries store_backdated))).
  { vm_compute. repeat constructor; simpl; intuition discriminate. }
  split; [exact Hnd|].
  destruct (recomputeBalances_idempotent store_backdated 1)
    as (_ & _ & _ & _ & _ & _ & _ & H).
  destruct (H Hnd) as [H1 _]. rewrite H1. reflexivity.
Defined.

(** ** The JavaScript maps keyed by id *)

Lemma map_get_set {V} (k k' : Id) (v : V) (m : list (Id * V)) :
  map_get Z.eqb k (map_set Z.eqb k' v m)
  = if k' =? k then Some v else map_get Z.eqb k m.
Proof.
  unfold map_get, map_set. simpl.
  destruct (Z.eqb_spec k' k) as [->|Hne]; [reflexivity|].
  f_equal. induction m as [|[a b] m IH]; simpl.
  - reflexivity.
  - destruct (Z.eqb_spec a k') as [->|Ha]; simpl.
    + destruct (Z.eqb_spec k' k); [contradiction|]. exact IH.
    + destruct (a =? k); [reflexivity|exact IH].
Qed.

Lemma find_app_first {A} (p : A -> bool) (l1 l2 : list A) :
  find p (l1 ++ l2)
  = match find p l1 with
    | Some x => Some x
    | None => find p l2
    end.
Proof.
  induction l1 as [|x l1 IH]; simpl.
  - reflexivity.
  - destruct (p x); [reflexivity|exact IH].
Qed.

Lemma map_of_entries_get {V} (l : list (Id * V)) (k : Id) :
  map_get Z.eqb k (map_of_entries Z.eqb l)
  = option_map snd (find (fun kv => fst kv =? k) (rev l)).
Proof.
  unfold map_of_entries.
  assert (H : forall m,
    map_get Z.eqb k (fold_left (fun m kv => map_set Z.eqb (fst kv) (snd kv) m) l m)
    = match find (fun kv => fst kv =? k) (rev l) with
      | Some kv => Some (snd kv)
      | None => map_get Z.eqb k m
      end).
  { induction l as [|[a b] l IH]; intros m; simpl.
    - reflexivity.
    - rewrite IH, find_app_first.
      match goal with
      | |- context [find ?f (rev l)] => destruct (find f (rev l))
      end; [reflexivity|].
      rewrite map_get_set. simpl. destruct (a =? k); reflexivity. }
  rewrite H.
  match goal with
  | |- context [find ?f (rev l)] => destruct (find f (rev l))
  end; reflexivity.
Qed.

Lemma find_unique {A} (key : A -> Id) (l : list A) (x : A) :
  NoDup (map key l) -> In x l ->
  find (fun y => key y =? key x) l = Some x.
Proof.
  induction l as [|y l IH]; simpl; intros Hnd Hin.
  - contradiction.
  - inversion Hnd as [|? ? Hy Hnd']; subst.
    destruct (Z.eqb_spec (key y) (key x)) as [E|E].
    + destruct Hin as [->|Hin]; [reflexivity|].
      exfalso. apply Hy. rewrite E. now apply in_map.
    + destruct Hin as [->|Hin]; [congruence|]. now apply IH.
Qed.

Lemma find_none_key {A} (key : A -> Id) (l : list A) (k : Id) :
  ~ In k (map key l) -> find (fun y => key y =? k) l = None.
Proof.
  induction l as [|y l IH]; simpl; intros H.
  - reflexivity.
  - destruct (Z.eqb_spec (key y) k); [exfalso; auto|]. apply IH. tauto.
Qed.

(** ** Payments recorded against an invoice *)

Lemma paid_ext s s' id : payments s' = payments s -> paid s' id = paid s id.
Proof. unfold paid. now intros ->. Qed.

Lemma paid_insert s t p id :
  payments t = payments s ++ [p] ->
  paid t id = paid s id + (if pay_invoiceId p =? id then pay_amount p else 0).
Proof.
  unfold paid. intros ->. rewrite filter_app, map_app, sumZ_app. simpl.
  destruct (pay_invoiceId p =? id); simpl.
  - rewrite sumZ_cons. unfold sumZ. simpl. lia.
  - unfold sumZ at 2. simpl. lia.
Qed.

Lemma paid_fold s id :
  fold_left (fun sum payment => sum + pay_amount payment)
            (filter (fun p => pay_invoiceId p =? id) (payments s)) 0
  = paid s id.
Proof. rewrite fold_sum_map. reflexivity. Qed.

(** The map [paymentsByInvoice] of [recordPayment] holds, for each invoice,
    the total of the fetched payment rows. *)
Lemma paymentsByInvoice_get (pays : list Payment) (m : list (Id * Amount))
    (k : Id) :
  orElse (map_get Z.eqb k
            (fold_left
               (fun m payment =>
                  let current :=
                    orElse (map_get Z.eqb (pay_invoiceId payment) m) 0 in
                  map_set Z.eqb (pay_invoiceId payment)
                          (current + pay_amount payment) m)
               pays m)) 0
  = orElse (map_get Z.eqb k m) 0
    + sumZ (map pay_amount (filter (fun p => pay_invoiceId p =? k) pays)).
Proof.
  revert m. induction pays as [|p pays IH]; intros m; simpl.
  - unfold sumZ. simpl. zlia.
  - rewrite IH. cbv zeta. rewrite map_get_set.
    destruct (pay_invoiceId p =? k) eqn:E; simpl.
    + apply Z.eqb_eq in E. rewrite sumZ_cons, E. zlia.
    + reflexivity.
Qed.

Lemma filter_filter_mem (ids : list Id) (k : Id) (ps : list Payment) :
  mem k ids = true ->
  filter (fun p => pay_invoiceId p =? k)
         (filter (fun p => mem (pay_invoiceId p) ids) ps)
  = filter (fun p => pay_invoiceId p =? k) ps.
Proof.
  intros Hk. induction ps as [|p ps IH]; simpl.
  - reflexivity.
  - destruct (mem (pay_invoiceId p) ids) eqn:Hm; simpl.
    + now rewrite IH.
    + destruct (Z.eqb_spec (pay_invoiceId p) k) as [E|E].
      * rewrite E, Hk in Hm. discriminate.
      * exact IH.
Qed.

Lemma mem_In (k : Id) (ids : list Id) : mem k ids = true <-> In k ids.
Proof.
  unfold mem. rewrite existsb_exists. split.
  - intros [x [Hx E]]. apply Z.eqb_eq in E. now subst.
  - intros H. exists k. split; [exact H|apply Z.eqb_refl].
Qed.

(** ** The status invariant *)

Lemma NoDup_snoc {A} (l : list A) (x : A) :
  NoDup l -> ~ In x l -> NoDup (l ++ [x]).
Proof.
  intros Hl Hx. eapply Permutation_NoDup.
  - apply Permutation_cons_append.
  - now constructor.
Qed.

Lemma In_update_where {A} (p : A -> bool) (f : A -> A) (t : list A) (x : A) :
  In x (update_where p f t) ->
  exists r, In r t /\ x = if p r then f r else r.
Proof.
  unfold update_where. intros H. apply in_map_iff in H.
  destruct H as [r [E Hr]]. exists r. auto.
Qed.

Lemma In_update_where_other {A} (p : A -> bool) (f : A -> A) (t : list A)
    (x : A) :
  In x t -> p x = false -> In x (update_where p f t).
Proof.
  intros Hin Hp. unfold update_where. apply in_map_iff.
  exists x. rewrite Hp. auto.
Qed.

(** One allocation: a payment row against a pending invoice, and the flip
    to PAID exactly when the invoice is then covered. *)
Lemma allocation_step_inv (s : Store) (invoice : Invoice) (payment : Payment)
    (flip : bool) :
  billing_inv s ->
  In invoice (invoices s) ->
  inv_status invoice = PENDING ->
  pay_invoiceId payment = inv_id invoice ->
  0 < pay_amount payment ->
  ~ In (pay_id payment) (map pay_id (payments s)) ->
  (flip = true <->
   inv_amount invoice <= paid s (inv_id invoice) + pay_amount payment) ->
  let s1 := with_payments (payments s ++ [payment]) s in
  billing_inv
    (if flip
     then with_invoices
            (update_where (fun i => inv_id i =? inv_id invoice)
                          (set_inv_status PAID) (invoices s1)) s1
     else s1).
Proof.
  intros (Hi & Hp & Hpos & Hlink & Hst) Hin Hpend Hfor Happl Hfresh Hflip s1.
  assert (Hids : map inv_id
                   (update_where (fun i => inv_id i =? inv_id invoice)
                                 (set_inv_status PAID) (invoices s))
                 = map inv_id (invoices s))
    by (apply map_update_where_key; reflexivity).
  assert (Hpaid : forall t k, payments t = payments s ++ [payment] ->
            paid t k = paid s k
                       + (if inv_id invoice =? k then pay_amount payment else 0)).
  { intros t k Ht. rewrite (paid_insert s t payment k Ht), Hfor. reflexivity. }
  assert (Hpays : forall t, payments t = payments s ++ [payment] ->
            map inv_id (invoices t) = map inv_id (invoices s) ->
            NoDup (map pay_id (payments t))
            /\ Forall (fun p => 0 < pay_amount p) (payments t)
            /\ Forall (fun p => In (pay_invoiceId p) (map inv_id (invoices t)))
                      (payments t)).
  { intros t Ht Hti. rewrite Ht, Hti. repeat split.
    - rewrite map_app. simpl. now apply NoDup_snoc.
    - apply Forall_app. split; [exact Hpos|]. constructor; [exact Happl|constructor].
    - apply Forall_app. split; [exact Hlink|]. constructor; [|constructor].
      rewrite Hfor. now apply in_map. }
  destruct flip.
  - assert (Hcov : inv_amount invoice
                   <= paid s (inv_id invoice) + pay_amount payment)
      by now apply Hflip.
    destruct (Hpays (with_invoices
                       (update_where (fun i => inv_id i =? inv_id invoice)
                                     (set_inv_status PAID) (invoices s1)) s1)
                    eq_refl Hids) as (H1 & H2 & H3).
    split.
    { change (NoDup (map inv_id
                (update_where (fun i => inv_id i =? inv_id invoice)
                              (set_inv_status PAID) (invoices s)))).
      rewrite Hids. exact Hi. }
    split; [exact H1|]. split; [exact H2|]. split; [exact H3|].
    intros i Hi_in. simpl in Hi_in.
    apply In_update_where in Hi_in. destruct Hi_in as [r [Hr ->]].
    match goal with
    | |- context [paid ?t ?k] => rewrite (Hpaid t k eq_refl)
    end.
    destruct (Z.eqb_spec (inv_id r) (inv_id invoice)) as [E|E].
    + assert (r = invoice) by (eapply NoDup_map_In_eq; eauto). subst r.
      simpl. rewrite Z.eqb_refl. split; [intros _; exact Hcov|reflexivity].
    + destruct (Z.eqb_spec (inv_id invoice) (inv_id r)); [congruence|].
      rewrite Z.add_0_r. now apply Hst.
  - assert (Hunc : ~ inv_amount invoice
                     <= paid s (inv_id invoice) + pay_amount payment).
    { intros H. apply Hflip in H. discriminate. }
    destruct (Hpays s1 eq_refl eq_refl) as (H1 & H2 & H3).
    split; [exact Hi|].
    split; [exact H1|]. split; [exact H2|]. split; [exact H3|].
    intros i Hi_in. simpl in Hi_in.
    rewrite (Hpaid s1 _ eq_refl).
    destruct (Z.eqb_spec (inv_id invoice) (inv_id i)) as [E|E].
    + assert (i = invoice) by (eapply NoDup_map_In_eq; eauto). subst i.
      rewrite Hpend. split; [discriminate|]. intros H. contradiction.
    + rewrite Z.add_0_r. now apply Hst.
Qed.

Lemma allocate_inv env payload pbi invs a :
  (forall j k : nat, env_uuid env j = env_uuid env k -> j = k) ->
  alloc_ready env pbi invs a ->
  billing_inv (Billing.al_store (Billing.allocate env payload pbi invs a)).
Proof.
  intros Hinj. revert a.
  induction invs as [|invoice rest IH]; intros a (Hinv & Hnd & Hall & Hfresh).
  - exact Hinv.
  - simpl. destruct (Billing.al_remaining a <=? 0) eqn:Hrem; [exact Hinv|].
    inversion Hnd as [|? ? Hhead Hnd']; subst.
    inversion Hall as [|? ? (Hin & Hpend & Hmap) Hall']; subst.
    destruct (inv_amount invoice
              - orElse (map_get Z.eqb (inv_id invoice) pbi) 0 <=? 0) eqn:Hout.
    + apply IH.
      split; [exact Hinv|split; [exact Hnd'|split; [exact Hall'|exact Hfresh]]].
    + apply Z.leb_gt in Hrem, Hout.
      set (outstandingAmount :=
             inv_amount invoice
             - orElse (map_get Z.eqb (inv_id invoice) pbi) 0) in *.
      set (applied := if outstandingAmount >=? Billing.al_remaining a
                      then Billing.al_remaining a else outstandingAmount).
      set (payment := mkPayment _ _ _ _ _ _ _).
      assert (Happl : 0 < applied /\ applied <= outstandingAmount).
      { unfold applied. destruct (Z.geb_spec outstandingAmount
                                             (Billing.al_remaining a)); zlia. }
      assert (Hstep := allocation_step_inv (Billing.al_store a) invoice payment
                (outstandingAmount - applied <=? 0) Hinv Hin Hpend eq_refl
                (proj1 Happl) (Hfresh _ (le_n _))).
      cbv zeta in Hstep.
      assert (Hflip : (outstandingAmount - applied <=? 0) = true <->
                inv_amount invoice
                <= paid (Billing.al_store a) (inv_id invoice)
                   + pay_amount payment).
      { rewrite Z.leb_le. rewrite <- Hmap. subst outstandingAmount. simpl.
        zlia. }
      specialize (Hstep Hflip).
      apply IH. split; [exact Hstep|]. split; [exact Hnd'|]. split.
      * rewrite Forall_forall in Hall' |- *. intros i Hi.
        destruct (Hall' i Hi) as (Hi1 & Hi2 & Hi3).
        assert (Hne : inv_id i <> inv_id invoice).
        { intros E. apply Hhead. rewrite <- E. now apply in_map. }
        split; [|split; [exact Hi2|]].
        -- destruct (outstandingAmount - applied <=? 0); simpl; [|exact Hi1].
           apply In_update_where_other; [exact Hi1|].
           now apply Z.eqb_neq.
        -- rewrite Hi3. symmetry.
           assert (Hp : forall t, payments t
                                  = payments (Billing.al_store a) ++ [payment] ->
                        paid t (inv_id i) = paid (Billing.al_store a) (inv_id i)).
           { intros t Ht. rewrite (paid_insert _ _ _ _ Ht). simpl.
             destruct (Z.eqb_spec (inv_id invoice) (inv_id i)); [congruence|].
             apply Z.add_0_r. }
           destruct (outstandingAmount - applied <=? 0); apply Hp; reflexivity.
      * intros k Hk. simpl in Hk. rewrite length_app in Hk. simpl in Hk.
        assert (Hps : forall t, payments t
                                = payments (Billing.al_store a) ++ [payment] ->
                      ~ In (env_uuid env k) (map pay_id (payments t))).
        { intros t Ht. rewrite Ht, map_app, in_app_iff. simpl.
          intros [H|[H|[]]].
          - revert H. apply Hfresh. lia.
          - apply Hinj in H. lia. }
        simpl. destruct (outstandingAmount - applied <=? 0); apply Hps; reflexivity.
Qed.

Lemma billing_inv_ext s t :
  invoices t = invoices s -> payments t = payments s ->
  billing_inv s -> billing_inv t.
Proof.
  unfold billing_inv, status_ok, paid. intros -> ->. auto.
Qed.

Lemma InvoiceStatus_eqb_eq a b : InvoiceStatus_eqb a b = true <-> a = b.
Proof. destruct a, b; simpl; split; congruence. Qed.

Lemma maybeSingle_filter_In {A} (p : A -> bool) (l : list A) (x : A) :
  maybeSingle (filter p l) = Some x -> In x l /\ p x = true.
Proof.
  unfold maybeSingle. intros H. apply filter_In.
  destruct (filter p l) as [|y r]; simpl in H; [discriminate|].
  injection H as ->. now left.
Qed.

Lemma recordPayment_tables env s payload s' created :
  Billing.recordPayment env s payload = Ok (s', created) ->
  exists a,
    a = Billing.allocate env payload
          (fold_left
             (fun m payment =>
                let current :=
                  orElse (map_get Z.eqb (pay_invoiceId payment) m) 0 in
                map_set Z.eqb (pay_invoiceId payment)
                        (current + pay_amount payment) m)
             (match map inv_id (pending_invoices s (Billing.in_clientId payload)) with
              | [] => []
              | _ => filter (fun p =>
                               mem (pay_invoiceId p)
                                   (map inv_id
                                      (pending_invoices s
                                         (Billing.in_clientId payload))))
                            (payments s)
              end) [])
          (pending_invoices s (Billing.in_clientId payload))
          (Billing.mkAlloc s (Billing.in_amount payload) [] None)
    /\ 0 < Billing.in_amount payload
    /\ created = Billing.al_createdPayments a
    /\ invoices s' = invoices (Billing.al_store a)
    /\ payments s' = payments (Billing.al_store a)
    /\ user_profiles s' = user_profiles (Billing.al_store a)
    /\ work_orders s' = work_orders (Billing.al_store a).
Proof.
  unfold Billing.recordPayment. fold (pending_invoices s (Billing.in_clientId payload)).
  destruct (maybeSingle _) as [client|]; simpl; [|discriminate].
  destruct (Z.leb_spec (Billing.in_amount payload) 0) as [|Hpos]; [discriminate|].
  intros H. injection H as Hs Hc.
  eexists. split; [reflexivity|]. split; [exact Hpos|]. split; [now symmetry|].
  subst s'.
  match goal with
  | |- context [match ?o with Some _ => _ | None => _ end] => destruct o
  end; simpl; auto.
Qed.

Lemma recordPayment_inv env s payload s' created :
  uuid_fresh env s -> billing_inv s ->
  Billing.recordPayment env s payload = Ok (s', created) ->
  billing_inv s'.
Proof.
  intros (Hinj & _ & Hpay & _) Hinv H.
  apply recordPayment_tables in H.
  destruct H as (a & Ha & _ & _ & Hi & Hp & _ & _).
  apply (billing_inv_ext (Billing.al_store a)); [exact Hi|exact Hp|].
  subst a. apply allocate_inv; [exact Hinj|].
  split; [exact Hinv|]. destruct Hinv as (Hnd & _).
  split.
  { unfold pending_invoices. now apply NoDup_map_order_by, NoDup_map_filter. }
  split; [|intros k _; apply Hpay].
  apply Forall_forall. intros i Hi_in. simpl.
  assert (Hmem : In (inv_id i)
                    (map inv_id (pending_invoices s (Billing.in_clientId payload))))
    by now apply in_map.
  unfold pending_invoices in Hi_in. apply order_by_In, filter_In in Hi_in.
  destruct Hi_in as [Hi_in Hcond]. apply andb_true_iff in Hcond.
  destruct Hcond as [_ Hpend]. apply InvoiceStatus_eqb_eq in Hpend.
  split; [exact Hi_in|]. split; [exact Hpend|].
  rewrite paymentsByInvoice_get. simpl. unfold paid.
  destruct (map inv_id (pending_invoices s (Billing.in_clientId payload)))
    as [|k0 ks] eqn:Hids; [contradiction|].
  rewrite filter_filter_mem by now apply mem_In.
  reflexivity.
Qed.

(** *** createInvoiceFromOrder *)


Lemma createAccountEntry_tables now uuid s params :
  let s' := fst (Billing.createAccountEntry now uuid s params) in
  user_profiles s' = user_profiles s /\ work_orders s' = work_orders s
  /\ invoices s' = invoices s /\ payments s' = payments s.
Proof. simpl. auto. Qed.

Lemma createInvoiceFromOrder_tables env s orderId s' invoice :
  Billing.createInvoiceFromOrder env s orderId = Ok (s', invoice) ->
  invoices s' = invoices s ++ [invoice]
  /\ payments s' = payments s
  /\ inv_id invoice = env_uuid env 0
  /\ inv_status invoice = PENDING
  /\ 0 < inv_amount invoice.
Proof.
  unfold Billing.createInvoiceFromOrder.
  destruct (maybeSingle _) as [order|]; simpl; [|discriminate].
  destruct (wo_dentistId order) as [client|]; simpl; [|discriminate].
  destruct (Billing.order_is_finished (wo_status order)); simpl; [|discriminate].
  destruct (maybeSingle _); [discriminate|].
  match goal with
  | |- context [?x <=? 0] => destruct (Z.leb_spec x 0) as [|Hpos]
  end; [discriminate|].
  intros H. injection H as Hs Hi. subst s' invoice. simpl.
  destruct (Billing.price_is_falsy (wo_price order)); simpl; auto.
Qed.

Lemma filter_none {A} (p : A -> bool) (l : list A) :
  (forall x, In x l -> p x = false) -> filter p l = [].
Proof.
  induction l as [|x l IH]; simpl; intros H.
  - reflexivity.
  - rewrite (H x) by auto. apply IH. auto.
Qed.

Lemma createInvoiceFromOrder_inv env s orderId s' invoice :
  uuid_fresh env s -> billing_inv s ->
  Billing.createInvoiceFromOrder env s orderId = Ok (s', invoice) ->
  billing_inv s'.
Proof.
  intros (_ & Hfresh & _) (Hi & Hp & Hpos & Hlink & Hst) H.
  apply createInvoiceFromOrder_tables in H.
  destruct H as (Hinvs & Hpays & Hid & Hpend & Hamt).
  assert (Hnew : ~ In (inv_id invoice) (map inv_id (invoices s)))
    by (rewrite Hid; apply Hfresh).
  unfold billing_inv, status_ok, paid. rewrite Hinvs, Hpays.
  split; [rewrite map_app; simpl; now apply NoDup_snoc|].
  split; [exact Hp|]. split; [exact Hpos|]. split.
  - eapply Forall_impl; [|exact Hlink]. simpl. intros p Hin.
    rewrite map_app. apply in_or_app. now left.
  - intros i Hin. apply in_app_or in Hin. destruct Hin as [Hin|[<-|[]]].
    + now apply Hst.
    + rewrite Hpend, filter_none.
      * unfold sumZ; simpl. split; [discriminate|zlia].
      * intros p Hp_in. apply Z.eqb_neq. intros E. apply Hnew. rewrite <- E.
        rewrite Forall_forall in Hlink. now apply Hlink.
Qed.

(** *** The invoice routes *)

Lemma PATCH_tables s invoiceId amountValue s' :
  InvoiceRoute.PATCH s invoiceId amountValue = Ok s' ->
  exists invoice,
    maybeSingle (filter (fun i => inv_id i =? invoiceId) (invoices s))
    = Some invoice
    /\ 0 < amountValue
    /\ payments s' = payments s
    /\ invoices s'
       = update_where (fun i => inv_id i =? invoiceId)
           (set_inv_status (if paid s invoiceId >=? amountValue
                            then PAID else PENDING))
           (if negb (inv_amount invoice =? amountValue)
            then update_where (fun i => inv_id i =? invoiceId)
                              (set_inv_amount amountValue) (invoices s)
            else invoices s).
Proof.
  unfold InvoiceRoute.PATCH.
  destruct (Z.leb_spec amountValue 0) as [|Hpos]; [discriminate|].
  destruct (maybeSingle _) as [invoice|] eqn:Hfind; simpl; [|discriminate].
  intros H. injection H as <-. exists invoice.
  split; [reflexivity|]. split; [exact Hpos|].
  destruct (negb (inv_amount invoice =? amountValue)); simpl.
  - split.
    + match goal with
      | |- context [match ?o with Some _ => _ | None => _ end] => destruct o
      end; reflexivity.
    + rewrite fold_sum_map.
      match goal with
      | |- context [match ?o with Some _ => _ | None => _ end] => destruct o
      end; reflexivity.
  - split; [reflexivity|]. rewrite fold_sum_map. reflexivity.
Qed.

Lemma PATCH_inv s invoiceId amountValue s' :
  billing_inv s ->
  InvoiceRoute.PATCH s invoiceId amountValue = Ok s' ->
  billing_inv s'.
Proof.
  intros (Hi & Hp & Hpos & Hlink & Hst) H.
  apply PATCH_tables in H.
  destruct H as (invoice & Hfind & Hamt & Hpays & Hinvs).
  apply maybeSingle_filter_In in Hfind. destruct Hfind as [Hin Hid].
  apply Z.eqb_eq in Hid.
  assert (Hids : map inv_id (invoices s') = map inv_id (invoices s)).
  { rewrite Hinvs, map_update_where_key by reflexivity.
    destruct (negb _); [apply map_update_where_key|]; reflexivity. }
  unfold billing_inv, status_ok. rewrite Hids, Hpays.
  split; [exact Hi|]. split; [exact Hp|]. split; [exact Hpos|].
  split; [exact Hlink|].
  intros i Hi_in. rewrite (paid_ext s s') by exact Hpays.
  rewrite Hinvs in Hi_in. apply In_update_where in Hi_in.
  destruct Hi_in as [r [Hr ->]].
  assert (Hr' : exists r0, In r0 (invoices s)
                  /\ r = if negb (inv_amount invoice =? amountValue)
                         then (if inv_id r0 =? invoiceId
                               then set_inv_amount amountValue r0 else r0)
                         else r0).
  { destruct (negb (inv_amount invoice =? amountValue)).
    - now apply In_update_where in Hr.
    - now exists r. }
  destruct Hr' as [r0 [Hr0 ->]].
  assert (Hsame : inv_id (if negb (inv_amount invoice =? amountValue)
                          then (if inv_id r0 =? invoiceId
                                then set_inv_amount amountValue r0 else r0)
                          else r0) = inv_id r0).
  { destruct (negb _); [destruct (inv_id r0 =? invoiceId)|]; reflexivity. }
  destruct (Z.eqb_spec (inv_id r0) invoiceId) as [E|E].
  - assert (r0 = invoice).
    { eapply NoDup_map_In_eq; eauto. congruence. }
    subst r0. clear Hsame Hr.
    destruct (Z.eqb_spec (inv_amount invoice) amountValue) as [Ea|Ea];
      simpl; rewrite ?E, ?Z.eqb_refl; simpl; rewrite ?E;
      destruct (Z.geb_spec (paid s invoiceId) amountValue); simpl;
      (split; intros; first [congruence | zlia]).
  - clear Hsame Hr. apply Z.eqb_neq in E.
    destruct (negb _); rewrite ?E; rewrite ?E; now apply Hst.
Qed.

Lemma deleteInvoice_tables s invoiceId s' :
  InvoiceRoute.DELETE s invoiceId = Ok s' ->
  exists invoice,
    maybeSingle (filter (fun i => inv_id i =? invoiceId) (invoices s))
    = Some invoice
    /\ invoices s' = delete_where (fun i => inv_id i =? invoiceId) (invoices s)
    /\ payments s'
       = delete_where (fun p => pay_invoiceId p =? invoiceId) (payments s)
    /\ account_entries s'
       = account_entries
           (InvoiceRoute.recomputeBalances
              (with_account_entries
                 (delete_where (fun e => ae_invoiceId e =? invoiceId)
                               (account_entries s)) s)
              (inv_clientId invoice)).
Proof.
  unfold InvoiceRoute.DELETE.
  destruct (maybeSingle _) as [invoice|]; simpl; [|discriminate].
  intros H. injection H as <-. exists invoice. auto.
Qed.

Lemma filter_filter_other {A} (key : A -> Id) (k k' : Id) (l : list A) :
  k <> k' ->
  filter (fun x => key x =? k) (filter (fun x => negb (key x =? k')) l)
  = filter (fun x => key x =? k) l.
Proof.
  intros Hne. induction l as [|x l IH]; simpl.
  - reflexivity.
  - destruct (Z.eqb_spec (key x) k') as [E|E]; simpl.
    + destruct (Z.eqb_spec (key x) k); [congruence|exact IH].
    + now rewrite IH.
Qed.

Lemma deleteInvoice_inv s invoiceId s' :
  billing_inv s ->
  InvoiceRoute.DELETE s invoiceId = Ok s' ->
  billing_inv s'.
Proof.
  intros (Hi & Hp & Hpos & Hlink & Hst) H.
  apply deleteInvoice_tables in H.
  destruct H as (invoice & _ & Hinvs & Hpays & _).
  unfold billing_inv, status_ok, paid. rewrite Hinvs, Hpays.
  unfold delete_where.
  split; [now apply NoDup_map_filter|].
  split; [now apply NoDup_map_filter|].
  rewrite Forall_forall in Hpos, Hlink.
  split; [|split].
  - apply Forall_forall. intros p Hin. apply filter_In in Hin. now apply Hpos.
  - apply Forall_forall. intros p Hin. apply filter_In in Hin.
    destruct Hin as [Hin Hne].
    destruct (proj1 (in_map_iff _ _ _) (Hlink p Hin)) as [r [Hr Hr_in]].
    apply in_map_iff. exists r. split; [exact Hr|].
    apply filter_In. split; [exact Hr_in|]. now rewrite Hr.
  - intros i Hin. apply filter_In in Hin. destruct Hin as [Hin Hne].
    apply negb_true_iff, Z.eqb_neq in Hne.
    rewrite filter_filter_other by exact Hne.
    now apply Hst.
Qed.

(** *** The payment route *)

Lemma deletePayment_tables s paymentId s' :
  PaymentRoute.DELETE s paymentId = Ok s' ->
  exists payment invoice,
    maybeSingle (filter (fun p => pay_id p =? paymentId) (payments s))
    = Some payment
    /\ maybeSingle (filter (fun i => inv_id i =? pay_invoiceId payment)
                           (invoices s))
       = Some invoice
    /\ payments s' = delete_where (fun p => pay_id p =? paymentId) (payments s)
    /\ invoices s'
       = if paid s' (inv_id invoice) <? inv_amount invoice
         then update_where (fun i => inv_id i =? inv_id invoice)
                           (set_inv_status PENDING) (invoices s)
         else invoices s.
Proof.
  unfold PaymentRoute.DELETE.
  destruct (maybeSingle (filter (fun p => pay_id p =? paymentId) (payments s)))
    as [payment|]; cbn [bind orThrow]; [|discriminate].
  destruct (maybeSingle (filter (fun i => inv_id i =? pay_invoiceId payment)
                                (invoices s)))
    as [invoice|] eqn:Hfi; cbn [bind orThrow]; [|discriminate].
  cbv zeta. intros H. injection H as <-. exists payment, invoice.
  split; [reflexivity|]. split; [exact Hfi|].
  match goal with
  | |- context [if ?b then with_invoices _ ?t else _] =>
      set (cond := b); set (s3 := t)
  end.
  assert (Hp3 : payments s3
                = delete_where (fun p => pay_id p =? paymentId) (payments s)).
  { subst s3. rewrite recomputeBalances_same. simpl.
    match goal with
    | |- context [match ?o with Some _ => _ | None => _ end] => destruct o
    end; reflexivity. }
  assert (Hi3 : invoices s3 = invoices s).
  { subst s3. rewrite recomputeBalances_same. simpl.
    match goal with
    | |- context [match ?o with Some _ => _ | None => _ end] => destruct o
    end; reflexivity. }
  assert (Hc : cond = (paid s3 (inv_id invoice) <? inv_amount invoice)).
  { subst cond. rewrite fold_sum_map. reflexivity. }
  match goal with
  | |- context [with_invoices ?t s3] => set (tbl := t)
  end.
  assert (Htbl : tbl = update_where (fun i => inv_id i =? inv_id invoice)
                                    (set_inv_status PENDING) (invoices s)).
  { subst tbl.
    match goal with
    | |- context [match ?o with Some _ => _ | None => _ end] => destruct o
    end; reflexivity. }
  clearbody cond tbl s3.
  assert (Hp : payments (if cond then with_invoices tbl s3 else s3)
               = payments s3)
    by (destruct cond; reflexivity).
  split; [now rewrite Hp|].
  rewrite (paid_ext s3 _ (inv_id invoice) Hp), <- Hc.
  destruct cond; simpl; [exact Htbl|exact Hi3].
Qed.

Lemma paid_without (ps : list Payment) (payment : Payment) (k : Id) :
  NoDup (map pay_id ps) -> In payment ps ->
  sumZ (map pay_amount (filter (fun p => pay_invoiceId p =? k) ps))
  = sumZ (map pay_amount
            (filter (fun p => pay_invoiceId p =? k)
                    (delete_where (fun p => pay_id p =? pay_id payment) ps)))
    + (if pay_invoiceId payment =? k then pay_amount payment else 0).
Proof.
  unfold delete_where.
  induction ps as [|q ps IH]; simpl; intros Hnd Hin.
  - contradiction.
  - inversion Hnd as [|? ? Hq Hnd']; subst.
    destruct Hin as [->|Hin].
    + rewrite Z.eqb_refl. simpl.
      rewrite (proj2 (filter_ext_in_iff
                        (fun p => negb (pay_id p =? pay_id payment))
                        (fun _ => true) ps)).
      * rewrite filter_true.
        destruct (pay_invoiceId payment =? k); simpl;
          rewrite ?sumZ_cons; zlia.
      * intros p Hp. apply negb_true_iff, Z.eqb_neq. intros E.
        apply Hq. rewrite <- E. now apply in_map.
    + destruct (Z.eqb_spec (pay_id q) (pay_id payment)) as [E|E].
      * exfalso. apply Hq. rewrite E. now apply in_map.
      * simpl. destruct (pay_invoiceId q =? k); simpl;
          rewrite ?sumZ_cons, (IH Hnd' Hin); zlia.
Qed.

Lemma deletePayment_inv s paymentId s' :
  billing_inv s ->
  PaymentRoute.DELETE s paymentId = Ok s' ->
  billing_inv s'.
Proof.
  intros (Hi & Hp & Hpos & Hlink & Hst) H.
  apply deletePayment_tables in H.
  destruct H as (payment & invoice & Hfp & Hfi & Hpays & Hinvs).
  apply maybeSingle_filter_In in Hfp. destruct Hfp as [Hpin Hpid].
  apply maybeSingle_filter_In in Hfi. destruct Hfi as [Hiin Hiid].
  apply Z.eqb_eq in Hpid, Hiid. subst paymentId.
  assert (Hids : map inv_id (invoices s') = map inv_id (invoices s)).
  { rewrite Hinvs. destruct (_ <? _); [apply map_update_where_key|]; reflexivity. }
  assert (Hpaid : forall k,
            paid s k = paid s' k
                       + (if inv_id invoice =? k then pay_amount payment else 0)).
  { intros k. unfold paid. rewrite Hpays, Hiid. now apply paid_without. }
  assert (Hpp : 0 < pay_amount payment).
  { rewrite Forall_forall in Hpos. now apply Hpos. }
  unfold billing_inv. rewrite Hids.
  split; [exact Hi|]. rewrite Hpays at 1 2 3. unfold delete_where.
  split; [now apply NoDup_map_filter|].
  rewrite Forall_forall in Hpos, Hlink.
  split; [|split].
  - apply Forall_forall. intros p Hin. apply filter_In in Hin. now apply Hpos.
  - apply Forall_forall. intros p Hin. apply filter_In in Hin. now apply Hlink.
  - intros i Hin. specialize (Hpaid (inv_id i)).
    rewrite Hinvs in Hin.
    destruct (Z.ltb_spec (paid s' (inv_id invoice)) (inv_amount invoice))
      as [Hlt|Hge].
    + apply In_update_where in Hin. destruct Hin as [r [Hr ->]].
      destruct (Z.eqb_spec (inv_id r) (inv_id invoice)) as [E|E].
      * assert (r = invoice) by (eapply NoDup_map_In_eq; eauto). subst r.
        simpl. split; [discriminate|zlia].
      * destruct (Z.eqb_spec (inv_id invoice) (inv_id r)); [congruence|].
        rewrite (Hst r Hr). zlia.
    + destruct (Z.eqb_spec (inv_id invoice) (inv_id i)) as [E|E].
      * assert (i = invoice) by (eapply NoDup_map_In_eq; eauto). subst i.
        rewrite (Hst invoice Hiin). zlia.
      * rewrite (Hst i Hin). zlia.
Qed.

Lemma step_inv s s' : step s s' -> billing_inv s -> billing_inv s'.
Proof.
  intros Hstep Hinv. destruct Hstep.
  - eapply createInvoiceFromOrder_inv; eauto.
  - eapply recordPayment_inv; eauto.
  - eapply PATCH_inv; eauto.
  - eapply deleteInvoice_inv; eauto.
  - eapply deletePayment_inv; eauto.
  - eapply billing_inv_ext; [| |exact Hinv]; reflexivity.
Qed.

Lemma reachable_inv s : reachable s -> billing_inv s.
Proof.
  induction 1 as [profiles orders|s s' _ IH Hstep].
  - repeat split; simpl; try constructor; try contradiction.
  - eapply step_inv; eauto.
Qed.


Lemma uuid_fresh_store0 : uuid_fresh (env_at 100000 100) store0.
Proof.
  split; [uuid_injective|].
  change (invoices store0) with (@nil Invoice).
  change (payments store0) with (@nil Payment).
  change (account_entries store0) with (@nil AccountEntry).
  repeat split; fresh_uuid.
Defined.

Lemma uuid_fresh_store1 : uuid_fresh (env_at 200000 200) store1.
Proof.
  split; [uuid_injective|].
  change (map inv_id (invoices store1)) with [100].
  change (map pay_id (payments store1)) with (@nil Id).
  change (map ae_id (account_entries store1)) with [101].
  repeat split; fresh_uuid.
Defined.

Lemma reachable_store2 : reachable store2.
Proof.
  eapply reach_step.
  - eapply reach_step.
    + apply (reach_init (user_profiles store0) (work_orders store0)).
    + eapply (step_createInvoice (env_at 100000 100) store0 10 store1).
      * exact uuid_fresh_store0.
      * reflexivity.
  - eapply (step_recordPayment (env_at 200000 200) store1
              (Billing.mkPaymentInput 1 2750 None None) store2).
    + exact uuid_fresh_store1.
    + reflexivity.
Defined.


(** ** recordPayment: the allocation *)

Lemma allocation_plan_ext f g invs remaining :
  (forall i, In i invs -> f i = g i) ->
  allocation_plan f invs remaining = allocation_plan g invs remaining.
Proof.
  revert remaining. induction invs as [|i invs IH]; intros remaining H; simpl.
  - reflexivity.
  - rewrite (H i) by now left.
    destruct (remaining <=? 0); [reflexivity|].
    destruct (g i <=? 0).
    + apply IH. intros; apply H; now right.
    + f_equal. apply IH. intros; apply H; now right.
Qed.

Lemma payments_of_app env payload k l1 l2 :
  payments_of env payload k (l1 ++ l2)
  = payments_of env payload k l1
    ++ payments_of env payload (k + List.length l1) l2.
Proof.
  revert k. induction l1 as [|a l1 IH]; intros k; simpl.
  - now rewrite Nat.add_0_r.
  - rewrite IH. now rewrite Nat.add_succ_r.
Qed.

Lemma payments_of_length env payload k plan :
  List.length (payments_of env payload k plan) = List.length plan.
Proof.
  revert k. induction plan as [|a plan IH]; intros k; simpl; auto.
Qed.

Lemma leb_sub_0 (a b : Z) : (a - b <=? 0) = (a <=? b).
Proof. destruct (Z.leb_spec (a - b) 0), (Z.leb_spec a b); try reflexivity; lia. Qed.

Lemma applied_is_min (o remaining : Z) :
  (if o >=? remaining then remaining else o) = Z.min o remaining.
Proof. destruct (Z.geb_spec o remaining); lia. Qed.

(** One turn of the loop, with the allocated amount written as a minimum. *)
Lemma allocate_cons env payload pbi invoice rest a :
  Billing.allocate env payload pbi (invoice :: rest) a
  = if Billing.al_remaining a <=? 0 then a
    else
      let o := inv_amount invoice
               - orElse (map_get Z.eqb (inv_id invoice) pbi) 0 in
      if o <=? 0 then Billing.allocate env payload pbi rest a
      else
        let give := Z.min o (Billing.al_remaining a) in
        let payment :=
          payment_of env payload (List.length (Billing.al_createdPayments a))
                     (mkAllocation (inv_id invoice) give (o <=? give)) in
        Billing.allocate env payload pbi rest
          (Billing.mkAlloc
             (mkStore (user_profiles (Billing.al_store a))
                      (work_orders (Billing.al_store a))
                      (settle (invoices (Billing.al_store a))
                              (mkAllocation (inv_id invoice) give (o <=? give)))
                      (payments (Billing.al_store a) ++ [payment])
                      (account_entries (Billing.al_store a)))
             (Billing.al_remaining a - give)
             (Billing.al_createdPayments a ++ [payment])
             (match Billing.al_firstInvoiceId a with
              | None => Some (inv_id invoice)
              | Some f => Some f
              end)).
Proof.
  cbn [Billing.allocate]. cbv zeta.
  destruct (Billing.al_remaining a <=? 0); [reflexivity|].
  destruct (_ <=? 0); [reflexivity|].
  rewrite leb_sub_0, applied_is_min. unfold settle, payment_of. simpl.
  destruct (_ <=? _); reflexivity.
Qed.

(** The loop of [recordPayment] carries out the allocation plan. *)
Lemma allocate_plan env payload pbi invs a :
  let plan :=
    allocation_plan
      (fun i => inv_amount i - orElse (map_get Z.eqb (inv_id i) pbi) 0)
      invs (Billing.al_remaining a) in
  let new :=
    payments_of env payload (List.length (Billing.al_createdPayments a)) plan in
  let r := Billing.allocate env payload pbi invs a in
  Billing.al_createdPayments r = Billing.al_createdPayments a ++ new
  /\ payments (Billing.al_store r) = payments (Billing.al_store a) ++ new
  /\ invoices (Billing.al_store r)
     = fold_left settle plan (invoices (Billing.al_store a))
  /\ Billing.al_firstInvoiceId r
     = match Billing.al_firstInvoiceId a with
       | Some f => Some f
       | None => option_map alloc_invoice (hd_error plan)
       end
  /\ user_profiles (Billing.al_store r) = user_profiles (Billing.al_store a)
  /\ work_orders (Billing.al_store r) = work_orders (Billing.al_store a)
  /\ account_entries (Billing.al_store r)
     = account_entries (Billing.al_store a).
Proof.
  cbv zeta. revert a. induction invs as [|invoice rest IH]; intros a.
  - simpl. rewrite !app_nil_r. destruct (Billing.al_firstInvoiceId a); auto 10.
  - rewrite allocate_cons. cbn [allocation_plan]. cbv zeta.
    destruct (Billing.al_remaining a <=? 0).
    { simpl. rewrite !app_nil_r.
      destruct (Billing.al_firstInvoiceId a); auto 10. }
    destruct (_ <=? 0); [apply IH|].
    match goal with
    | |- context [Billing.allocate env payload pbi rest ?a'] =>
        specialize (IH a')
    end.
    cbn [Billing.al_store Billing.al_remaining Billing.al_createdPayments
         Billing.al_firstInvoiceId user_profiles work_orders invoices
         payments account_entries] in IH.
    destruct IH as (H1 & H2 & H3 & H4 & H5 & H6 & H7).
    rewrite length_app, Nat.add_1_r in H1, H2.
    rewrite H1, H2, H3, H4, H5, H6, H7, <- !app_assoc.
    cbn [payments_of fold_left hd_error option_map alloc_invoice app].
    repeat split; destruct (Billing.al_firstInvoiceId a); reflexivity.
Qed.

Lemma pending_paid_lookup s clientId i :
  In i (pending_invoices s clientId) ->
  inv_amount i
  - orElse
      (map_get Z.eqb (inv_id i)
         (fold_left
            (fun m payment =>
               let current :=
                 orElse (map_get Z.eqb (pay_invoiceId payment) m) 0 in
               map_set Z.eqb (pay_invoiceId payment)
                       (current + pay_amount payment) m)
            (match map inv_id (pending_invoices s clientId) with
             | [] => []
             | _ => filter (fun p =>
                              mem (pay_invoiceId p)
                                  (map inv_id (pending_invoices s clientId)))
                           (payments s)
             end) [])) 0
  = outstanding s i.
Proof.
  intros Hin. unfold outstanding, paid. f_equal.
  rewrite paymentsByInvoice_get. simpl.
  assert (Hmem : In (inv_id i) (map inv_id (pending_invoices s clientId)))
    by now apply in_map.
  destruct (map inv_id (pending_invoices s clientId)) as [|k0 ks];
    [contradiction|].
  rewrite filter_filter_mem by now apply mem_In.
  reflexivity.
Qed.

(** What a successful [recordPayment] does to every table. *)
Lemma recordPayment_effect env s payload :
  In (Billing.in_clientId payload) (map up_id (user_profiles s)) ->
  0 < Billing.in_amount payload ->
  let clientId := Billing.in_clientId payload in
  let plan :=
    allocation_plan (outstanding s) (pending_invoices s clientId)
                    (Billing.in_amount payload) in
  let created := payments_of env payload 0 plan in
  let target :=
    match created with
    | p :: _ => Some (pay_invoiceId p)
    | [] => option_map inv_id (most_recent_invoice s clientId)
    end in
  Billing.recordPayment env s payload
  = Ok (mkStore (user_profiles s) (work_orders s)
                (fold_left settle plan (invoices s))
                (payments s ++ created)
                (account_entries s
                 ++ match target with
                    | Some f =>
                        [credit_entry env s payload
                           (env_uuid env (List.length created)) f]
                    | None => []
                    end),
        created).
Proof.
  intros Hclient Hpos clientId plan created target.
  unfold Billing.recordPayment.
  fold clientId. fold (pending_invoices s clientId).
  destruct (maybeSingle (filter (fun u => up_id u =? clientId)
                                (user_profiles s))) as [client|] eqn:Hc.
  2:{ exfalso. apply in_map_iff in Hclient.
      destruct Hclient as [u [Hu Hin]].
      assert (Hf : In u (filter (fun u => up_id u =? clientId) (user_profiles s))).
      { apply filter_In. split; [exact Hin|]. now apply Z.eqb_eq. }
      unfold maybeSingle in Hc.
      destruct (filter _ (user_profiles s)); [contradiction|discriminate]. }
  cbn [bind orThrow].
  destruct (Z.leb_spec (Billing.in_amount payload) 0) as [|_]; [zlia|].
  cbv zeta.
  match goal with
  | |- context [Billing.allocate env payload ?pbi ?invs ?a] =>
      pose proof (allocate_plan env payload pbi invs a) as Hplan;
      set (r := Billing.allocate env payload pbi invs a) in *
  end.
  cbv zeta in Hplan. simpl in Hplan.
  rewrite (allocation_plan_ext _ (outstanding s)) in Hplan
    by (intros i Hi; now apply pending_paid_lookup).
  fold plan in Hplan. fold created in Hplan.
  destruct Hplan as (H1 & H2 & H3 & H4 & H5 & H6 & H7).
  rewrite H1, H4.
  assert (Htarget :
    match option_map alloc_invoice (hd_error plan) with
    | Some f => Some f
    | None =>
        option_map inv_id
          (maybeSingle
             (order_by (desc inv_createdAt)
                (filter (fun i => inv_clientId i =? clientId)
                        (invoices (Billing.al_store r)))))
    end = target).
  { subst target created. destruct plan as [|a plan']; simpl.
    - simpl in H3. rewrite H3. reflexivity.
    - reflexivity. }
  rewrite Htarget.
  f_equal. f_equal.
  destruct target as [f|]; simpl.
  - unfold with_account_entries, credit_entry, Billing.getLatestBalance.
    rewrite H2, H3, H5, H6, H7. reflexivity.
  - rewrite app_nil_r. destruct (Billing.al_store r). simpl in *.
    now rewrite H2, H3, H5, H6, H7.
Qed.

Lemma insert_by_sorted {A} (key : A -> Z) (x : A) (l : list A) :
  StronglySorted (fun a b => key a <= key b) l ->
  StronglySorted (fun a b => key a <= key b) (insert_by (asc key) x l).
Proof.
  induction l as [|y l IH]; simpl; intros Hs.
  - constructor; constructor.
  - inversion Hs as [|? ? Hs' Hall]; subst.
    unfold asc at 1. destruct (Z.leb_spec (key x) (key y)) as [Hle|Hgt].
    + constructor; [exact Hs|]. constructor; [exact Hle|].
      eapply Forall_impl; [|exact Hall]. simpl. intros; lia.
    + constructor; [now apply IH|].
      apply Forall_forall. intros z Hz.
      apply (Permutation_in _ (insert_by_perm (asc key) x l)) in Hz.
      destruct Hz as [<-|Hz]; [lia|].
      rewrite Forall_forall in Hall. now apply Hall.
Qed.

Lemma order_by_asc_sorted {A} (key : A -> Z) (l : list A) :
  StronglySorted (fun a b => key a <= key b) (order_by (asc key) l).
Proof.
  induction l as [|x l IH]; simpl.
  - constructor.
  - now apply insert_by_sorted.
Qed.

Lemma pending_invoices_In s clientId i :
  In i (pending_invoices s clientId)
  <-> In i (invoices s) /\ inv_clientId i = clientId /\ inv_status i = PENDING.
Proof.
  unfold pending_invoices.
  rewrite order_by_In, filter_In, andb_true_iff, Z.eqb_eq, InvoiceStatus_eqb_eq.
  tauto.
Qed.



(** C3.  For an existing client and a positive amount, [recordPayment]
    appends at most one ledger row: a credit of the full input amount
    (debit 0), attributed to the invoice of the first payment row created or,
    when no row was created, to the client's most recent invoice; it appends
    no row exactly when the client has no invoice at all. *)
Theorem recordPayment_single_credit (env : Env) (s : Store)
    (payload : Billing.PaymentInput) :
  In (Billing.in_clientId payload) (map up_id (user_profiles s)) ->
  0 < Billing.in_amount payload ->
  let clientId := Billing.in_clientId payload in
  exists s' created,
    Billing.recordPayment env s payload = Ok (s', created)
    /\ let target :=
         match created with
         | p :: _ => Some (pay_invoiceId p)
         | [] => option_map inv_id (most_recent_invoice s clientId)
         end in
       match target with
       | Some f =>
           exists e,
             account_entries s' = account_entries s ++ [e]
             /\ ae_clientId e = clientId /\ ae_invoiceId e = f
             /\ ae_debit e = 0 /\ ae_credit e = Billing.in_amount payload
             /\ ae_balanceAfter e
                = Billing.getLatestBalance s clientId
                  - Billing.in_amount payload
       | None =>
           account_entries s' = account_entries s
           /\ forall i, In i (invoices s) -> inv_clientId i <> clientId
       end
       /\ ((forall i, In i (invoices s) -> inv_clientId i <> clientId) ->
           target = None).
Proof.
  intros Hclient Hpos clientId.
  eexists. eexists. split; [apply recordPayment_effect; assumption|].
  cbv zeta. fold clientId.
  set (created := payments_of env payload 0 _).
  set (target := match created with
                 | p :: _ => Some (pay_invoiceId p)
                 | [] => option_map inv_id (most_recent_invoice s clientId)
                 end).
  split.
  - destruct target as [f|] eqn:Ht.
    + eexists. split; [simpl; reflexivity|]. simpl. repeat split.
      unfold clientId. zlia.
    + simpl. split; [apply app_nil_r|].
      intros i Hin Hc. subst target.
      destruct created; [|discriminate].
      unfold most_recent_invoice, maybeSingle in Ht.
      destruct (order_by _ _) as [|x l] eqn:Ho; [|discriminate].
      apply order_by_nil_iff in Ho.
      assert (Hf : In i (filter (fun i => inv_clientId i =? clientId)
                                (invoices s))).
      { apply filter_In. split; [exact Hin|]. now apply Z.eqb_eq. }
      rewrite Ho in Hf. contradiction.
  - intros Hnone. subst target created.
    assert (Hp : pending_invoices s clientId = []).
    { unfold pending_invoices. apply order_by_nil_iff, filter_none.
      intros i Hin. apply andb_false_iff. left.
      apply Z.eqb_neq. now apply Hnone. }
    rewrite Hp. simpl.
    unfold most_recent_invoice. rewrite filter_none; [reflexivity|].
    intros i Hin. apply Z.eqb_neq. now apply Hnone.
Qed.

Lemma recordPayment_single_credit_witness :
  exists s' created,
    Billing.recordPayment (env_at 3000 300) storeAB
      (Billing.mkPaymentInput 1 120 None None) = Ok (s', created)
    /\ exists e,
         account_entries s' = account_entries storeAB ++ [e]
         /\ ae_invoiceId e = 110 /\ ae_credit e = 120.
Proof.
  assert (Hclient : In 1 (map up_id (user_profiles storeAB)))
    by (left; reflexivity).
  assert (Hpos : 0 < 120) by lia.
  destruct (recordPayment_single_credit (env_at 3000 300) storeAB
              (Billing.mkPaymentInput 1 120 None None) Hclient Hpos)
    as (s' & created & Hrun & Hentry & _).
  exists s', created. split; [exact Hrun|].
  assert (Hc : created
               = [mkPayment 300 110 "MANUAL" EmptyString 100 COMPLETED 3000;
                  mkPayment 301 120 "MANUAL" EmptyString 20 COMPLETED 3000]).
  { assert (Hrun' : Billing.recordPayment (env_at 3000 300) storeAB
                      (Billing.mkPaymentInput 1 120 None None)
                    = Ok (storeAB_paid,
                          [mkPayment 300 110 "MANUAL" EmptyString 100 COMPLETED 3000;
                           mkPayment 301 120 "MANUAL" EmptyString 20 COMPLETED 3000]))
      by reflexivity.
    rewrite Hrun in Hrun'. now injection Hrun'. }
  rewrite Hc in Hentry. cbv zeta in Hentry. simpl in Hentry.
  destruct Hentry as (e & He & _ & Hf & _ & Hcr & _).
  exists e. auto.
Defined.

(** ** createInvoiceFromOrder *)

(** The uppercased map built at module load holds the price table. *)
Lemma priceForWorkType_table (workType : option WorkType) :
  Billing.priceForWorkType workType = orElse (table_price workType) 0.
Proof. destruct workType as [[]|]; reflexivity. Qed.

Lemma finalAmount_resolved (order : WorkOrder) :
  (if Billing.priceForWorkType (wo_workType order) >? 0
   then Billing.priceForWorkType (wo_workType order)
   else orElse (wo_price order) 0)
  = resolved_amount order.
Proof.
  unfold resolved_amount. rewrite priceForWorkType_table.
  destruct (table_price (wo_workType order)) as [v|]; simpl.
  - destruct (Z.gtb_spec v 0), (Z.ltb_spec 0 v); try reflexivity; lia.
  - reflexivity.
Qed.

(** C5.  For an order that is DONE or DELIVERED, has a billing party and no
    invoice yet, [createInvoiceFromOrder] resolves the amount as the price
    table value when present and positive and otherwise the price stamped on
    the order; it fails with AmountUndetermined when that amount is not
    positive; otherwise it inserts the invoice as PENDING, stamps the amount
    on the order when its price was empty (null or 0), and appends one
    ledger debit of the invoice amount on top of the client's latest
    balance.  Scenario 1: table price 2750, no stamped price, empty ledger:
    amount 2750, one debit of 2750, balance 2750. *)
Theorem createInvoice_resolves_amount (env : Env) (s : Store) (orderId : Id)
    (order : WorkOrder) (clientId : Id) :
  maybeSingle (filter (fun o => wo_id o =? orderId) (work_orders s))
  = Some order ->
  wo_dentistId order = Some clientId ->
  wo_status order = DONE \/ wo_status order = DELIVERED ->
  (forall i, In i (invoices s) -> inv_workOrderId i <> Some (wo_id order)) ->
  let amount := resolved_amount order in
  (amount <= 0 ->
   Billing.createInvoiceFromOrder env s orderId = Err AmountUndetermined)
  /\ (0 < amount ->
      let invoice :=
        mkInvoice (env_uuid env 0) clientId (Some (wo_id order)) amount "ARS"
                  (env_now env) PENDING (env_now env) in
      Billing.createInvoiceFromOrder env s orderId
      = Ok (mkStore
              (user_profiles s)
              (match wo_price order with
               | Some 0 | None =>
                   update_where (fun o => wo_id o =? wo_id order)
                                (set_wo_price amount) (work_orders s)
               | Some _ => work_orders s
               end)
              (invoices s ++ [invoice])
              (payments s)
              (account_entries s
               ++ [mkAccountEntry (env_uuid env 1) clientId (env_uuid env 0)
                     amount 0
                     (Billing.getLatestBalance s clientId + amount)
                     (env_now env)]),
            invoice))
  /\ table_price (Some PROTESIS) = Some 2750
  /\ Billing.createInvoiceFromOrder (env_at 100000 100) store0 10
     = Ok (store1,
           mkInvoice 100 1 (Some 10) 2750 "ARS" 100000 PENDING 100000)
  /\ account_entries store0 = []
  /\ account_entries store1 = [mkAccountEntry 101 1 100 2750 0 2750 100000].
Proof.
  intros Hfind Hclient Hstatus Hnone amount.
  assert (Hrun : Billing.createInvoiceFromOrder env s orderId
    = if amount <=? 0 then Err AmountUndetermined else
      let invoice :=
        mkInvoice (env_uuid env 0) clientId (Some (wo_id order)) amount "ARS"
                  (env_now env) PENDING (env_now env) in
      Ok (mkStore
            (user_profiles s)
            (if Billing.price_is_falsy (wo_price order)
             then update_where (fun o => wo_id o =? wo_id order)
                               (set_wo_price amount) (work_orders s)
             else work_orders s)
            (invoices s ++ [invoice])
            (payments s)
            (account_entries s
             ++ [mkAccountEntry (env_uuid env 1) clientId (env_uuid env 0)
                   amount 0
                   (Billing.getLatestBalance s clientId + amount - 0)
                   (env_now env)]),
          invoice)).
  { unfold Billing.createInvoiceFromOrder.
    rewrite Hfind. cbn [bind orThrow]. rewrite Hclient. cbn [bind orThrow].
    assert (Hfin : Billing.order_is_finished (wo_status order) = true)
      by (destruct Hstatus as [-> | ->]; reflexivity).
    rewrite Hfin. cbn [negb].
    rewrite filter_none.
    2:{ intros i Hin. specialize (Hnone i Hin).
        destruct (inv_workOrderId i) as [w|]; [|reflexivity].
        apply Z.eqb_neq. congruence. }
    cbn [maybeSingle hd_error]. cbv zeta.
    rewrite finalAmount_resolved. fold amount.
    destruct (amount <=? 0); [reflexivity|].
    destruct (Billing.price_is_falsy (wo_price order)); reflexivity. }
  split; [|split].
  - intros Hle. rewrite Hrun.
    destruct (Z.leb_spec amount 0); [reflexivity|lia].
  - intros Hpos. rewrite Hrun.
    destruct (Z.leb_spec amount 0); [lia|]. cbv zeta.
    rewrite Z.sub_0_r.
    destruct (wo_price order) as [[|p|p]|]; reflexivity.
  - repeat split; reflexivity.
Qed.

Lemma createInvoice_resolves_amount_witness :
  exists s',
    Billing.createInvoiceFromOrder (env_at 1000 110) store0 11
    = Ok (s', mkInvoice 110 1 (Some 11) 100 "ARS" 1000 PENDING 1000).
Proof.
  assert (Hfind : maybeSingle (filter (fun o => wo_id o =? 11)
                                      (work_orders store0))
                  = Some (mkWorkOrder 11 (Some 1) DONE None (Some 100)
                                      (Some "OT-11") None))
    by reflexivity.
  assert (Hnone : forall i, In i (invoices store0) ->
                    inv_workOrderId i <> Some 11)
    by (intros i Hin; destruct Hin).
  destruct (createInvoice_resolves_amount (env_at 1000 110) store0 11 _ 1
              Hfind eq_refl (or_introl eq_refl) Hnone)
    as (_ & Hok & _).
  eexists. apply Hok. reflexivity.
Defined.

(** ** deletePayment *)

Lemma earliest_spec (l : list AccountEntry) :
  match earliest l with
  | Some e => In e l /\ forall e', In e' l -> ae_createdAt e <= ae_createdAt e'
  | None => l = []
  end.
Proof.
  unfold earliest, maybeSingle.
  pose proof (order_by_asc_sorted ae_createdAt l) as Hs.
  pose proof (order_by_In (asc ae_createdAt) l) as Hin.
  destruct (order_by (asc ae_createdAt) l) as [|e r] eqn:Ho; simpl.
  - now apply order_by_nil_iff in Ho.
  - split; [apply Hin; now left|].
    intros e' He'. apply Hin in He'.
    inversion Hs as [|? ? _ Hall]; subst.
    destruct He' as [<-|He']; [lia|].
    rewrite Forall_forall in Hall. now apply Hall.
Qed.

Lemma recompute_entries_only s t c :
  account_entries t = account_entries s ->
  account_entries (InvoiceRoute.recomputeBalances t c)
  = account_entries (InvoiceRoute.recomputeBalances s c).
Proof.
  intros H. rewrite !recomputeBalances_char. simpl.
  unfold client_ledger. now rewrite H.
Qed.

Lemma deletePayment_effect s paymentId payment invoice :
  maybeSingle (filter (fun p => pay_id p =? paymentId) (payments s))
  = Some payment ->
  maybeSingle (filter (fun i => inv_id i =? pay_invoiceId payment) (invoices s))
  = Some invoice ->
  exists s',
    PaymentRoute.DELETE s paymentId = Ok s'
    /\ user_profiles s' = user_profiles s
    /\ work_orders s' = work_orders s
    /\ payments s' = delete_where (fun p => pay_id p =? paymentId) (payments s)
    /\ account_entries s' = ledger_without_credit s invoice payment
    /\ invoices s'
       = if paid s' (inv_id invoice) <? inv_amount invoice
         then update_where (fun i => inv_id i =? inv_id invoice)
                           (set_inv_status PENDING) (invoices s)
         else invoices s.
Proof.
  intros Hfp Hfi.
  assert (Hid : inv_id invoice = pay_invoiceId payment).
  { apply maybeSingle_filter_In in Hfi. now apply Z.eqb_eq. }
  unfold PaymentRoute.DELETE. rewrite Hfp. cbn [bind orThrow].
  rewrite Hfi. cbn [bind orThrow]. cbv zeta.
  eexists. split; [reflexivity|].
  assert (Hfound :
    maybeSingle
      (order_by (asc ae_createdAt)
         (filter (fun e => (ae_clientId e =? inv_clientId invoice)
                           && (ae_invoiceId e =? inv_id invoice)
                           && (ae_credit e =? pay_amount payment)
                           && (pay_createdAt payment - 5000 <=? ae_createdAt e)
                           && (ae_createdAt e <=? pay_createdAt payment + 5000))
                 (account_entries s)))
    = credit_entry_of s invoice payment).
  { unfold credit_entry_of, earliest. f_equal. f_equal.
    apply filter_ext. intros e. unfold credit_entry_matches, in_window.
    now rewrite !andb_assoc. }
  rewrite Hfound. clear Hfound.
  match goal with
  | |- context [if _ then with_invoices _ ?s3' else _] => set (s3 := s3')
  end.
  match goal with
  | |- context [if _ then with_invoices ?t s3 else _] => set (tbl := t)
  end.
  match goal with
  | |- context [if ?b then with_invoices tbl s3 else _] => set (cond := b)
  end.
  assert (Hu3 : user_profiles s3 = user_profiles s
                /\ work_orders s3 = work_orders s
                /\ invoices s3 = invoices s
                /\ payments s3
                   = delete_where (fun p => pay_id p =? paymentId) (payments s)).
  { subst s3. rewrite recomputeBalances_same. simpl.
    destruct (credit_entry_of s invoice payment); auto. }
  destruct Hu3 as (Hu & Hw & Hi3 & Hp3).
  assert (He3 : account_entries s3 = ledger_without_credit s invoice payment).
  { subst s3. unfold ledger_without_credit.
    rewrite !recomputeBalances_same. apply recompute_entries_only.
    destruct (credit_entry_of s invoice payment); reflexivity. }
  assert (Hc : cond = (paid s3 (inv_id invoice) <? inv_amount invoice)).
  { subst cond. rewrite fold_sum_map. reflexivity. }
  assert (Htbl : tbl = update_where (fun i => inv_id i =? inv_id invoice)
                                    (set_inv_status PENDING) (invoices s)).
  { subst tbl. destruct (credit_entry_of s invoice payment); reflexivity. }
  clearbody cond tbl s3.
  assert (Hp : payments (if cond then with_invoices tbl s3 else s3)
               = payments s3)
    by (destruct cond; reflexivity).
  rewrite (paid_ext s3 _ (inv_id invoice) Hp), <- Hc.
  destruct cond; simpl; auto 10.
Qed.



(** ** editInvoiceAmount *)

Lemma PATCH_debit_entry s t invoice :
  account_entries t = account_entries s ->
  match
    maybeSingle
      (order_by (asc ae_createdAt)
         (filter (fun e => (ae_clientId e =? inv_clientId invoice)
                           && (ae_invoiceId e =? inv_id invoice)
                           && (ae_debit e =? inv_amount invoice)
                           && (inv_createdAt invoice - 5000 <=? ae_createdAt e)
                           && (ae_createdAt e <=? inv_createdAt invoice + 5000))
                 (account_entries t)))
  with
  | Some e => Some e
  | None =>
      maybeSingle
        (order_by (asc ae_createdAt)
           (filter (fun e => (ae_clientId e =? inv_clientId invoice)
                             && (ae_invoiceId e =? inv_id invoice)
                             && (ae_debit e >? 0))
                   (account_entries t)))
  end = debit_entry_of s invoice.
Proof.
  intros ->. unfold debit_entry_of, earliest.
  rewrite (filter_ext _ (debit_entry_matches invoice)).
  2:{ intros e. unfold debit_entry_matches, in_window.
      now rewrite !andb_assoc. }
  rewrite (filter_ext (fun e => _ && (ae_debit e >? 0))
                      (debit_entry_fallback invoice)).
  2:{ intros e. unfold debit_entry_fallback. now rewrite Z.gtb_ltb. }
  reflexivity.
Qed.

Lemma PATCH_effect s invoiceId amountValue invoice :
  0 < amountValue ->
  maybeSingle (filter (fun i => inv_id i =? invoiceId) (invoices s))
  = Some invoice ->
  let status := if paid s invoiceId >=? amountValue then PAID else PENDING in
  exists s',
    InvoiceRoute.PATCH s invoiceId amountValue = Ok s'
    /\ user_profiles s' = user_profiles s
    /\ work_orders s' = work_orders s
    /\ payments s' = payments s
    /\ invoices s'
       = update_where (fun i => inv_id i =? invoiceId) (set_inv_status status)
           (if inv_amount invoice =? amountValue
            then invoices s
            else update_where (fun i => inv_id i =? invoiceId)
                              (set_inv_amount amountValue) (invoices s))
    /\ account_entries s'
       = if inv_amount invoice =? amountValue
         then account_entries s
         else edited_ledger s invoice amountValue.
Proof.
  intros Hpos Hfind status.
  unfold InvoiceRoute.PATCH.
  destruct (Z.leb_spec amountValue 0) as [|_]; [lia|].
  rewrite Hfind. cbn [bind orThrow]. cbv zeta.
  eexists. split; [reflexivity|].
  destruct (inv_amount invoice =? amountValue) eqn:Hsame; cbn [negb].
  - rewrite fold_sum_map. simpl. auto 10.
  - rewrite PATCH_debit_entry with (s := s) by reflexivity.
    rewrite fold_sum_map.
    unfold edited_ledger. simpl.
    repeat split; destruct (debit_entry_of s invoice); reflexivity.
Qed.




(** ** The running-balance chain *)

Lemma ledger_ok_entries_only s t c :
  account_entries t = account_entries s -> ledger_ok t c = ledger_ok s c.
Proof. unfold ledger_ok, client_ledger. now intros ->. Qed.

(** The repair paths (amount edit that changes the amount, invoice deletion,
    payment deletion) end with a recomputation and leave the chain of the
    client consistent. *)
Lemma repair_paths_restore_chain (s : Store) :
  NoDup (map ae_id (account_entries s)) ->
  (forall invoiceId amount invoice s',
     0 < amount ->
     maybeSingle (filter (fun i => inv_id i =? invoiceId) (invoices s))
     = Some invoice ->
     inv_amount invoice <> amount ->
     InvoiceRoute.PATCH s invoiceId amount = Ok s' ->
     ledger_ok s' (inv_clientId invoice) = true)
  /\ (forall invoiceId invoice s',
        maybeSingle (filter (fun i => inv_id i =? invoiceId) (invoices s))
        = Some invoice ->
        InvoiceRoute.DELETE s invoiceId = Ok s' ->
        ledger_ok s' (inv_clientId invoice) = true)
  /\ (forall paymentId payment invoice s',
        maybeSingle (filter (fun p => pay_id p =? paymentId) (payments s))
        = Some payment ->
        maybeSingle (filter (fun i => inv_id i =? pay_invoiceId payment)
                            (invoices s))
        = Some invoice ->
        PaymentRoute.DELETE s paymentId = Ok s' ->
        ledger_ok s' (inv_clientId invoice) = true).
Proof.
  intros Hnd. split; [|split].
  - intros invoiceId amount invoice s' Hpos Hfind Hne Hrun.
    destruct (PATCH_effect s invoiceId amount invoice Hpos Hfind)
      as (s'' & Hrun' & _ & _ & _ & _ & He).
    rewrite Hrun in Hrun'. injection Hrun' as <-.
    apply Z.eqb_neq in Hne. rewrite Hne in He.
    unfold edited_ledger in He.
    rewrite (ledger_ok_entries_only _ _ _ He).
    apply recompute_ledger_ok. simpl.
    destruct (debit_entry_of s invoice); [|exact Hnd].
    rewrite map_update_where_key by reflexivity. exact Hnd.
  - intros invoiceId invoice s' Hfind Hrun.
    destruct (deleteInvoice_tables s invoiceId s' Hrun)
      as (invoice' & Hfind' & _ & _ & He).
    rewrite Hfind in Hfind'. injection Hfind' as <-.
    rewrite (ledger_ok_entries_only _ _ _ He).
    apply recompute_ledger_ok. simpl.
    unfold delete_where. now apply NoDup_map_filter.
  - intros paymentId payment invoice s' Hfp Hfi Hrun.
    destruct (deletePayment_effect s paymentId payment invoice Hfp Hfi)
      as (s'' & Hrun' & _ & _ & _ & He & _).
    rewrite Hrun in Hrun'. injection Hrun' as <-.
    unfold ledger_without_credit in He. rewrite recomputeBalances_same in He.
    rewrite (ledger_ok_entries_only _ _ _ He).
    apply recompute_ledger_ok. simpl.
    destruct (credit_entry_of s invoice payment); [|exact Hnd].
    unfold delete_where. now apply NoDup_map_filter.
Qed.

(** *** Appending in chronological order *)

Section SortedGeneral.
Context {A : Type} (leb : A -> A -> bool).
Hypothesis leb_total : forall a b, leb a b = false -> leb b a = true.
Hypothesis leb_trans :
  forall a b c, leb a b = true -> leb b c = true -> leb a c = true.

Lemma insert_by_sorted_gen (x : A) (l : list A) :
  StronglySorted (fun a b => leb a b = true) l ->
  StronglySorted (fun a b => leb a b = true) (insert_by leb x l).
Proof.
  induction l as [|y l IH]; simpl; intros Hs.
  - constructor; constructor.
  - inversion Hs as [|? ? Hs' Hall]; subst.
    destruct (leb x y) eqn:Hxy.
    + constructor; [exact Hs|]. constructor; [exact Hxy|].
      eapply Forall_impl; [|exact Hall]. simpl. intros z Hz.
      now apply leb_trans with y.
    + constructor; [now apply IH|].
      apply Forall_forall. intros z Hz.
      apply (Permutation_in _ (insert_by_perm leb x l)) in Hz.
      destruct Hz as [<-|Hz]; [now apply leb_total|].
      rewrite Forall_forall in Hall. now apply Hall.
Qed.

Lemma order_by_sorted_gen (l : list A) :
  StronglySorted (fun a b => leb a b = true) (order_by leb l).
Proof.
  induction l as [|x l IH]; simpl.
  - constructor.
  - now apply insert_by_sorted_gen.
Qed.

(** A row that comes after every row of the list is sorted last. *)
Lemma insert_by_before_last (x n : A) (l : list A) :
  leb x n = true -> insert_by leb x (l ++ [n]) = insert_by leb x l ++ [n].
Proof.
  intros Hxn. induction l as [|y l IH]; simpl.
  - now rewrite Hxn.
  - destruct (leb x y); [reflexivity|]. now rewrite IH.
Qed.

Lemma order_by_snoc (n : A) (l : list A) :
  (forall x, In x l -> leb x n = true) ->
  order_by leb (l ++ [n]) = order_by leb l ++ [n].
Proof.
  induction l as [|x l IH]; simpl; intros H.
  - reflexivity.
  - rewrite IH by (intros; apply H; now right).
    apply insert_by_before_last. apply H. now left.
Qed.
End SortedGeneral.

Lemma order_by_ext {A} (leb leb' : A -> A -> bool) (l : list A) :
  (forall a b, leb a b = leb' a b) -> order_by leb l = order_by leb' l.
Proof.
  intros H. induction l as [|x l IH]; simpl.
  - reflexivity.
  - rewrite IH. generalize (order_by leb' l) as m.
    induction m as [|y m IHm]; simpl; [reflexivity|].
    now rewrite H, IHm.
Qed.

Lemma by_createdAt_id_le a b :
  by_createdAt_id a b = true -> ae_createdAt a <= ae_createdAt b.
Proof.
  unfold by_createdAt_id.
  rewrite orb_true_iff, andb_true_iff, Z.ltb_lt, Z.eqb_eq. zlia.
Qed.

Lemma StronglySorted_weaken {A} (R R' : A -> A -> Prop) (l : list A) :
  (forall a b, R a b -> R' a b) -> StronglySorted R l -> StronglySorted R' l.
Proof.
  intros HR. induction 1 as [|x l _ IH Hall]; constructor.
  - exact IH.
  - eapply Forall_impl; [|exact Hall]. intros b. apply HR.
Qed.

Lemma by_createdAt_id_total a b :
  by_createdAt_id a b = false -> by_createdAt_id b a = true.
Proof.
  unfold by_createdAt_id.
  rewrite orb_false_iff, andb_false_iff, orb_true_iff, andb_true_iff,
          Z.ltb_lt, !Z.ltb_ge, Z.eqb_eq, Z.eqb_neq, Z.leb_le, Z.leb_gt.
  zlia.
Qed.

Lemma by_createdAt_id_trans a b d :
  by_createdAt_id a b = true -> by_createdAt_id b d = true ->
  by_createdAt_id a d = true.
Proof.
  unfold by_createdAt_id.
  rewrite !orb_true_iff, !andb_true_iff, !Z.ltb_lt, !Z.eqb_eq, !Z.leb_le.
  zlia.
Qed.

Lemma client_ledger_sorted s c :
  StronglySorted (fun a b => ae_createdAt a <= ae_createdAt b)
                 (client_ledger s c).
Proof.
  unfold client_ledger.
  eapply StronglySorted_weaken; [intros a b; apply by_createdAt_id_le|].
  apply order_by_sorted_gen.
  - exact by_createdAt_id_total.
  - exact by_createdAt_id_trans.
Qed.

Lemma last_cons_default {A} (x d : A) (m : list A) :
  last (x :: m) d = last m x.
Proof.
  revert x d. induction m as [|y m IH]; intros x d.
  - reflexivity.
  - change (last (x :: y :: m) d) with (last (y :: m) d).
    now rewrite !IH.
Qed.

Lemma chain_ok_snoc (l : list AccountEntry) (n : AccountEntry) (r : Amount) :
  chain_ok r (l ++ [n])
  = chain_ok r l
    && (ae_balanceAfter n
        =? last (map ae_balanceAfter l) r + ae_debit n - ae_credit n).
Proof.
  revert r. induction l as [|e l IH]; intros r.
  - simpl. now rewrite andb_true_r.
  - change (chain_ok r ((e :: l) ++ [n]))
      with ((ae_balanceAfter e =? r + ae_debit e - ae_credit e)
            && chain_ok (ae_balanceAfter e) (l ++ [n])).
    rewrite IH, andb_assoc.
    change (map ae_balanceAfter (e :: l))
      with (ae_balanceAfter e :: map ae_balanceAfter l).
    now rewrite last_cons_default.
Qed.

Lemma last_cons_In {A} (x : A) (l : list A) (d : A) : In (last (x :: l) d) (x :: l).
Proof.
  revert x. induction l as [|y l IH]; intros x.
  - now left.
  - right. apply IH.
Qed.

Lemma last_map_cons {A B} (f : A -> B) (x : A) (l : list A) (d : A) (d' : B) :
  last (map f (x :: l)) d' = f (last (x :: l) d).
Proof.
  revert x. induction l as [|y l IH]; intros x.
  - reflexivity.
  - apply IH.
Qed.

Lemma sorted_last_max {A} (key : A -> Z) (l : list A) (d x : A) :
  StronglySorted (fun a b => key a <= key b) l -> In x l ->
  key x <= key (last l d).
Proof.
  induction l as [|y l IH]; intros Hs Hin.
  - contradiction.
  - inversion Hs as [|? ? Hs' Hall]; subst.
    destruct l as [|z l'].
    + destruct Hin as [->|[]]. simpl. lia.
    + change (last (y :: z :: l') d) with (last (z :: l') d).
      destruct Hin as [->|Hin].
      * rewrite Forall_forall in Hall. apply Hall, last_cons_In.
      * now apply IH.
Qed.

(** The balance [createAccountEntry] starts from is the stored balance of
    the last row of the client's ledger, provided no two rows of the client
    carry the same creation time. *)
Lemma getLatestBalance_last s c :
  NoDup (map ae_createdAt
             (filter (fun e => ae_clientId e =? c) (account_entries s))) ->
  Billing.getLatestBalance s c
  = last (map ae_balanceAfter (client_ledger s c)) 0.
Proof.
  intros Hnd. unfold Billing.getLatestBalance.
  pose proof (client_ledger_sorted s c) as Hasc.
  unfold client_ledger in *.
  set (L := filter (fun e => ae_clientId e =? c) (account_entries s)) in *.
  rewrite (order_by_ext (desc ae_createdAt)
                        (asc (fun e => - ae_createdAt e))).
  2:{ intros a b. unfold desc, asc.
      destruct (Z.leb_spec (ae_createdAt b) (ae_createdAt a)),
               (Z.leb_spec (- ae_createdAt a) (- ae_createdAt b));
        try reflexivity; zlia. }
  pose proof (order_by_asc_sorted (fun e => - ae_createdAt e) L) as Hdesc.
  pose proof (order_by_In (asc (fun e => - ae_createdAt e)) L) as Hin1.
  pose proof (order_by_In by_createdAt_id L) as Hin2.
  destruct (order_by (asc (fun e => - ae_createdAt e)) L) as [|m rest] eqn:Ho.
  - apply order_by_nil_iff in Ho. rewrite Ho. reflexivity.
  - assert (Hm : In m L) by (apply Hin1; now left).
    destruct (order_by by_createdAt_id L) as [|y ys] eqn:Ho2.
    { apply order_by_nil_iff in Ho2. rewrite Ho2 in Hm. contradiction. }
    rewrite (last_map_cons ae_balanceAfter y ys m 0).
    assert (HM : In (last (y :: ys) m) L) by (apply Hin2, last_cons_In).
    assert (Heq : m = last (y :: ys) m).
    { apply (NoDup_map_In_eq ae_createdAt L); [exact Hnd|exact Hm|exact HM|].
      assert (H1 : ae_createdAt m <= ae_createdAt (last (y :: ys) m)).
      { apply (sorted_last_max ae_createdAt (y :: ys) m m Hasc).
        apply Hin2. exact Hm. }
      assert (H2 : ae_createdAt (last (y :: ys) m) <= ae_createdAt m).
      { inversion Hdesc as [|? ? _ Hall]; subst.
        assert (HML : In (last (y :: ys) m) (m :: rest))
          by (apply Hin1; exact HM).
        destruct HML as [E|HML]; [rewrite <- E; zlia|].
        rewrite Forall_forall in Hall. specialize (Hall _ HML).
        cbv beta in Hall. zlia. }
      zlia. }
    rewrite <- Heq. reflexivity.
Qed.

(** [createAccountEntry] keeps the chain of the client when the new row is
    created strictly after every row the client already has (and those rows
    carry distinct creation times). *)
Lemma append_in_order_keeps_chain now uuid s params :
  let c := Billing.p_clientId params in
  let t := orElse (Billing.p_createdAt params) now in
  ledger_ok s c = true ->
  (forall e, In e (account_entries s) -> ae_clientId e = c ->
             ae_createdAt e < t) ->
  NoDup (map ae_createdAt
             (filter (fun e => ae_clientId e =? c) (account_entries s))) ->
  ledger_ok (fst (Billing.createAccountEntry now uuid s params)) c = true.
Proof.
  intros c t Hok Hlater Hnd.
  unfold ledger_ok, client_ledger, Billing.createAccountEntry. simpl.
  fold c. rewrite filter_app. simpl. rewrite Z.eqb_refl.
  rewrite (order_by_snoc by_createdAt_id).
  - rewrite chain_ok_snoc. apply andb_true_iff. split; [exact Hok|].
    simpl. apply Z.eqb_eq.
    rewrite (getLatestBalance_last s c Hnd). reflexivity.
  - intros x Hx. apply filter_In in Hx. destruct Hx as [Hx Hc].
    apply Z.eqb_eq in Hc. specialize (Hlater x Hx Hc).
    unfold by_createdAt_id. simpl. fold t.
    apply orb_true_iff. left. apply Z.ltb_lt. exact Hlater.
Qed.

(** C1 does not hold of the code.  [recordPayment] appends its credit row
    on top of the balance of the row with the latest creation time and does
    not recompute; a payment dated before the latest row therefore lands
    earlier in the order (createdAt, id) with a balance computed from a later
    row.  After scenario 1 (chain consistent), a payment of 1000 dated 50000
    leaves the ledger [credit 1000, balance 1750; debit 2750, balance 2750]:
    the first balance is not debit - credit = -1000. *)
Theorem backdated_payment_breaks_chain :
  ledger_ok store1 1 = true
  /\ uuid_fresh (env_at 200000 200) store1
  /\ Billing.recordPayment (env_at 200000 200) store1
       (Billing.mkPaymentInput 1 1000 (Some 50000) None)
     = Ok (store_backdated,
           [mkPayment 200 100 "MANUAL" EmptyString 1000 COMPLETED 50000])
  /\ map (fun e => (ae_createdAt e, ae_id e, ae_debit e, ae_credit e,
                    ae_balanceAfter e))
         (client_ledger store_backdated 1)
     = [(50000, 201, 0, 1000, 1750); (100000, 101, 2750, 0, 2750)]
  /\ ledger_ok store_backdated 1 = false.
Proof.
  split; [reflexivity|]. split; [exact uuid_fresh_store1|].
  repeat split; reflexivity.
Qed.

(** ** getStatementByClient *)

Lemma dedupe_In (l : list Id) (x : Id) : In x (dedupe l) <-> In x l.
Proof.
  induction l as [|y l IH]; simpl.
  - tauto.
  - rewrite filter_In, IH, negb_true_iff, Z.eqb_neq.
    destruct (Z.eq_dec x y) as [->|Hne]; [tauto|].
    split; [tauto|]. intros [H|H]; [now left|right; tauto].
Qed.

Lemma mem_dedupe (l : list Id) (x : Id) : mem x (dedupe l) = mem x l.
Proof.
  destruct (mem x l) eqn:E.
  - apply (proj1 (mem_In x l)) in E.
    apply (proj2 (mem_In x (dedupe l))), (proj2 (dedupe_In l x)), E.
  - destruct (mem x (dedupe l)) eqn:E'; [|reflexivity].
    apply (proj1 (mem_In x (dedupe l))), (proj1 (dedupe_In l x)) in E'.
    apply (proj2 (mem_In x l)) in E'. congruence.
Qed.

Lemma somes_In {A} (l : list (option A)) (x : A) :
  In x (somes l) <-> In (Some x) l.
Proof.
  unfold somes. rewrite in_flat_map. split.
  - intros [[y|] [Hin Hx]]; simpl in Hx; [|contradiction].
    destruct Hx as [->|[]]. exact Hin.
  - intros H. exists (Some x). split; [exact H|now left].
Qed.

Section ById.
Context {A : Type} (key : A -> Id).

Lemma find_rev_unique (l : list A) (k : Id) :
  NoDup (map key l) ->
  find (fun x => key x =? k) (rev l) = find (fun x => key x =? k) l.
Proof.
  intros Hnd.
  destruct (in_dec Z.eq_dec k (map key l)) as [Hin|Hout].
  - apply in_map_iff in Hin. destruct Hin as [x [<- Hx]].
    rewrite (find_unique key l x Hnd Hx).
    apply find_unique.
    + rewrite map_rev. eapply Permutation_NoDup; [|exact Hnd].
      apply Permutation_rev.
    + now apply in_rev in Hx.
  - rewrite !find_none_key; [reflexivity|exact Hout|].
    rewrite map_rev. intros H. apply Hout. now apply in_rev.
Qed.

Lemma find_filter_key (q : A -> bool) (l : list A) (k : Id) :
  (forall x, key x = k -> q x = true) ->
  find (fun x => key x =? k) (filter q l) = find (fun x => key x =? k) l.
Proof.
  intros Hq. induction l as [|x l IH]; simpl.
  - reflexivity.
  - destruct (Z.eqb_spec (key x) k) as [E|E].
    + rewrite (Hq x E). simpl. rewrite E, Z.eqb_refl. reflexivity.
    + destruct (q x); simpl; [|exact IH].
      destruct (Z.eqb_spec (key x) k); [contradiction|exact IH].
Qed.

Lemma byId_get (q : A -> bool) (tbl : list A) (k : Id) :
  NoDup (map key tbl) ->
  (forall x, key x = k -> q x = true) ->
  map_get Z.eqb k
    (map_of_entries Z.eqb (map (fun x => (key x, x)) (filter q tbl)))
  = find (fun x => key x =? k) tbl.
Proof.
  intros Hnd Hq. rewrite map_of_entries_get, <- map_rev.
  rewrite <- (find_filter_key q tbl k Hq).
  rewrite <- (find_rev_unique (filter q tbl) k)
    by now apply NoDup_map_filter.
  induction (rev (filter q tbl)) as [|x l IH]; simpl.
  - reflexivity.
  - destruct (key x =? k); [reflexivity|exact IH].
Qed.
End ById.

Lemma find_hd_filter {A} (p : A -> bool) (l : list A) :
  find p l = maybeSingle (filter p l).
Proof.
  induction l as [|x l IH]; simpl.
  - reflexivity.
  - destruct (p x); [reflexivity|exact IH].
Qed.

Lemma statementRow_ok s invoicesById workOrdersById pays e :
  map_get Z.eqb (ae_invoiceId e) invoicesById = invoice_of s e ->
  (forall i w, invoice_of s e = Some i -> inv_workOrderId i = Some w ->
     map_get Z.eqb w workOrdersById
     = find (fun o => wo_id o =? w) (work_orders s)) ->
  row_ok s (fun e => maybeSingle (payment_candidates pays e)) e
         (Billing.statementRow invoicesById workOrdersById pays e).
Proof.
  intros Hinv Hord.
  assert (Horder :
    match map_get Z.eqb (ae_invoiceId e) invoicesById with
    | Some i =>
        match inv_workOrderId i with
        | Some w => map_get Z.eqb w workOrdersById
        | None => None
        end
    | None => None
    end = order_of s e).
  { unfold order_of. rewrite Hinv.
    destruct (invoice_of s e) as [i|] eqn:Hi; [|reflexivity].
    destruct (inv_workOrderId i) as [w|] eqn:Hw; [|reflexivity].
    now apply Hord with (i := i). }
  unfold Billing.statementRow. cbv zeta. rewrite Horder, Hinv.
  unfold row_ok.
  destruct (Z.gtb_spec (ae_debit e) 0) as [Hd|Hd].
  - cbn [Billing.fecha Billing.tipo Billing.detalle Billing.paciente
         Billing.facturas Billing.entregas Billing.saldoAcumulado
         Billing.paymentId Billing.invoiceId].
    repeat split; try reflexivity; intros; zlia.
  - destruct (Z.gtb_spec (ae_credit e) 0) as [Hc|Hc];
      cbn [Billing.fecha Billing.tipo Billing.detalle Billing.paciente
           Billing.facturas Billing.entregas Billing.saldoAcumulado
           Billing.paymentId Billing.invoiceId].
    + rewrite find_hd_filter. fold (payment_candidates pays e).
      repeat split; try reflexivity; intros; zlia.
    + repeat split; try reflexivity; intros; zlia.
Qed.

Lemma statement_fold (row : AccountEntry -> Billing.StatementRow)
    (entries : list AccountEntry) (rows : list Billing.StatementRow)
    (a b : Amount) :
  fold_left
    (fun acc entry =>
       let '(rows, facturasTotal, entregasTotal) := acc in
       (rows ++ [row entry], facturasTotal + ae_debit entry,
        entregasTotal + ae_credit entry))
    entries (rows, a, b)
  = (rows ++ map row entries,
     a + sumZ (map ae_debit entries), b + sumZ (map ae_credit entries)).
Proof.
  revert rows a b. induction entries as [|e entries IH]; intros rows a b; simpl.
  - rewrite app_nil_r. unfold sumZ. simpl. f_equal; [f_equal|]; zlia.
  - rewrite IH, <- app_assoc, !sumZ_cons. simpl. f_equal; [f_equal|]; zlia.
Qed.

Lemma Forall2_map_r {A B} (R : A -> B -> Prop) (f : A -> B) (l : list A) :
  (forall x, In x l -> R x (f x)) -> Forall2 R l (map f l).
Proof.
  induction l as [|x l IH]; simpl; intros H.
  - constructor.
  - constructor; [apply H; now left|]. apply IH. intros; apply H; now right.
Qed.

Lemma find_some_key {A} (key : A -> Id) (l : list A) (k : Id) (x : A) :
  find (fun y => key y =? k) l = Some x -> In x l /\ key x = k.
Proof.
  intros H. apply find_some in H. destruct H as [Hin Hk].
  split; [exact Hin|now apply Z.eqb_eq].
Qed.

(** [ids.length ? query.in(key, ids) : []] is the query itself: with no id
    the query selects nothing. *)
Lemma guarded_in {A} (key : A -> Id) (ids : list Id) (tbl : list A) :
  match ids with
  | [] => []
  | _ :: _ => filter (fun x => mem (key x) ids) tbl
  end = filter (fun x => mem (key x) ids) tbl.
Proof.
  destruct ids; [|reflexivity]. symmetry. apply filter_none. reflexivity.
Qed.

Lemma guarded_in_some {A} (key : A -> Id) (ids : list Id) (tbl : list A) :
  match ids with
  | [] => Some []
  | _ :: _ => Some (filter (fun x => mem (key x) ids) tbl)
  end = Some (filter (fun x => mem (key x) ids) tbl).
Proof.
  destruct ids; [|reflexivity]. f_equal. symmetry. apply filter_none.
  reflexivity.
Qed.

(** With every read succeeding, the statement of an existing client. *)
Lemma getStatement_run env s clientId dateFrom dateTo client :
  NoDup (map inv_id (invoices s)) ->
  NoDup (map wo_id (work_orders s)) ->
  maybeSingle (filter (fun u => up_id u =? clientId) (user_profiles s))
  = Some client ->
  let entries := statement_entries env s clientId dateFrom dateTo in
  let pays := statement_payments s entries in
  exists rows,
    Billing.getStatementByClient env Billing.reads_ok s clientId dateFrom dateTo
    = Ok (Billing.mkStatement
            (up_id client,
             orElse (up_name client) (orElse (up_email client) "Cliente"))
            rows
            (Billing.mkTotals
               (sumZ (map ae_debit entries))
               (sumZ (map ae_credit entries))
               (sumZ (map ae_debit entries) - sumZ (map ae_credit entries))))
    /\ Forall2 (row_ok s (fun e => maybeSingle (payment_candidates pays e)))
               entries rows.
Proof.
  intros Hinv Hwo Hclient entries pays.
  unfold Billing.getStatementByClient.
  cbn [Billing.rd_client Billing.rd_entries Billing.rd_invoices
       Billing.rd_work_orders Billing.rd_payments Billing.reads_ok negb].
  rewrite Hclient. cbn [bind orThrow]. cbv zeta.
  change (order_by (asc ae_createdAt) (filter _ (account_entries s)))
    with entries.
  set (invoiceIds := dedupe (map ae_invoiceId entries)).
  rewrite (guarded_in_some inv_id invoiceIds (invoices s)).
  cbn [bind orThrow].
  set (invs := filter (fun i => mem (inv_id i) invoiceIds) (invoices s)).
  set (workOrderIds := dedupe (somes (map inv_workOrderId invs))).
  rewrite (guarded_in_some wo_id workOrderIds (work_orders s)).
  cbn [bind orThrow].
  rewrite (guarded_in pay_invoiceId invoiceIds (payments s)).
  rewrite statement_fold. simpl.
  eexists. split; [reflexivity|].
  assert (Hpays : filter (fun p => mem (pay_invoiceId p) invoiceIds)
                         (payments s) = pays).
  { subst pays invoiceIds. unfold statement_payments.
    apply filter_ext. intros p. apply mem_dedupe. }
  rewrite Hpays.
  apply Forall2_map_r. intros e He.
  assert (Hmem : mem (ae_invoiceId e) invoiceIds = true).
  { subst invoiceIds. rewrite mem_dedupe. apply mem_In. now apply in_map. }
  assert (Hlook : map_get Z.eqb (ae_invoiceId e)
                    (map_of_entries Z.eqb (map (fun i => (inv_id i, i)) invs))
                  = invoice_of s e).
  { subst invs. unfold invoice_of. apply (byId_get inv_id); [exact Hinv|].
    intros i Hi. now rewrite Hi. }
  apply statementRow_ok; [exact Hlook|].
  intros i w Hi Hw.
  apply (byId_get wo_id); [exact Hwo|].
  intros o Ho. rewrite Ho. subst workOrderIds. rewrite mem_dedupe.
  apply mem_In, somes_In. rewrite <- Hw. apply in_map.
  unfold invoice_of in Hi. apply find_some_key in Hi. destruct Hi as [Hin Hk].
  subst invs. apply filter_In. split; [exact Hin|]. now rewrite Hk.
Qed.

(** C9, as stated, fails on the code: among several candidate payments the
    one listed first by the store wins, not the chronologically first.  With
    two payments of 500 recorded on one invoice, the first dated 300000
    (id 200) and the second dated 299000 (id 300), the credit row dated
    299000 is reconciled with payment 200, although payment 300 is the
    earlier candidate. *)
Lemma getStatement_match_is_not_chronological :
  exists st,
    Billing.getStatementByClient (env_at 400000 400) Billing.reads_ok
      store_two_payments 1 None None = Ok st
    /\ map (fun r => (Billing.fecha r, Billing.tipo r, Billing.paymentId r))
           (Billing.st_rows st)
       = [(100000, Billing.FACTURA, None);
          (299000, Billing.PAGO, Some 200);
          (300000, Billing.PAGO, Some 200)]
    /\ map (fun e =>
              option_map pay_id
                (first_chronological
                   (payment_candidates
                      (statement_payments store_two_payments
                         (statement_entries (env_at 400000 400)
                            store_two_payments 1 None None)) e)))
           (statement_entries (env_at 400000 400) store_two_payments 1
                              None None)
       = [None; Some 300; Some 300]
    /\ map Billing.paymentId (Billing.st_rows st)
       <> map (fun e =>
                option_map pay_id
                  (first_chronological
                     (payment_candidates
                        (statement_payments store_two_payments
                           (statement_entries (env_at 400000 400)
                              store_two_payments 1 None None)) e)))
             (statement_entries (env_at 400000 400) store_two_payments 1
                                None None).
Proof.
  eexists. split; [reflexivity|]. split; [reflexivity|].
  split; [reflexivity|]. vm_compute. discriminate.
Qed.

Lemma row_totals s matched entries rows :
  Forall2 (row_ok s matched) entries rows ->
  sumZ (map Billing.facturas rows) = sumZ (map ae_debit entries)
  /\ sumZ (map Billing.entregas rows) = sumZ (map ae_credit entries).
Proof.
  induction 1 as [|e r entries rows Hr _ [IH1 IH2]]; simpl.
  - split; reflexivity.
  - destruct Hr as (_ & Hd & Hc & _).
    rewrite !sumZ_cons, IH1, IH2, Hd, Hc. split; reflexivity.
Qed.

(** C9, amended.  For an existing client (ids being unique),
    [getStatementByClient] returns one row per ledger row in range, in
    chronological order, carrying its date, debit, credit and stored
    balance, and classified: FACTURA when debit > 0, with the work
    description and patient name of the order of the originating invoice;
    PAGO when debit is not positive and credit > 0, reconciled with the
    first payment, in the order the store returns the payment rows, that has
    the same amount and was created less than 5 s from the row (generic
    label and no payment id when there is none); MOVIMIENTO otherwise.  The
    totals are the sum of the debits, the sum of the credits and their
    difference over the returned rows. *)
Theorem getStatement_classifies (env : Env) (s : Store) (clientId : Id)
    (dateFrom dateTo : option Timestamp) (client : UserProfile) :
  NoDup (map inv_id (invoices s)) ->
  NoDup (map wo_id (work_orders s)) ->
  maybeSingle (filter (fun u => up_id u =? clientId) (user_profiles s))
  = Some client ->
  let entries := statement_entries env s clientId dateFrom dateTo in
  let pays := statement_payments s entries in
  exists st,
    Billing.getStatementByClient env Billing.reads_ok s clientId dateFrom dateTo
    = Ok st
    /\ Forall2 (row_ok s (fun e => maybeSingle (payment_candidates pays e)))
               entries (Billing.st_rows st)
    /\ StronglySorted (fun a b => ae_createdAt a <= ae_createdAt b) entries
    /\ (forall e, In e entries <->
                  In e (account_entries s) /\ ae_clientId e = clientId
                  /\ match dateFrom with
                     | Some from => from <= ae_createdAt e
                     | None => True
                     end
                  /\ match dateTo with
                     | Some to =>
                         ae_createdAt e
                         <= Billing.endOfDay (env_tzOffset env) to
                     | None => True
                     end)
    /\ Billing.st_totals st
       = Billing.mkTotals
           (sumZ (map Billing.facturas (Billing.st_rows st)))
           (sumZ (map Billing.entregas (Billing.st_rows st)))
           (sumZ (map Billing.facturas (Billing.st_rows st))
            - sumZ (map Billing.entregas (Billing.st_rows st))).
Proof.
  intros Hinv Hwo Hclient entries pays.
  destruct (getStatement_run env s clientId dateFrom dateTo client
              Hinv Hwo Hclient) as (rows & Hrun & Hrows).
  fold entries in Hrun, Hrows. fold pays in Hrows.
  eexists. split; [exact Hrun|]. simpl.
  split; [exact Hrows|].
  split; [apply order_by_asc_sorted|].
  split.
  - intros e. unfold entries, statement_entries.
    rewrite order_by_In, filter_In, !andb_true_iff, Z.eqb_eq.
    destruct dateFrom, dateTo; rewrite ?Z.leb_le; intuition.
  - destruct (row_totals _ _ _ _ Hrows) as [-> ->]. reflexivity.
Qed.

Lemma getStatement_classifies_witness :
  exists st,
    Billing.getStatementByClient (env_at 400000 400) Billing.reads_ok
      store2 1 None None = Ok st
    /\ Billing.st_totals st = Billing.mkTotals 2750 2750 0.
Proof.
  assert (Hinv : NoDup (map inv_id (invoices store2))).
  { change (map inv_id (invoices store2)) with [100].
    repeat constructor. intros []. }
  assert (Hwo : NoDup (map wo_id (work_orders store2))).
  { change (map wo_id (work_orders store2)) with [10; 11; 12].
    repeat constructor; simpl; intuition lia. }
  assert (Hclient : maybeSingle (filter (fun u => up_id u =? 1)
                                        (user_profiles store2))
                    = Some (mkUserProfile 1 (Some "Ana") None))
    by reflexivity.
  destruct (getStatement_classifies (env_at 400000 400) store2 1 None None _
              Hinv Hwo Hclient) as (st & Hrun & _ & _ & _ & Htot).
  exists st. split; [exact Hrun|].
  rewrite Htot. clear Htot.
  assert (Hrun' : Billing.getStatementByClient (env_at 400000 400)
                    Billing.reads_ok store2 1 None None
                  = Ok (store_statement2)) by reflexivity.
  rewrite Hrun in Hrun'. injection Hrun' as ->. reflexivity.
Defined.

(** C10.  For an existing client, whatever the ledger holds,
    [getStatementByClient] fails only when a storage read fails; when the
    reads of the client, the ledger rows, the invoices and the work orders
    succeed it returns a statement (a failed read of the payments leaves the
    credit rows unreconciled). *)
Theorem getStatement_fails_only_on_storage (env : Env) (s : Store)
    (clientId : Id) (dateFrom dateTo : option Timestamp) :
  In clientId (map up_id (user_profiles s)) ->
  (forall io e,
     Billing.getStatementByClient env io s clientId dateFrom dateTo = Err e ->
     (e = ClientNotFound /\ Billing.rd_client io = false)
     \/ (e = LoadEntriesFailed /\ Billing.rd_entries io = false)
     \/ (e = NullDereference
         /\ (Billing.rd_invoices io = false
             \/ Billing.rd_work_orders io = false)))
  /\ (forall io,
        Billing.rd_client io = true -> Billing.rd_entries io = true ->
        Billing.rd_invoices io = true -> Billing.rd_work_orders io = true ->
        exists st,
          Billing.getStatementByClient env io s clientId dateFrom dateTo
          = Ok st).
Proof.
  intros Hin.
  assert (Hclient : exists client,
            maybeSingle (filter (fun u => up_id u =? clientId)
                                (user_profiles s)) = Some client).
  { apply in_map_iff in Hin. destruct Hin as [u [Hu Hin]].
    assert (Hf : In u (filter (fun u => up_id u =? clientId) (user_profiles s)))
      by (apply filter_In; split; [exact Hin|now apply Z.eqb_eq]).
    unfold maybeSingle.
    destruct (filter _ (user_profiles s)) as [|c l]; [contradiction|].
    now exists c. }
  destruct Hclient as [client Hclient].
  assert (Hrun : forall io,
    match Billing.getStatementByClient env io s clientId dateFrom dateTo with
    | Ok _ => True
    | Err e =>
        (e = ClientNotFound /\ Billing.rd_client io = false)
        \/ (e = LoadEntriesFailed /\ Billing.rd_entries io = false)
        \/ (e = NullDereference
            /\ (Billing.rd_invoices io = false
                \/ Billing.rd_work_orders io = false))
    end).
  { intros [rc re ri rw rp]. unfold Billing.getStatementByClient.
    cbn [Billing.rd_client Billing.rd_entries Billing.rd_invoices
         Billing.rd_work_orders Billing.rd_payments].
    destruct rc; [rewrite Hclient|]; cbn [bind orThrow]; [|auto].
    destruct re; cbn [negb]; [|auto 6]. cbv zeta.
    destruct (dedupe _) as [|k ks]; [|destruct ri]; cbn [bind orThrow];
      try (right; right; auto);
      (destruct (dedupe _) as [|w ws]; [|destruct rw]; cbn [bind orThrow];
       try (right; right; auto);
       destruct (fold_left _ _ _) as [[rows a] b]; exact I). }
  split.
  - intros io e He. specialize (Hrun io). now rewrite He in Hrun.
  - intros io H1 H2 H3 H4. specialize (Hrun io).
    destruct (Billing.getStatementByClient env io s clientId dateFrom dateTo)
      as [st|e]; [now exists st|].
    destruct Hrun as [[_ H]|[[_ H]|[_ [H|H]]]]; congruence.
Qed.

Lemma getStatement_fails_only_on_storage_witness :
  exists st,
    Billing.getStatementByClient (env_at 400000 400)
      (Billing.mkReads true true true true false) store_two_payments 1
      None None = Ok st.
Proof.
  assert (Hin : In 1 (map up_id (user_profiles store_two_payments)))
    by (left; reflexivity).
  destruct (getStatement_fails_only_on_storage (env_at 400000 400)
              store_two_payments 1 None None Hin) as [_ Hok].
  apply (Hok (Billing.mkReads true true true true false));
    reflexivity.
Defined.

(** * Further properties *)

(** ** recordPayment: how much is applied, and to what *)

Lemma recordPayment_ok_pre env s payload s' created :
  Billing.recordPayment env s payload = Ok (s', created) ->
  In (Billing.in_clientId payload) (map up_id (user_profiles s))
  /\ 0 < Billing.in_amount payload.
Proof.
  unfold Billing.recordPayment.
  destruct (maybeSingle (filter (fun u => up_id u =? Billing.in_clientId payload)
                                (user_profiles s))) as [u|] eqn:Hu;
    cbn [orThrow bind]; [|discriminate].
  destruct (Billing.in_amount payload <=? 0) eqn:Hle; [discriminate|].
  intros _. apply maybeSingle_filter_In in Hu. destruct Hu as [Hin Hid].
  apply Z.eqb_eq in Hid. apply Z.leb_gt in Hle. split; [|exact Hle].
  rewrite <- Hid. apply in_map. exact Hin.
Qed.




Lemma allocation_plan_bounds (f : Invoice -> Amount) (invs : list Invoice)
    (remaining : Amount) :
  Forall (fun a =>
            0 < alloc_amount a /\ alloc_amount a <= remaining
            /\ exists i, In i invs /\ alloc_invoice a = inv_id i
                         /\ alloc_amount a <= f i
                         /\ (alloc_settles a = true <-> alloc_amount a = f i))
         (allocation_plan f invs remaining).
Proof.
  revert remaining. induction invs as [|i invs IH]; intros remaining.
  - constructor.
  - cbn [allocation_plan].
    destruct (Z.leb_spec remaining 0) as [H0|H0]; [constructor|].
    destruct (Z.leb_spec (f i) 0) as [Hf|Hf].
    + eapply Forall_impl; [|apply IH].
      intros a (Hp & Hle & j & Hj & Hrest). split; [exact Hp|]. split; [exact Hle|].
      exists j. split; [right; exact Hj|exact Hrest].
    + constructor.
      * cbn [alloc_amount alloc_invoice alloc_settles].
        split; [zlia|]. split; [zlia|]. exists i. split; [left; reflexivity|].
        split; [reflexivity|]. split; [zlia|].
        rewrite Z.leb_le. zlia.
      * eapply Forall_impl; [|apply IH].
        intros a (Hp & Hle & j & Hj & Hrest). split; [exact Hp|]. split; [zlia|].
        exists j. split; [right; exact Hj|exact Hrest].
Qed.







(** The invoice table after a plan has been carried out. *)
Lemma fold_settle_char (plan : list Allocation) (t : list Invoice) :
  fold_left settle plan t
  = map (fun i => if settled_by plan (inv_id i)
                  then set_inv_status PAID i else i) t.
Proof.
  revert t. induction plan as [|a plan IH]; intros t.
  - cbn [fold_left settled_by existsb]. symmetry. apply map_id.
  - cbn [fold_left]. rewrite IH. unfold settle, update_where.
    destruct (alloc_settles a) eqn:Hs.
    + rewrite map_map. apply map_ext. intros i.
      unfold settled_by. cbn [existsb]. rewrite Hs. cbn [andb].
      destruct (inv_id i =? alloc_invoice a) eqn:Hid; cbn [orb].
      * cbn [inv_id set_inv_status].
        destruct (existsb _ plan); reflexivity.
      * reflexivity.
    + apply map_ext. intros i. unfold settled_by. cbn [existsb].
      rewrite Hs. reflexivity.
Qed.



Lemma reachable_store1 : reachable store1.
Proof.
  eapply reach_step.
  - apply (reach_init (user_profiles store0) (work_orders store0)).
  - eapply (step_createInvoice (env_at 100000 100) store0 10 store1).
    + exact uuid_fresh_store0.
    + vm_compute; reflexivity.
Defined.


(** ** recordPayment: what it leaves alone *)

Lemma settled_by_target (plan : list Allocation) (id : Id) :
  settled_by plan id = true -> In id (map alloc_invoice plan).
Proof.
  unfold settled_by. rewrite existsb_exists. intros (a & Ha & Hb).
  apply andb_true_iff in Hb. destruct Hb as [_ Hb]. apply Z.eqb_eq in Hb.
  subst id. apply in_map. exact Ha.
Qed.

Lemma allocation_plan_targets (f : Invoice -> Amount) (invs : list Invoice)
    (remaining : Amount) (id : Id) :
  In id (map alloc_invoice (allocation_plan f invs remaining)) ->
  In id (map inv_id invs).
Proof.
  intros Hin. apply in_map_iff in Hin. destruct Hin as (a & <- & Ha).
  pose proof (allocation_plan_bounds f invs remaining) as Hb.
  rewrite Forall_forall in Hb. destruct (Hb a Ha) as (_ & _ & i & Hi & -> & _).
  apply in_map. exact Hi.
Qed.

(** X3.  A payment only moves pending invoices of the paying client to PAID;
    no other row of the store is changed or removed, and no amount changes. *)
Theorem recordPayment_touches_only_client_pending (env : Env) (s s' : Store)
    (payload : Billing.PaymentInput) (created : list Payment) :
  NoDup (map inv_id (invoices s)) ->
  Billing.recordPayment env s payload = Ok (s', created) ->
  Forall2 (fun i i' =>
             i' = i
             \/ (inv_clientId i = Billing.in_clientId payload
                 /\ inv_status i = PENDING
                 /\ i' = set_inv_status PAID i))
          (invoices s) (invoices s')
  /\ payments s' = payments s ++ created
  /\ (exists rows, account_entries s' = account_entries s ++ rows
                   /\ (List.length rows <= 1)%nat)
  /\ user_profiles s' = user_profiles s
  /\ work_orders s' = work_orders s.
Proof.
  intros Hnd Hrun.
  destruct (recordPayment_ok_pre _ _ _ _ _ Hrun) as [Hin Hpos].
  pose proof (recordPayment_effect env s payload Hin Hpos) as Heff.
  cbv zeta in Heff. rewrite Heff in Hrun. injection Hrun as <- <-.
  cbn [invoices payments user_profiles work_orders account_entries].
  split; [|split; [reflexivity|split; [|split; reflexivity]]].
  - rewrite fold_settle_char. apply Forall2_map_r. intros i Hi.
    destruct (settled_by _ (inv_id i)) eqn:Hsb; [right|left; reflexivity].
    apply settled_by_target, allocation_plan_targets in Hsb.
    apply in_map_iff in Hsb. destruct Hsb as (j & Hid & Hj).
    apply pending_invoices_In in Hj. destruct Hj as (Hj & Hcl & Hst).
    assert (j = i) by (eapply NoDup_map_In_eq; eauto). subst j. auto.
  - eexists. split; [reflexivity|].
    match goal with |- context [match ?t with Some _ => _ | None => _ end] =>
      destruct t end; cbn [List.length]; lia.
Qed.

Lemma recordPayment_touches_only_client_pending_witness :
  exists s' created,
    Billing.recordPayment (env_at 3000 300) storeAB
      (Billing.mkPaymentInput 1 120 None None) = Ok (s', created)
    /\ map inv_status (invoices storeAB) = [PENDING; PENDING]
    /\ map inv_status (invoices s') = [PAID; PENDING]
    /\ payments s' = payments storeAB ++ created.
Proof.
  eexists. eexists.
  assert (Hrun : Billing.recordPayment (env_at 3000 300) storeAB
                   (Billing.mkPaymentInput 1 120 None None)
                 = Ok (storeAB_paid,
                       [mkPayment 300 110 "MANUAL" EmptyString 100 COMPLETED 3000;
                        mkPayment 301 120 "MANUAL" EmptyString 20 COMPLETED 3000]))
    by (vm_compute; reflexivity).
  assert (Hnd : NoDup (map inv_id (invoices storeAB))).
  { change (map inv_id (invoices storeAB)) with [110; 120].
    repeat constructor; cbn [In]; lia. }
  split; [exact Hrun|]. split; [vm_compute; reflexivity|].
  split; [vm_compute; reflexivity|].
  exact (proj1 (proj2 (recordPayment_touches_only_client_pending _ _ _ _ _
                         Hnd Hrun))).
Defined.

(** ** createInvoiceFromOrder: the run as a whole *)

Lemma no_invoice_of_order (s : Store) (orderId : Id) :
  maybeSingle
    (filter (fun i => match inv_workOrderId i with
                      | Some w => w =? orderId
                      | None => false
                      end) (invoices s)) = None
  <-> (forall i, In i (invoices s) -> inv_workOrderId i <> Some orderId).
Proof.
  split.
  - intros Hnone i Hin Hw.
    destruct (filter _ (invoices s)) as [|x l] eqn:Hf; [|discriminate].
    assert (Hi : In i (filter (fun i => match inv_workOrderId i with
                                        | Some w => w =? orderId
                                        | None => false
                                        end) (invoices s))).
    { apply filter_In. split; [exact Hin|]. rewrite Hw. apply Z.eqb_refl. }
    rewrite Hf in Hi. contradiction.
  - intros Hnone. rewrite filter_none; [reflexivity|].
    intros i Hin. specialize (Hnone i Hin).
    destruct (inv_workOrderId i) as [w|]; [|reflexivity].
    apply Z.eqb_neq. congruence.
Qed.

Lemma createInvoiceFromOrder_eval env s orderId :
  Billing.createInvoiceFromOrder env s orderId
  = match maybeSingle (filter (fun o => wo_id o =? orderId) (work_orders s)) with
    | None => Err OrderNotFound
    | Some order =>
        match wo_dentistId order with
        | None => Err BillingPartyMissing
        | Some clientId =>
            if negb (Billing.order_is_finished (wo_status order))
            then Err OrderNotReady
            else
              match
                maybeSingle
                  (filter (fun i => match inv_workOrderId i with
                                    | Some w => w =? wo_id order
                                    | None => false
                                    end) (invoices s))
              with
              | Some _ => Err DuplicateInvoice
              | None =>
                  if resolved_amount order <=? 0 then Err AmountUndetermined
                  else Ok (invoiced_store env s order clientId)
              end
        end
    end.
Proof.
  unfold Billing.createInvoiceFromOrder.
  destruct (maybeSingle (filter (fun o => wo_id o =? orderId) (work_orders s)))
    as [order|]; cbn [bind orThrow]; [|reflexivity].
  destruct (wo_dentistId order) as [clientId|]; cbn [bind orThrow]; [|reflexivity].
  destruct (negb (Billing.order_is_finished (wo_status order))); [reflexivity|].
  destruct (maybeSingle _); [reflexivity|].
  cbv zeta. rewrite finalAmount_resolved.
  destruct (resolved_amount order <=? 0); [reflexivity|].
  unfold invoiced_store.
  destruct (Billing.price_is_falsy (wo_price order)); reflexivity.
Qed.

Lemma createInvoiceFromOrder_run env s orderId s' invoice :
  Billing.createInvoiceFromOrder env s orderId = Ok (s', invoice) ->
  exists order clientId,
    maybeSingle (filter (fun o => wo_id o =? orderId) (work_orders s))
    = Some order
    /\ wo_id order = orderId
    /\ wo_dentistId order = Some clientId
    /\ Billing.order_is_finished (wo_status order) = true
    /\ (forall i, In i (invoices s) -> inv_workOrderId i <> Some orderId)
    /\ 0 < resolved_amount order
    /\ (s', invoice) = invoiced_store env s order clientId.
Proof.
  rewrite createInvoiceFromOrder_eval.
  destruct (maybeSingle (filter (fun o => wo_id o =? orderId) (work_orders s)))
    as [order|] eqn:Hfind; [|discriminate].
  destruct (wo_dentistId order) as [clientId|] eqn:Hd; [|discriminate].
  destruct (Billing.order_is_finished (wo_status order)) eqn:Hfin;
    cbn [negb]; [|discriminate].
  destruct (maybeSingle (filter _ (invoices s))) eqn:Hinv; [discriminate|].
  destruct (Z.leb_spec (resolved_amount order) 0) as [|Hpos]; [discriminate|].
  intros H.
  assert (Hs : invoiced_store env s order clientId = (s', invoice))
    by congruence.
  assert (Hid : wo_id order = orderId).
  { apply maybeSingle_filter_In in Hfind. destruct Hfind as [_ Hid].
    apply Z.eqb_eq. exact Hid. }
  exists order, clientId. rewrite Hid in Hinv.
  pose proof (proj1 (no_invoice_of_order s orderId) Hinv) as Hnone.
  split; [reflexivity|]. split; [exact Hid|]. split; [exact Hd|].
  split; [exact Hfin|]. split; [exact Hnone|]. split; [exact Hpos|].
  symmetry. exact Hs.
Qed.

(** ** The ledger stays well formed *)

Lemma inv_view_fields (a b : Invoice) :
  inv_view a = inv_view b ->
  inv_id a = inv_id b /\ inv_clientId a = inv_clientId b
  /\ inv_workOrderId a = inv_workOrderId b /\ inv_amount a = inv_amount b
  /\ inv_createdAt a = inv_createdAt b.
Proof. unfold inv_view. intros H. injection H. auto. Qed.

Lemma entry_frame_fields (a b : AccountEntry) :
  entry_frame a = entry_frame b ->
  ae_id a = ae_id b /\ ae_clientId a = ae_clientId b
  /\ ae_invoiceId a = ae_invoiceId b /\ ae_debit a = ae_debit b
  /\ ae_credit a = ae_credit b /\ ae_createdAt a = ae_createdAt b.
Proof. unfold entry_frame. intros H. injection H. intuition. Qed.

Lemma map_key_same {A B} (key : A -> B) (g : A -> A) (l : list A) :
  (forall a, key (g a) = key a) -> map key (map g l) = map key l.
Proof. intros H. rewrite map_map. apply map_ext. exact H. Qed.

(** Rewriting invoices and ledger rows without touching the fields the
    invariant reads keeps it. *)
Lemma ledger_wf_map (g : Invoice -> Invoice) (h : AccountEntry -> AccountEntry)
    (invs : list Invoice) (es : list AccountEntry) :
  (forall i, inv_view (g i) = inv_view i) ->
  (forall e, entry_frame (h e) = entry_frame e) ->
  ledger_wf invs es -> ledger_wf (map g invs) (map h es).
Proof.
  intros Hg Hh (N1 & N2 & N3 & HA & HE & HD).
  assert (Hgf := fun i => inv_view_fields _ _ (Hg i)).
  assert (Hhf := fun e => entry_frame_fields _ _ (Hh e)).
  unfold ledger_wf. repeat split.
  - rewrite map_key_same; [exact N1|]. intros i. apply Hgf.
  - rewrite map_key_same; [exact N2|]. intros e. apply Hhf.
  - rewrite map_key_same; [exact N3|]. intros i. apply Hgf.
  - apply Forall_map. eapply Forall_impl; [|exact HA].
    intros i Hi. cbv beta. destruct (Hgf i) as (_ & _ & _ & -> & _). exact Hi.
  - apply Forall_map. eapply Forall_impl; [|exact HE].
    intros e [(i & Hi & Hid & Hcl) Hp]. cbv beta.
    destruct (Hhf e) as (_ & Hc & Hv & Hd & Hcr & _). split.
    + exists (g i). destruct (Hgf i) as (Ei & Ec & _).
      split; [apply in_map; exact Hi|]. split; congruence.
    + unfold entry_pure in *. rewrite Hd, Hcr. exact Hp.
  - apply Forall_map. eapply Forall_impl; [|exact HD].
    intros i (d & Hrows & Hdeb & Hat). cbv beta.
    destruct (Hgf i) as (Ei & _ & _ & Ea & Et).
    exists (h d). unfold debit_rows in *. rewrite Ei.
    rewrite filter_map_comm.
    + rewrite Hrows. split; [reflexivity|].
      destruct (Hhf d) as (_ & _ & _ & Hd' & _ & Ht'). split; congruence.
    + intros e. destruct (Hhf e) as (_ & _ & -> & -> & _). reflexivity.
Qed.

Lemma ledger_wf_map_invoices (g : Invoice -> Invoice) invs es :
  (forall i, inv_view (g i) = inv_view i) ->
  ledger_wf invs es -> ledger_wf (map g invs) es.
Proof.
  intros Hg H. rewrite <- (map_id es).
  apply ledger_wf_map; [exact Hg|reflexivity|exact H].
Qed.

Lemma ledger_wf_map_entries (h : AccountEntry -> AccountEntry) invs es :
  (forall e, entry_frame (h e) = entry_frame e) ->
  ledger_wf invs es -> ledger_wf invs (map h es).
Proof.
  intros Hh H. rewrite <- (map_id invs).
  apply ledger_wf_map; [reflexivity|exact Hh|exact H].
Qed.

Lemma entry_linked_more invs invs' e :
  (forall i, In i invs -> In i invs') ->
  entry_linked invs e -> entry_linked invs' e.
Proof. intros Hsub (i & Hi & H). exists i. split; [apply Hsub; exact Hi|exact H]. Qed.

Lemma debit_rows_app es es' id :
  debit_rows (es ++ es') id = debit_rows es id ++ debit_rows es' id.
Proof. unfold debit_rows. apply filter_app. Qed.

Lemma debit_rows_not_linked invs es id :
  Forall (fun e => entry_linked invs e /\ entry_pure e) es ->
  ~ In id (map inv_id invs) -> debit_rows es id = [].
Proof.
  intros HE Hnew. unfold debit_rows. apply filter_none. intros e He.
  rewrite Forall_forall in HE. destruct (HE e He) as [(i & Hi & Hid & _) _].
  destruct (ae_invoiceId e =? id) eqn:E; [|reflexivity].
  apply Z.eqb_eq in E. exfalso. apply Hnew. rewrite <- E, <- Hid.
  apply in_map. exact Hi.
Qed.

(** A credit row for a stored invoice of the same client may be appended. *)
Lemma ledger_wf_credit invs es (e : AccountEntry) :
  ledger_wf invs es ->
  ~ In (ae_id e) (map ae_id es) ->
  entry_linked invs e -> ae_debit e = 0 -> 0 < ae_credit e ->
  ledger_wf invs (es ++ [e]).
Proof.
  intros (N1 & N2 & N3 & HA & HE & HD) Hfresh Hlink Hd Hc.
  unfold ledger_wf. repeat split; try assumption.
  - rewrite map_app. apply NoDup_snoc; assumption.
  - apply Forall_app. split; [exact HE|]. constructor; [|constructor].
    split; [exact Hlink|]. right. split; assumption.
  - eapply Forall_impl; [|exact HD]. intros i (d & Hrows & H). exists d.
    rewrite debit_rows_app, Hrows. split; [|exact H].
    unfold debit_rows. cbn [filter]. rewrite Hd.
    rewrite andb_false_r. reflexivity.
Qed.

(** A new invoice may be appended together with its debit row. *)
Lemma ledger_wf_invoice invs es (i : Invoice) (d : AccountEntry) :
  ledger_wf invs es ->
  ~ In (inv_id i) (map inv_id invs) ->
  ~ In (ae_id d) (map ae_id es) ->
  (forall w, inv_workOrderId i = Some w ->
             forall j, In j invs -> inv_workOrderId j <> Some w) ->
  0 < inv_amount i ->
  ae_invoiceId d = inv_id i -> ae_clientId d = inv_clientId i ->
  ae_debit d = inv_amount i -> ae_credit d = 0 ->
  ae_createdAt d = inv_createdAt i ->
  ledger_wf (invs ++ [i]) (es ++ [d]).
Proof.
  intros (N1 & N2 & N3 & HA & HE & HD) Hni Hnd Hw Hpos Hinv Hcl Hdeb Hcr Hat.
  unfold ledger_wf. repeat split.
  - rewrite map_app. apply NoDup_snoc; assumption.
  - rewrite map_app. apply NoDup_snoc; assumption.
  - rewrite map_app. unfold somes. rewrite flat_map_app. fold (@somes Id).
    cbn [map flat_map]. destruct (inv_workOrderId i) as [w|] eqn:Ew.
    + cbn [app]. apply NoDup_snoc; [exact N3|].
      intros Hin. apply somes_In in Hin. apply in_map_iff in Hin.
      destruct Hin as (j & Hj & Hjin). exact (Hw w eq_refl j Hjin Hj).
    + cbn [app]. rewrite app_nil_r. exact N3.
  - apply Forall_app. split; [exact HA|]. constructor; [exact Hpos|constructor].
  - apply Forall_app. split.
    + eapply Forall_impl; [|exact HE]. intros e [Hl Hp]. split; [|exact Hp].
      eapply entry_linked_more; [|exact Hl]. intros j Hj. apply in_or_app. auto.
    + constructor; [|constructor]. split.
      * exists i. split; [apply in_or_app; right; left; reflexivity|]. auto.
      * left. split; [zlia|exact Hcr].
  - apply Forall_app. split.
    + rewrite Forall_forall in HD |- *. intros j Hj.
      destruct (HD j Hj) as (dj & Hrows & H). exists dj.
      rewrite debit_rows_app, Hrows. split; [|exact H].
      unfold debit_rows. cbn [filter]. rewrite Hinv.
      replace (inv_id i =? inv_id j) with false; [reflexivity|].
      symmetry. apply Z.eqb_neq. intros E. apply Hni. rewrite E.
      apply in_map. exact Hj.
    + constructor; [|constructor]. exists d.
      rewrite debit_rows_app, (debit_rows_not_linked invs es _ HE Hni).
      unfold debit_rows. cbn [filter app]. rewrite Hinv, Z.eqb_refl.
      replace (0 <? ae_debit d) with true by (symmetry; apply Z.ltb_lt; zlia).
      cbn [andb]. auto.
Qed.

Lemma filter_absorbs {A} (q keep : A -> bool) (l : list A) :
  (forall x, In x l -> q x = true -> keep x = true) ->
  filter q (filter keep l) = filter q l.
Proof.
  induction l as [|x l IH]; intros H; [reflexivity|].
  cbn [filter]. destruct (keep x) eqn:Hk.
  - cbn [filter]. rewrite IH; [reflexivity|]. intros y Hy. apply H. right. exact Hy.
  - destruct (q x) eqn:Hq.
    + rewrite (H x (or_introl eq_refl) Hq) in Hk. discriminate.
    + apply IH. intros y Hy. apply H. right. exact Hy.
Qed.

Lemma Forall_kept {A} (P : A -> Prop) (keep : A -> bool) (l : list A) :
  Forall P l -> Forall P (filter keep l).
Proof.
  rewrite !Forall_forall. intros H x Hx. apply filter_In in Hx. apply H, Hx.
Qed.

Lemma somes_kept_NoDup {A B} (f : A -> option B) (keep : A -> bool)
    (rows : list A) :
  NoDup (somes (map f rows)) -> NoDup (somes (map f (filter keep rows))).
Proof.
  induction rows as [|x rows IH]; intros H; [exact H|].
  cbn [filter]. assert (Hrest : NoDup (somes (map f rows))).
  { cbn [map somes flat_map] in H. destruct (f x); [|exact H].
    cbn [app] in H. inversion H. assumption. }
  destruct (keep x); [|apply IH; exact Hrest].
  cbn [map somes flat_map] in H |- *. fold (somes (map f rows)) in H.
  fold (somes (map f (filter keep rows))).
  destruct (f x) as [b|]; [|apply IH; exact Hrest].
  cbn [app] in H |- *. inversion H as [|? ? Hnotin Hnd]; subst.
  constructor; [|apply IH; exact Hrest].
  intros Hin. apply Hnotin. apply somes_In in Hin. apply somes_In.
  apply in_map_iff in Hin. destruct Hin as (y & Hy & Hyin).
  apply filter_In in Hyin. rewrite <- Hy. apply in_map. apply Hyin.
Qed.

(** Rows without a debit may be dropped. *)
Lemma ledger_wf_drop_credits (keep : AccountEntry -> bool) invs es :
  ledger_wf invs es ->
  (forall e, In e es -> keep e = false -> ae_debit e = 0) ->
  ledger_wf invs (filter keep es).
Proof.
  intros (N1 & N2 & N3 & HA & HE & HD) Hdrop.
  unfold ledger_wf. repeat split; try assumption.
  - apply NoDup_map_filter. exact N2.
  - apply Forall_kept. exact HE.
  - eapply Forall_impl; [|exact HD]. intros i (d & Hrows & H). exists d.
    split; [|exact H]. rewrite <- Hrows. unfold debit_rows.
    apply filter_absorbs. intros e He Hq.
    destruct (keep e) eqn:Hk; [reflexivity|].
    rewrite (Hdrop e He Hk) in Hq. rewrite andb_false_r in Hq. discriminate.
Qed.

(** An invoice may be dropped together with the rows that refer to it. *)
Lemma ledger_wf_delete_invoice (id : Id) invs es :
  ledger_wf invs es ->
  ledger_wf (filter (fun i => negb (inv_id i =? id)) invs)
            (filter (fun e => negb (ae_invoiceId e =? id)) es).
Proof.
  intros (N1 & N2 & N3 & HA & HE & HD).
  unfold ledger_wf. repeat split.
  - apply NoDup_map_filter. exact N1.
  - apply NoDup_map_filter. exact N2.
  - apply somes_kept_NoDup. exact N3.
  - apply Forall_kept. exact HA.
  - rewrite Forall_forall in HE |- *. intros e He. apply filter_In in He.
    destruct He as [He Hk]. destruct (HE e He) as [(i & Hi & Hid & Hcl) Hp].
    split; [|exact Hp]. exists i. split; [|auto].
    apply filter_In. split; [exact Hi|]. rewrite Hid. exact Hk.
  - rewrite Forall_forall in HD |- *. intros i Hi. apply filter_In in Hi.
    destruct Hi as [Hi Hk]. destruct (HD i Hi) as (d & Hrows & H). exists d.
    split; [|exact H]. rewrite <- Hrows. unfold debit_rows.
    apply filter_absorbs. intros e He Hq.
    apply andb_true_iff in Hq. destruct Hq as [Hq _]. apply Z.eqb_eq in Hq.
    rewrite Hq. exact Hk.
Qed.

Lemma debit_row_facts invs es (i : Invoice) (d : AccountEntry) :
  ledger_wf invs es -> In i invs -> debit_rows es (inv_id i) = [d] ->
  In d es /\ ae_invoiceId d = inv_id i /\ 0 < ae_debit d /\ ae_credit d = 0
  /\ ae_clientId d = inv_clientId i.
Proof.
  intros (N1 & _ & _ & _ & HE & _) Hi Hrows.
  assert (Hd : In d (debit_rows es (inv_id i))) by (rewrite Hrows; left; reflexivity).
  unfold debit_rows in Hd. apply filter_In in Hd. destruct Hd as [Hd Hq].
  apply andb_true_iff in Hq. destruct Hq as [Hq1 Hq2].
  apply Z.eqb_eq in Hq1. apply Z.ltb_lt in Hq2.
  rewrite Forall_forall in HE. destruct (HE d Hd) as [(j & Hj & Hid & Hcl) Hp].
  assert (j = i) by (eapply NoDup_map_In_eq; eauto; congruence). subst j.
  repeat split; auto.
  destruct Hp as [[_ Hc]|[H0 _]]; [exact Hc|zlia].
Qed.

Lemma filter_map_rows {A} (p : A -> bool) (f : A -> A) (l : list A) :
  (forall a, In a l -> p (f a) = p a) ->
  filter p (map f l) = map f (filter p l).
Proof.
  induction l as [|x l IH]; intros H; [reflexivity|].
  cbn [map filter]. rewrite (H x (or_introl eq_refl)).
  rewrite IH by (intros a Ha; apply H; right; exact Ha).
  destruct (p x); reflexivity.
Qed.

(** The amount of an invoice and the debit of its row may change together. *)
Lemma ledger_wf_amount invs es (x : Invoice) (d : AccountEntry) (a : Amount) :
  ledger_wf invs es -> In x invs -> debit_rows es (inv_id x) = [d] -> 0 < a ->
  ledger_wf
    (map (fun i => if inv_id i =? inv_id x then set_inv_amount a i else i) invs)
    (map (fun e => if ae_id e =? ae_id d then set_ae_debit a e else e) es).
Proof.
  intros Hwf Hx Hrows Ha.
  destruct (debit_row_facts _ _ _ _ Hwf Hx Hrows) as (Hd & Hdi & Hdp & Hdc & Hdcl).
  pose proof Hwf as (N1 & N2 & N3 & HA & HE & HD).
  set (g := fun i => if inv_id i =? inv_id x then set_inv_amount a i else i).
  set (h := fun e => if ae_id e =? ae_id d then set_ae_debit a e else e).
  assert (Hg : forall i, inv_id (g i) = inv_id i /\ inv_clientId (g i) = inv_clientId i
                         /\ inv_workOrderId (g i) = inv_workOrderId i
                         /\ inv_createdAt (g i) = inv_createdAt i).
  { intros i. unfold g. destruct (inv_id i =? inv_id x); auto. }
  assert (Hh : forall e, ae_id (h e) = ae_id e /\ ae_clientId (h e) = ae_clientId e
                         /\ ae_invoiceId (h e) = ae_invoiceId e
                         /\ ae_credit (h e) = ae_credit e
                         /\ ae_createdAt (h e) = ae_createdAt e).
  { intros e. unfold h. destruct (ae_id e =? ae_id d); repeat split; reflexivity. }
  assert (Hhd : forall e, In e es -> ae_id e = ae_id d -> e = d).
  { intros e He Hid. eapply NoDup_map_In_eq; eauto. }
  unfold ledger_wf. repeat split.
  - rewrite map_key_same; [exact N1|]. intros i. apply Hg.
  - rewrite map_key_same; [exact N2|]. intros e. apply Hh.
  - rewrite map_key_same; [exact N3|]. intros i. apply Hg.
  - apply Forall_map. eapply Forall_impl; [|exact HA]. intros i Hi. cbv beta.
    unfold g. destruct (inv_id i =? inv_id x); [exact Ha|exact Hi].
  - apply Forall_map. rewrite Forall_forall in HE |- *. intros e He.
    destruct (HE e He) as [(i & Hi & Hid & Hcl) Hp].
    destruct (Hh e) as (_ & Hc & Hv & Hcr & _). split.
    + exists (g i). destruct (Hg i) as (Ei & Ec & _).
      split; [apply in_map; exact Hi|]. split; congruence.
    + unfold entry_pure. rewrite Hcr. unfold h.
      destruct (ae_id e =? ae_id d) eqn:E; [|exact Hp].
      apply Z.eqb_eq in E. rewrite (Hhd e He E). cbn [set_ae_debit ae_debit].
      left. split; [exact Ha|exact Hdc].
  - apply Forall_map. rewrite Forall_forall in HD |- *. intros i Hi.
    destruct (HD i Hi) as (di & Hri & Hdeb & Hat).
    destruct (debit_row_facts _ _ _ _ Hwf Hi Hri)
      as (Hdi_in & Hdi_inv & Hdi_pos & _).
    destruct (Hg i) as (Ei & _ & _ & Et).
    exists (h di). unfold debit_rows in *. rewrite Ei.
    rewrite filter_map_rows.
    + rewrite Hri. split; [reflexivity|].
      destruct (Hh di) as (_ & _ & _ & _ & Ht'). rewrite Ht', Et.
      split; [|exact Hat]. unfold g, h.
      destruct (inv_id i =? inv_id x) eqn:Eix.
      * apply Z.eqb_eq in Eix. rewrite Eix in Hri. rewrite Hrows in Hri.
        injection Hri as <-. rewrite Z.eqb_refl. reflexivity.
      * replace (ae_id di =? ae_id d) with false; [exact Hdeb|].
        symmetry. apply Z.eqb_neq. intros E.
        assert (di = d) by (apply Hhd; assumption). subst di.
        apply Z.eqb_neq in Eix. congruence.
    + intros e He. destruct (Hh e) as (_ & _ & -> & _). unfold h.
      destruct (ae_id e =? ae_id d) eqn:E; [|reflexivity].
      apply Z.eqb_eq in E. rewrite (Hhd e He E).
      cbn [set_ae_debit ae_debit]. f_equal.
      transitivity true; [apply Z.ltb_lt; exact Ha|].
      symmetry. apply Z.ltb_lt. exact Hdp.
Qed.

Lemma most_recent_invoice_In s clientId i :
  most_recent_invoice s clientId = Some i ->
  In i (invoices s) /\ inv_clientId i = clientId.
Proof.
  unfold most_recent_invoice, maybeSingle. intros H.
  assert (Hin : In i (order_by (desc inv_createdAt)
                        (filter (fun i => inv_clientId i =? clientId)
                                (invoices s)))).
  { destruct (order_by _ _) as [|x l]; [discriminate|].
    injection H as ->. left. reflexivity. }
  apply order_by_In, filter_In in Hin. destruct Hin as [Hin Hc].
  apply Z.eqb_eq in Hc. auto.
Qed.

Lemma recordPayment_ledger_inv env s payload s' created :
  uuid_fresh env s -> ledger_inv s ->
  Billing.recordPayment env s payload = Ok (s', created) ->
  ledger_inv s'.
Proof.
  intros (_ & _ & _ & Hfresh) Hwf Hrun.
  destruct (recordPayment_ok_pre _ _ _ _ _ Hrun) as [Hin Hpos].
  pose proof (recordPayment_effect env s payload Hin Hpos) as Heff.
  cbv zeta in Heff. rewrite Heff in Hrun. injection Hrun as <- <-.
  unfold ledger_inv. cbn [invoices account_entries].
  rewrite fold_settle_char.
  match goal with
  | |- ledger_wf (map ?g0 _) _ =>
      assert (Hwf1 : ledger_wf (map g0 (invoices s)) (account_entries s));
      [apply ledger_wf_map_invoices;
       [intros i; destruct (settled_by _ (inv_id i)); reflexivity|exact Hwf]|];
      set (g := g0) in *
  end.
  match goal with
  | |- context [match ?t with Some _ => _ | None => _ end] =>
      destruct t as [f|] eqn:Ht
  end.
  2:{ rewrite app_nil_r. exact Hwf1. }
  apply ledger_wf_credit; [exact Hwf1| | |reflexivity|exact Hpos].
  - cbn [credit_entry ae_id]. apply Hfresh.
  - assert (Hi : exists i, In i (invoices s) /\ inv_id i = f
                           /\ inv_clientId i = Billing.in_clientId payload).
    { destruct (allocation_plan (outstanding s) _ _) as [|a plan] eqn:Hplan.
      - cbn [payments_of] in Ht.
        destruct (most_recent_invoice s (Billing.in_clientId payload))
          as [i|] eqn:Hm; [|discriminate].
        cbn [option_map] in Ht. injection Ht as <-.
        apply most_recent_invoice_In in Hm. exists i. destruct Hm. auto.
      - cbn [payments_of payment_of pay_invoiceId] in Ht. injection Ht as <-.
        pose proof (allocation_plan_bounds (outstanding s)
                      (pending_invoices s (Billing.in_clientId payload))
                      (Billing.in_amount payload)) as Hb.
        rewrite Hplan in Hb. inversion Hb as [|? ? (_ & _ & i & Hi & Hid & _) _].
        apply pending_invoices_In in Hi. exists i.
        destruct Hi as (Hi & Hcl & _). auto. }
    destruct Hi as (i & Hi & Hid & Hcl). exists (g i).
    split; [apply in_map; exact Hi|].
    unfold g. destruct (settled_by _ (inv_id i)); cbn; auto.
Qed.

Lemma createInvoiceFromOrder_ledger_inv env s orderId s' invoice :
  uuid_fresh env s -> ledger_inv s ->
  Billing.createInvoiceFromOrder env s orderId = Ok (s', invoice) ->
  ledger_inv s'.
Proof.
  intros (Hinj & Hfi & _ & Hfe) Hwf Hrun.
  destruct (createInvoiceFromOrder_run _ _ _ _ _ Hrun)
    as (order & clientId & _ & Hid & _ & _ & Hnone & Hpos & Hres).
  unfold invoiced_store in Hres. injection Hres as -> ->.
  unfold ledger_inv. cbn [invoices account_entries].
  apply ledger_wf_invoice; try assumption; try reflexivity.
  - apply Hfi.
  - apply Hfe.
  - cbn [inv_workOrderId]. intros w Hw j Hj. injection Hw as <-.
    rewrite Hid. apply Hnone. exact Hj.
Qed.

Lemma debit_entry_of_wf s (invoice : Invoice) :
  ledger_inv s -> In invoice (invoices s) ->
  exists d, debit_entry_of s invoice = Some d
            /\ debit_rows (account_entries s) (inv_id invoice) = [d].
Proof.
  intros Hwf Hin.
  pose proof Hwf as (_ & _ & _ & _ & _ & HD).
  rewrite Forall_forall in HD. destruct (HD invoice Hin) as (d & Hrows & Hdeb & _).
  destruct (debit_row_facts _ _ _ _ Hwf Hin Hrows) as (Hd & Hdi & Hdp & _ & Hdc).
  exists d. split; [|exact Hrows].
  assert (Honly : forall e, In e (account_entries s) ->
                    ae_invoiceId e = inv_id invoice -> 0 < ae_debit e -> e = d).
  { intros e He Hv Hp.
    assert (Hr : In e (debit_rows (account_entries s) (inv_id invoice))).
    { unfold debit_rows. apply filter_In. split; [exact He|].
      apply andb_true_iff. split; [apply Z.eqb_eq; exact Hv|apply Z.ltb_lt; exact Hp]. }
    rewrite Hrows in Hr. destruct Hr as [<-|[]]. reflexivity. }
  unfold debit_entry_of.
  pose proof (earliest_spec (filter (debit_entry_matches invoice)
                                    (account_entries s))) as H1.
  destruct (earliest (filter (debit_entry_matches invoice) (account_entries s)))
    as [e|].
  - destruct H1 as [He _]. apply filter_In in He. destruct He as [He Hm].
    unfold debit_entry_matches in Hm.
    apply andb_true_iff in Hm. destruct Hm as [Hm _].
    apply andb_true_iff in Hm. destruct Hm as [Hm Hdb].
    apply andb_true_iff in Hm. destruct Hm as [_ Hv].
    apply Z.eqb_eq in Hv, Hdb. f_equal. apply Honly; [exact He|exact Hv|].
    rewrite Hdb, <- Hdeb. exact Hdp.
  - pose proof (earliest_spec (filter (debit_entry_fallback invoice)
                                      (account_entries s))) as H2.
    destruct (earliest (filter (debit_entry_fallback invoice) (account_entries s)))
      as [e|].
    + destruct H2 as [He _]. apply filter_In in He. destruct He as [He Hm].
      unfold debit_entry_fallback in Hm.
      apply andb_true_iff in Hm. destruct Hm as [Hm Hdb].
      apply andb_true_iff in Hm. destruct Hm as [_ Hv].
      apply Z.eqb_eq in Hv. apply Z.ltb_lt in Hdb. f_equal. apply Honly; assumption.
    + exfalso.
      assert (Hf : In d (filter (debit_entry_fallback invoice) (account_entries s))).
      { apply filter_In. split; [exact Hd|]. unfold debit_entry_fallback.
        rewrite Hdc, Hdi, !Z.eqb_refl. cbn [andb]. apply Z.ltb_lt. exact Hdp. }
      rewrite H2 in Hf. contradiction.
Qed.

Lemma PATCH_ledger_inv s invoiceId amountValue s' :
  ledger_inv s ->
  InvoiceRoute.PATCH s invoiceId amountValue = Ok s' ->
  ledger_inv s'.
Proof.
  intros Hwf Hrun.
  destruct (PATCH_tables _ _ _ _ Hrun) as (invoice & Hfind & Hpos & _).
  destruct (PATCH_effect s invoiceId amountValue invoice Hpos Hfind)
    as (s'' & Hrun' & _ & _ & _ & Hinvs & Hes).
  rewrite Hrun in Hrun'. injection Hrun' as <-.
  apply maybeSingle_filter_In in Hfind. destruct Hfind as [Hin Hid].
  apply Z.eqb_eq in Hid.
  unfold ledger_inv. rewrite Hinvs, Hes.
  destruct (inv_amount invoice =? amountValue).
  - unfold update_where. apply ledger_wf_map_invoices; [|exact Hwf].
    intros i. destruct (inv_id i =? _); reflexivity.
  - unfold edited_ledger. rewrite recomputeBalances_char.
    cbn [account_entries with_account_entries].
    destruct (debit_entry_of_wf s invoice Hwf Hin) as (d & -> & Hrows).
    unfold update_where. apply ledger_wf_map.
    + intros i. destruct (inv_id i =? _); reflexivity.
    + intros e. apply rewrite_balance_frame.
    + rewrite <- Hid. apply ledger_wf_amount; assumption.
Qed.

Lemma deleteInvoice_ledger_inv s invoiceId s' :
  ledger_inv s ->
  InvoiceRoute.DELETE s invoiceId = Ok s' ->
  ledger_inv s'.
Proof.
  intros Hwf Hrun.
  destruct (deleteInvoice_tables _ _ _ Hrun) as (invoice & _ & Hinvs & _ & Hes).
  unfold ledger_inv. rewrite Hinvs, Hes, recomputeBalances_char.
  cbn [account_entries with_account_entries]. unfold delete_where.
  apply ledger_wf_map_entries; [intros e; apply rewrite_balance_frame|].
  apply ledger_wf_delete_invoice. exact Hwf.
Qed.

Lemma deletePayment_ledger_inv s paymentId s' :
  billing_inv s -> ledger_inv s ->
  PaymentRoute.DELETE s paymentId = Ok s' ->
  ledger_inv s'.
Proof.
  intros (_ & _ & Hpos & _) Hwf Hrun.
  destruct (deletePayment_tables _ _ _ Hrun) as (payment & invoice & Hp & Hi & _).
  destruct (deletePayment_effect s paymentId payment invoice Hp Hi)
    as (s'' & Hrun' & _ & _ & _ & Hes & Hinvs).
  rewrite Hrun in Hrun'. injection Hrun' as <-.
  unfold ledger_inv. rewrite Hinvs, Hes.
  unfold ledger_without_credit.
  rewrite recomputeBalances_same, recomputeBalances_char.
  cbn [account_entries with_account_entries].
  assert (Hwf1 : ledger_wf (invoices s)
                   (match credit_entry_of s invoice payment with
                    | Some found =>
                        delete_where (fun e => ae_id e =? ae_id found)
                                     (account_entries s)
                    | None => account_entries s
                    end)).
  { unfold credit_entry_of.
    pose proof (earliest_spec (filter (credit_entry_matches invoice payment)
                                      (account_entries s))) as Hspec.
    destruct (earliest _) as [found|]; [|exact Hwf].
    destruct Hspec as [Hf _]. apply filter_In in Hf. destruct Hf as [Hf Hm].
    unfold delete_where. apply ledger_wf_drop_credits; [exact Hwf|].
    intros e He Hk. apply negb_false_iff, Z.eqb_eq in Hk.
    pose proof Hwf as (_ & N2 & _ & _ & HE & _).
    assert (e = found) by (eapply NoDup_map_In_eq; eauto). subst e.
    unfold credit_entry_matches in Hm.
    apply andb_true_iff in Hm. destruct Hm as [Hm _].
    apply andb_true_iff in Hm. destruct Hm as [_ Hc]. apply Z.eqb_eq in Hc.
    apply maybeSingle_filter_In in Hp. destruct Hp as [Hp _].
    rewrite Forall_forall in Hpos. specialize (Hpos payment Hp).
    rewrite Forall_forall in HE. destruct (HE found Hf) as [_ [[Hd H0]|[Hd _]]];
      [zlia|exact Hd]. }
  destruct (paid s' (inv_id invoice) <? inv_amount invoice).
  - unfold update_where. apply ledger_wf_map;
      [intros i; destruct (inv_id i =? _); reflexivity
      |intros e; apply rewrite_balance_frame|exact Hwf1].
  - apply ledger_wf_map_entries; [intros e; apply rewrite_balance_frame|exact Hwf1].
Qed.

Lemma step_ledger_inv s s' :
  step s s' -> billing_inv s -> ledger_inv s -> ledger_inv s'.
Proof.
  intros Hstep Hb Hl. destruct Hstep.
  - eapply createInvoiceFromOrder_ledger_inv; eauto.
  - eapply recordPayment_ledger_inv; eauto.
  - eapply PATCH_ledger_inv; eauto.
  - eapply deleteInvoice_ledger_inv; eauto.
  - eapply deletePayment_ledger_inv; eauto.
  - exact Hl.
Qed.

Lemma reachable_ledger_inv s : reachable s -> ledger_inv s.
Proof.
  induction 1 as [profiles orders|s s' Hr IH Hstep].
  - unfold ledger_inv, ledger_wf. cbn. repeat split; constructor.
  - eapply step_ledger_inv; eauto. apply reachable_inv. exact Hr.
Qed.

Lemma somes_key_unique {A B} (f : A -> option B) (rows : list A) (a b : A)
    (w : B) :
  NoDup (somes (map f rows)) -> In a rows -> In b rows ->
  f a = Some w -> f b = Some w -> a = b.
Proof.
  induction rows as [|x rows IH]; intros Hnd Ha Hb Hfa Hfb; [contradiction|].
  assert (Hrest : NoDup (somes (map f rows)) /\
                  (forall y, In y rows -> f y = f x -> f x = None)).
  { cbn [map somes flat_map] in Hnd. fold (somes (map f rows)) in Hnd.
    destruct (f x) as [v|] eqn:Hx; [|split; [exact Hnd|reflexivity]].
    cbn [app] in Hnd. inversion Hnd as [|? ? Hnotin Hnd']; subst.
    split; [exact Hnd'|]. intros y Hy Hfy. exfalso. apply Hnotin.
    apply somes_In. rewrite <- Hfy. apply in_map. exact Hy. }
  destruct Hrest as [Hnd' Hclash].
  destruct Ha as [<-|Ha], Hb as [<-|Hb].
  - reflexivity.
  - specialize (Hclash b Hb). rewrite Hfa, Hfb in Hclash.
    specialize (Hclash eq_refl). discriminate.
  - specialize (Hclash a Ha). rewrite Hfa, Hfb in Hclash.
    specialize (Hclash eq_refl). discriminate.
  - apply IH; assumption.
Qed.



(** X5.  In every store reached from empty billing tables no work order has
    two invoices. *)
Theorem reachable_one_invoice_per_order (s : Store) (i j : Invoice) (w : Id) :
  reachable s -> In i (invoices s) -> In j (invoices s) ->
  inv_workOrderId i = Some w -> inv_workOrderId j = Some w -> i = j.
Proof.
  intros Hr Hi Hj Hwi Hwj.
  destruct (reachable_ledger_inv s Hr) as (_ & _ & N3 & _).
  eapply somes_key_unique; eauto.
Qed.

Lemma reachable_one_invoice_per_order_witness :
  reachable store2 /\ In paid_invoice (invoices store2)
  /\ inv_workOrderId paid_invoice = Some 10
  /\ paid_invoice = paid_invoice.
Proof.
  assert (Hin : In paid_invoice (invoices store2))
    by (vm_compute; left; reflexivity).
  split; [exact reachable_store2|]. split; [exact Hin|].
  split; [reflexivity|].
  exact (reachable_one_invoice_per_order store2 paid_invoice paid_invoice 10
           reachable_store2 Hin Hin eq_refl eq_refl).
Defined.

(** ** The statement of a client in a reachable store *)












(** ** Appends in chronological order *)

(** X7.  An invoice or a payment whose ledger row is dated after every row the
    client already has (those rows carrying distinct times) leaves the
    running-balance chain of the client consistent. *)
Theorem appends_in_order_keep_chain (env : Env) (s : Store) (clientId : Id) :
  ledger_ok s clientId = true ->
  NoDup (map ae_createdAt
           (filter (fun e => ae_clientId e =? clientId) (account_entries s))) ->
  (forall orderId s' invoice,
     Billing.createInvoiceFromOrder env s orderId = Ok (s', invoice) ->
     inv_clientId invoice = clientId ->
     (forall e, In e (account_entries s) -> ae_clientId e = clientId ->
                ae_createdAt e < env_now env) ->
     ledger_ok s' clientId = true)
  /\ (forall payload s' created,
        Billing.recordPayment env s payload = Ok (s', created) ->
        Billing.in_clientId payload = clientId ->
        (forall e, In e (account_entries s) -> ae_clientId e = clientId ->
                   ae_createdAt e
                   < orElse (Billing.in_date payload) (env_now env)) ->
        ledger_ok s' clientId = true).
Proof.
  intros Hok Hnd. split.
  - intros orderId s' invoice Hrun Hcl Hlate.
    destruct (createInvoiceFromOrder_run _ _ _ _ _ Hrun)
      as (order & c & _ & _ & _ & _ & _ & _ & Hres).
    unfold invoiced_store in Hres. injection Hres as -> ->.
    cbn [inv_clientId] in Hcl. subst c.
    pose proof (append_in_order_keeps_chain (env_now env) (env_uuid env 1) s
                  (Billing.mkEntryParams clientId (env_uuid env 0)
                     (resolved_amount order) 0 (Some (env_now env)))) as H.
    cbv zeta in H. cbn [Billing.p_clientId Billing.p_createdAt orElse] in H.
    specialize (H Hok Hlate Hnd). rewrite <- H.
    apply ledger_ok_entries_only. reflexivity.
  - intros payload s' created Hrun Hcl Hlate.
    destruct (recordPayment_ok_pre _ _ _ _ _ Hrun) as [Hin Hpos].
    pose proof (recordPayment_effect env s payload Hin Hpos) as Heff.
    cbv zeta in Heff. rewrite Heff in Hrun. injection Hrun as <- <-.
    match goal with
    | |- context [match ?t with Some _ => _ | None => _ end] =>
        destruct t as [f|]
    end.
    + pose proof (append_in_order_keeps_chain (env_now env)
                    (env_uuid env
                       (List.length
                          (payments_of env payload 0
                             (allocation_plan (outstanding s)
                                (pending_invoices s (Billing.in_clientId payload))
                                (Billing.in_amount payload))))) s
                    (Billing.mkEntryParams (Billing.in_clientId payload) f 0
                       (Billing.in_amount payload)
                       (Some (orElse (Billing.in_date payload) (env_now env)))))
        as H.
      cbv zeta in H. cbn [Billing.p_clientId Billing.p_createdAt] in H.
      rewrite Hcl in H. change (orElse (Some ?x) _) with x in H.
      specialize (H Hok Hlate Hnd). rewrite <- H.
      apply ledger_ok_entries_only. cbn [account_entries].
      unfold Billing.createAccountEntry, credit_entry. cbn. rewrite Hcl.
      reflexivity.
    + rewrite <- Hok. apply ledger_ok_entries_only. cbn [account_entries].
      apply app_nil_r.
Qed.

Lemma appends_in_order_keep_chain_witness :
  ledger_ok store1 1 = true
  /\ Billing.recordPayment (env_at 200000 200) store1
       (Billing.mkPaymentInput 1 2750 None None)
     = Ok (store2, [mkPayment 200 100 "MANUAL" EmptyString 2750 COMPLETED 200000])
  /\ ledger_ok store2 1 = true.
Proof.
  assert (Hok : ledger_ok store1 1 = true) by (vm_compute; reflexivity).
  assert (Hnd : NoDup (map ae_createdAt
                         (filter (fun e => ae_clientId e =? 1)
                                 (account_entries store1)))).
  { change (map ae_createdAt
              (filter (fun e => ae_clientId e =? 1) (account_entries store1)))
      with [100000].
    repeat constructor. cbn [In]. tauto. }
  assert (Hrun : Billing.recordPayment (env_at 200000 200) store1
                   (Billing.mkPaymentInput 1 2750 None None)
                 = Ok (store2,
                       [mkPayment 200 100 "MANUAL" EmptyString 2750 COMPLETED
                                  200000]))
    by (vm_compute; reflexivity).
  assert (Hlate : forall e, In e (account_entries store1) -> ae_clientId e = 1 ->
                    ae_createdAt e
                    < orElse (Billing.in_date
                                (Billing.mkPaymentInput 1 2750 None None))
                             (env_now (env_at 200000 200))).
  { change (account_entries store1)
      with [mkAccountEntry 101 1 100 2750 0 2750 100000].
    intros e [<-|[]] _. cbn. lia. }
  split; [exact Hok|]. split; [exact Hrun|].
  exact (proj2 (appends_in_order_keep_chain (env_at 200000 200) store1 1 Hok Hnd)
           (Billing.mkPaymentInput 1 2750 None None) store2 _ Hrun eq_refl Hlate).
Defined.

(** X8.  In a reachable store every repair path leaves the chain of the
    client consistent: an edit that changes the amount of an invoice, the
    deletion of an invoice and the deletion of a payment all end with stored
    balances that are the running sums of the client's rows. *)
Theorem repairs_restore_chain_when_reachable (s s' : Store) :
  reachable s ->
  (forall invoiceId amount invoice,
     maybeSingle (filter (fun i => inv_id i =? invoiceId) (invoices s))
     = Some invoice ->
     inv_amount invoice <> amount ->
     InvoiceRoute.PATCH s invoiceId amount = Ok s' ->
     ledger_ok s' (inv_clientId invoice) = true)
  /\ (forall invoiceId invoice,
        maybeSingle (filter (fun i => inv_id i =? invoiceId) (invoices s))
        = Some invoice ->
        InvoiceRoute.DELETE s invoiceId = Ok s' ->
        ledger_ok s' (inv_clientId invoice) = true)
  /\ (forall paymentId payment invoice,
        maybeSingle (filter (fun p => pay_id p =? paymentId) (payments s))
        = Some payment ->
        maybeSingle (filter (fun i => inv_id i =? pay_invoiceId payment)
                            (invoices s))
        = Some invoice ->
        PaymentRoute.DELETE s paymentId = Ok s' ->
        ledger_ok s' (inv_clientId invoice) = true).
Proof.
  intros Hr. destruct (reachable_ledger_inv s Hr) as (_ & Hnd & _).
  destruct (repair_paths_restore_chain s Hnd) as (Hedit & Hdel & Hpay).
  split; [|split].
  - intros invoiceId amount invoice Hfind Hne Hrun.
    destruct (PATCH_tables _ _ _ _ Hrun) as (_ & _ & Hpos & _).
    exact (Hedit invoiceId amount invoice s' Hpos Hfind Hne Hrun).
  - intros invoiceId invoice Hfind Hrun.
    exact (Hdel invoiceId invoice s' Hfind Hrun).
  - intros paymentId payment invoice Hp Hi Hrun.
    exact (Hpay paymentId payment invoice s' Hp Hi Hrun).
Qed.

Lemma reachable_store_backdated : reachable store_backdated.
Proof.
  eapply reach_step.
  - exact reachable_store1.
  - eapply (step_recordPayment (env_at 200000 200) store1
              (Billing.mkPaymentInput 1 1000 (Some 50000) None) store_backdated).
    + exact uuid_fresh_store1.
    + vm_compute. reflexivity.
Defined.

Lemma repairs_restore_chain_when_reachable_witness :
  ledger_ok store_backdated 1 = false
  /\ PaymentRoute.DELETE store_backdated 200 = Ok store1
  /\ ledger_ok store1 1 = true.
Proof.
  split; [vm_compute; reflexivity|].
  assert (Hp : maybeSingle (filter (fun p => pay_id p =? 200)
                                   (payments store_backdated))
               = Some (mkPayment 200 100 "MANUAL" EmptyString 1000 COMPLETED 50000))
    by (vm_compute; reflexivity).
  assert (Hi : maybeSingle
                 (filter (fun i => inv_id i =?
                                   pay_invoiceId
                                     (mkPayment 200 100 "MANUAL" EmptyString 1000
                                                COMPLETED 50000))
                         (invoices store_backdated))
               = Some pending_invoice)
    by (vm_compute; reflexivity).
  assert (Hrun : PaymentRoute.DELETE store_backdated 200 = Ok store1)
    by (vm_compute; reflexivity).
  split; [exact Hrun|].
  exact (proj2 (proj2 (repairs_restore_chain_when_reachable store_backdated
                         store1 reachable_store_backdated))
           200 _ pending_invoice Hp Hi Hrun).
Defined.

(** ** Deleting an invoice *)

Lemma deleteInvoice_eval s invoiceId :
  InvoiceRoute.DELETE s invoiceId
  = match maybeSingle (filter (fun i => inv_id i =? invoiceId) (invoices s)) with
    | None => Err InvoiceNotFound
    | Some invoice =>
        Ok (InvoiceRoute.recomputeBalances
              (mkStore (user_profiles s) (work_orders s)
                 (delete_where (fun i => inv_id i =? invoiceId) (invoices s))
                 (delete_where (fun p => pay_invoiceId p =? invoiceId)
                               (payments s))
                 (delete_where (fun e => ae_invoiceId e =? invoiceId)
                               (account_entries s)))
              (inv_clientId invoice))
    end.
Proof.
  unfold InvoiceRoute.DELETE.
  destruct (maybeSingle _); reflexivity.
Qed.

Lemma delete_where_gone {A} (p : A -> bool) (t : list A) (x : A) :
  In x (delete_where p t) <-> In x t /\ p x = false.
Proof.
  unfold delete_where. rewrite filter_In, negb_true_iff. reflexivity.
Qed.

(** X9.  Deleting an invoice removes the invoice, its payments and its ledger
    rows and nothing else; rows of other invoices keep every field but the
    recomputed balance, the order of the invoice has no invoice any more, and
    a second deletion fails. *)
Theorem deleteInvoice_cascades (s s' : Store) (invoiceId : Id) :
  InvoiceRoute.DELETE s invoiceId = Ok s' ->
  invoices s' = filter (fun i => negb (inv_id i =? invoiceId)) (invoices s)
  /\ payments s'
     = filter (fun p => negb (pay_invoiceId p =? invoiceId)) (payments s)
  /\ map entry_frame (account_entries s')
     = map entry_frame
         (filter (fun e => negb (ae_invoiceId e =? invoiceId))
                 (account_entries s))
  /\ user_profiles s' = user_profiles s
  /\ work_orders s' = work_orders s
  /\ (forall i, In i (invoices s') -> inv_id i <> invoiceId)
  /\ (forall p, In p (payments s') -> pay_invoiceId p <> invoiceId)
  /\ (forall e, In e (account_entries s') -> ae_invoiceId e <> invoiceId)
  /\ InvoiceRoute.DELETE s' invoiceId = Err InvoiceNotFound.
Proof.
  rewrite deleteInvoice_eval.
  destruct (maybeSingle (filter (fun i => inv_id i =? invoiceId) (invoices s)))
    as [invoice|]; [|discriminate].
  intros H. injection H as <-.
  rewrite recomputeBalances_char.
  cbn [invoices payments account_entries user_profiles work_orders
       with_account_entries].
  assert (Hinv : forall i, In i (delete_where (fun i => inv_id i =? invoiceId)
                                              (invoices s)) ->
                   inv_id i <> invoiceId).
  { intros i Hi. apply delete_where_gone in Hi. destruct Hi as [_ Hi].
    apply Z.eqb_neq. exact Hi. }
  split; [reflexivity|]. split; [reflexivity|]. split.
  { rewrite map_map. apply map_ext. intros e. apply rewrite_balance_frame. }
  split; [reflexivity|]. split; [reflexivity|]. split; [exact Hinv|]. split.
  { intros p Hp. apply delete_where_gone in Hp. destruct Hp as [_ Hp].
    apply Z.eqb_neq. exact Hp. }
  split.
  { intros e He. apply in_map_iff in He. destruct He as (e0 & <- & He0).
    apply delete_where_gone in He0. destruct He0 as [_ He0].
    apply Z.eqb_neq in He0.
    pose proof (entry_frame_fields _ _ (rewrite_balance_frame
                  (writes 0 (client_ledger
                     (mkStore (user_profiles s) (work_orders s)
                        (delete_where (fun i => inv_id i =? invoiceId) (invoices s))
                        (delete_where (fun p => pay_invoiceId p =? invoiceId)
                                      (payments s))
                        (delete_where (fun e => ae_invoiceId e =? invoiceId)
                                      (account_entries s)))
                     (inv_clientId invoice))) e0)) as (_ & _ & Hv & _).
    congruence. }
  rewrite deleteInvoice_eval. cbn [invoices].
  rewrite filter_none; [reflexivity|].
  intros i Hi. apply Z.eqb_neq. apply Hinv. exact Hi.
Qed.

Lemma deleteInvoice_cascades_witness :
  exists s',
    InvoiceRoute.DELETE store2 100 = Ok s'
    /\ List.length (payments store2) = 1%nat
    /\ payments s' = []
    /\ InvoiceRoute.DELETE s' 100 = Err InvoiceNotFound.
Proof.
  assert (Hrun : InvoiceRoute.DELETE store2 100
                 = Ok (mkStore (user_profiles store2) (work_orders store2)
                               [] [] []))
    by (vm_compute; reflexivity).
  eexists. split; [exact Hrun|]. split; [vm_compute; reflexivity|].
  split; [reflexivity|].
  exact (proj2 (proj2 (proj2 (proj2 (proj2 (proj2 (proj2 (proj2
           (deleteInvoice_cascades store2 _ 100 Hrun))))))))).
Defined.

(** ** Editing the amount twice *)

Lemma update_where_twice {A} (p : A -> bool) (f : A -> A) (t : list A) :
  (forall a, p (f a) = p a) -> (forall a, f (f a) = f a) ->
  update_where p f (update_where p f t) = update_where p f t.
Proof.
  intros Hp Hf. unfold update_where. rewrite map_map. apply map_ext.
  intros a. destruct (p a) eqn:E; [rewrite Hp, E; apply Hf|rewrite E; reflexivity].
Qed.

Lemma filter_update_where {A} (p : A -> bool) (f : A -> A) (t : list A) :
  (forall a, p (f a) = p a) ->
  filter p (update_where p f t) = map f (filter p t).
Proof.
  intros Hp. induction t as [|x t IH]; [reflexivity|].
  cbn [update_where map filter]. fold (update_where p f t).
  destruct (p x) eqn:E.
  - rewrite Hp, E. cbn [map]. rewrite IH. reflexivity.
  - rewrite E. exact IH.
Qed.

Lemma store_eq (s t : Store) :
  user_profiles t = user_profiles s -> work_orders t = work_orders s ->
  invoices t = invoices s -> payments t = payments s ->
  account_entries t = account_entries s -> t = s.
Proof. destruct s, t. cbn. intros -> -> -> -> ->. reflexivity. Qed.

(** X10.  An edit of the invoice amount is idempotent: repeating the accepted
    request changes nothing. *)
Theorem editInvoiceAmount_idempotent (s s' : Store) (invoiceId : Id)
    (amount : Amount) :
  InvoiceRoute.PATCH s invoiceId amount = Ok s' ->
  InvoiceRoute.PATCH s' invoiceId amount = Ok s'.
Proof.
  intros Hrun.
  destruct (PATCH_tables _ _ _ _ Hrun) as (invoice & Hfind & Hpos & Hpays & Hinvs).
  set (st := if paid s invoiceId >=? amount then PAID else PENDING) in *.
  assert (Hfind' : exists invoice',
             maybeSingle (filter (fun i => inv_id i =? invoiceId) (invoices s'))
             = Some invoice' /\ inv_amount invoice' = amount).
  { rewrite Hinvs. rewrite filter_update_where by reflexivity.
    destruct (inv_amount invoice =? amount) eqn:Ea; cbn [negb].
    - unfold maybeSingle in *.
      destruct (filter (fun i => inv_id i =? invoiceId) (invoices s))
        as [|x l]; [discriminate|].
      injection Hfind as ->. cbn [map hd_error]. eexists. split; [reflexivity|].
      apply Z.eqb_eq in Ea. exact Ea.
    - rewrite filter_update_where by reflexivity. unfold maybeSingle in *.
      destruct (filter (fun i => inv_id i =? invoiceId) (invoices s))
        as [|x l]; [discriminate|].
      cbn [map hd_error]. eexists. split; reflexivity. }
  destruct Hfind' as (invoice' & Hfind' & Hamt).
  destruct (PATCH_effect s' invoiceId amount invoice' Hpos Hfind')
    as (s2 & Hrun2 & Hu & Hw & Hp & Hi & He).
  rewrite Hrun2. f_equal.
  rewrite Hamt, Z.eqb_refl in Hi, He.
  apply store_eq; try assumption.
  rewrite Hi. rewrite (paid_ext s s' invoiceId Hpays). fold st.
  rewrite Hinvs. apply update_where_twice; reflexivity.
Qed.

Lemma editInvoiceAmount_idempotent_witness :
  exists s',
    InvoiceRoute.PATCH store1 100 3000 = Ok s'
    /\ map inv_amount (invoices s') = [3000]
    /\ InvoiceRoute.PATCH s' 100 3000 = Ok s'.
Proof.
  eexists.
  assert (Hrun : InvoiceRoute.PATCH store1 100 3000
                 = Ok (mkStore (user_profiles store1) (work_orders store1)
                         [mkInvoice 100 1 (Some 10) 3000 "ARS" 100000 PENDING
                                    100000]
                         []
                         [mkAccountEntry 101 1 100 3000 0 3000 100000]))
    by (vm_compute; reflexivity).
  split; [exact Hrun|]. split; [reflexivity|].
  exact (editInvoiceAmount_idempotent store1 _ 100 3000 Hrun).
Defined.

(** ** Creating an invoice and deleting it again *)

Lemma map_same_on {A B} (f : B -> Z) (g : A -> B) (h : A -> B) (l : list A) :
  map f (map g l) = map f (map h l) ->
  forall x, In x l -> f (g x) = f (h x).
Proof.
  induction l as [|y l IH]; intros H x Hx; [contradiction|].
  cbn [map] in H. injection H as H1 H2.
  destruct Hx as [<-|Hx]; [exact H1|apply IH; assumption].
Qed.

(** A ledger whose chain is consistent is a fixed point of the
    recomputation. *)
Lemma recompute_consistent_ledger s c :
  NoDup (map ae_id (account_entries s)) ->
  ledger_ok s c = true ->
  account_entries (InvoiceRoute.recomputeBalances s c) = account_entries s.
Proof.
  intros Hnd Hok. rewrite recomputeBalances_char.
  cbn [account_entries with_account_entries].
  set (L := client_ledger s c).
  assert (HL : NoDup (map ae_id L)) by (apply client_ledger_NoDup; exact Hnd).
  assert (Hbal : map ae_balanceAfter (map (rewrite_balance (writes 0 L)) L)
                 = map ae_balanceAfter (map (fun e => e) L)).
  { rewrite map_id, (rewrite_ledger_running L 0 HL).
    symmetry. apply chain_ok_running. exact Hok. }
  rewrite <- (map_id (account_entries s)) at 2.
  apply map_ext_in. intros e He.
  destruct (in_dec Z.eq_dec (ae_id e) (map ae_id L)) as [Hin|Hout].
  - assert (HeL : In e L).
    { apply in_map_iff in Hin. destruct Hin as (e' & Hid & He').
      assert (He'' : In e' (account_entries s)).
      { unfold L, client_ledger in He'. apply order_by_In, filter_In in He'.
        apply He'. }
      assert (e' = e)
        by (apply (NoDup_map_In_eq ae_id (account_entries s)); assumption).
      subst e'. exact He'. }
    pose proof (map_same_on ae_balanceAfter _ _ L Hbal e HeL) as Hb.
    cbv beta in Hb. unfold rewrite_balance in *.
    destruct (last_write (writes 0 L) (ae_id e)) as [b|]; [|reflexivity].
    cbn [set_ae_balanceAfter ae_balanceAfter] in Hb. subst b.
    destruct e; reflexivity.
  - unfold rewrite_balance. rewrite last_write_absent; [reflexivity|].
    rewrite writes_keys. exact Hout.
Qed.

Lemma filter_keeps_all {A} (p : A -> bool) (l : list A) :
  (forall x, In x l -> p x = true) -> filter p l = l.
Proof.
  induction l as [|x l IH]; intros H; [reflexivity|].
  cbn [filter]. rewrite (H x (or_introl eq_refl)). f_equal.
  apply IH. intros y Hy. apply H. right. exact Hy.
Qed.

(** X11.  In a reachable store whose ledger is consistent for the client,
    deleting the invoice just created for an order restores the invoice,
    payment and ledger tables exactly; the order keeps the price stamped on
    it by the creation. *)
Theorem createInvoice_then_delete_restores (env : Env) (s s' : Store)
    (orderId : Id) (invoice : Invoice) :
  reachable s -> uuid_fresh env s ->
  Billing.createInvoiceFromOrder env s orderId = Ok (s', invoice) ->
  ledger_ok s (inv_clientId invoice) = true ->
  exists s'',
    InvoiceRoute.DELETE s' (inv_id invoice) = Ok s''
    /\ invoices s'' = invoices s
    /\ payments s'' = payments s
    /\ account_entries s'' = account_entries s
    /\ user_profiles s'' = user_profiles s
    /\ work_orders s'' = work_orders s'.
Proof.
  intros Hr (_ & Hfi & _ & _) Hrun Hok.
  pose proof (reachable_inv s Hr) as (_ & _ & _ & Hlink & _).
  pose proof (reachable_ledger_inv s Hr) as (_ & N2 & _ & _ & HE & _).
  destruct (createInvoiceFromOrder_run _ _ _ _ _ Hrun)
    as (order & c & _ & _ & _ & _ & _ & _ & Hres).
  unfold invoiced_store in Hres. injection Hres as -> ->.
  cbn [inv_clientId inv_id] in *.
  specialize (Hfi 0%nat).
  rewrite deleteInvoice_eval. cbn [invoices payments account_entries
                                   user_profiles work_orders].
  assert (Hold : forall i, In i (invoices s) ->
                   (inv_id i =? env_uuid env 0) = false).
  { intros i Hi. apply Z.eqb_neq. intros E. apply Hfi. rewrite <- E.
    apply in_map. exact Hi. }
  rewrite filter_app, (filter_none _ (invoices s) Hold).
  cbn [filter inv_id app]. rewrite Z.eqb_refl. cbn [maybeSingle hd_error inv_clientId].
  eexists. split; [reflexivity|].
  assert (Hinvs : delete_where (fun i => inv_id i =? env_uuid env 0)
                    (invoices s ++
                     [mkInvoice (env_uuid env 0) c (Some (wo_id order))
                        (resolved_amount order) "ARS" (env_now env) PENDING
                        (env_now env)])
                  = invoices s).
  { unfold delete_where. rewrite filter_app. cbn [filter inv_id].
    rewrite Z.eqb_refl. cbn [negb]. rewrite app_nil_r.
    apply filter_keeps_all. intros i Hi. rewrite (Hold i Hi). reflexivity. }
  assert (Hpays : delete_where (fun p => pay_invoiceId p =? env_uuid env 0)
                               (payments s) = payments s).
  { unfold delete_where. apply filter_keeps_all. intros p Hp.
    rewrite Forall_forall in Hlink. specialize (Hlink p Hp).
    apply negb_true_iff, Z.eqb_neq. intros E. apply Hfi. rewrite <- E.
    exact Hlink. }
  assert (Hes : delete_where (fun e => ae_invoiceId e =? env_uuid env 0)
                  (account_entries s ++
                   [mkAccountEntry (env_uuid env 1) c (env_uuid env 0)
                      (resolved_amount order) 0
                      (Billing.getLatestBalance s c + resolved_amount order - 0)
                      (env_now env)])
                = account_entries s).
  { unfold delete_where. rewrite filter_app. cbn [filter ae_invoiceId].
    rewrite Z.eqb_refl. cbn [negb]. rewrite app_nil_r.
    apply filter_keeps_all. intros e He.
    rewrite Forall_forall in HE. destruct (HE e He) as [(i & Hi & Hid & _) _].
    apply negb_true_iff. rewrite <- Hid. apply Hold. exact Hi. }
  rewrite Hinvs, Hpays, Hes.
  rewrite recomputeBalances_char.
  cbn [invoices payments account_entries user_profiles work_orders
       with_account_entries].
  repeat split; try reflexivity.
  pose proof (recompute_consistent_ledger s c N2 Hok) as Hfix.
  rewrite recomputeBalances_char in Hfix.
  cbn [account_entries with_account_entries] in Hfix.
  exact Hfix.
Qed.

Lemma createInvoice_then_delete_restores_witness :
  exists s' invoice s'',
    Billing.createInvoiceFromOrder (env_at 300000 300) store2 11
    = Ok (s', invoice)
    /\ InvoiceRoute.DELETE s' (inv_id invoice) = Ok s''
    /\ account_entries s'' = account_entries store2.
Proof.
  assert (Hrun : Billing.createInvoiceFromOrder (env_at 300000 300) store2 11
                 = Ok (store_of (Billing.createInvoiceFromOrder
                                   (env_at 300000 300) store2 11),
                       mkInvoice 300 1 (Some 11) 100 "ARS" 300000 PENDING 300000))
    by (vm_compute; reflexivity).
  assert (Hfresh : uuid_fresh (env_at 300000 300) store2).
  { split; [uuid_injective|].
    change (map inv_id (invoices store2)) with [100].
    change (map pay_id (payments store2)) with [200].
    change (map ae_id (account_entries store2)) with [101; 201].
    repeat split; fresh_uuid. }
  assert (Hok : ledger_ok store2
                  (inv_clientId
                     (mkInvoice 300 1 (Some 11) 100 "ARS" 300000 PENDING 300000))
                = true) by (vm_compute; reflexivity).
  destruct (createInvoice_then_delete_restores (env_at 300000 300) store2 _ 11 _
              reachable_store2 Hfresh Hrun Hok)
    as (s'' & Hdel & _ & _ & Hes & _).
  eexists. eexists. exists s''. split; [exact Hrun|]. split; [exact Hdel|exact Hes].
Defined.

(** ** Escaping text for the invoice PDF *)

Lemma text_app_assoc (a b c : string) : ((a ++ b) ++ c = a ++ (b ++ c))%string.
Proof. induction a as [|x a IH]; cbn; [reflexivity|]. rewrite IH. reflexivity. Qed.

Lemma text_app_empty (a : string) : (a ++ EmptyString = a)%string.
Proof. induction a as [|x a IH]; cbn; [reflexivity|]. rewrite IH. reflexivity. Qed.

Lemma replaceAll_app (c : ascii) (by_ a b : string) :
  Invoicing.replaceAll c by_ (a ++ b)
  = (Invoicing.replaceAll c by_ a ++ Invoicing.replaceAll c by_ b)%string.
Proof.
  induction a as [|x a IH]; [reflexivity|].
  cbn [append Invoicing.replaceAll]. rewrite IH.
  destruct (Ascii.eqb x c); [|reflexivity].
  symmetry. apply text_app_assoc.
Qed.

(** The three passes of [escapePdfText] amount to one: a backslash in front
    of every backslash and parenthesis. *)
Lemma escapePdfText_step (c : ascii) (r : string) :
  Invoicing.escapePdfText (String c r)
  = if Ascii.eqb c Invoicing.backslash || Ascii.eqb c Invoicing.lparen
       || Ascii.eqb c Invoicing.rparen
    then String Invoicing.backslash (String c (Invoicing.escapePdfText r))
    else String c (Invoicing.escapePdfText r).
Proof.
  unfold Invoicing.escapePdfText.
  cbn [Invoicing.replaceAll].
  destruct (Ascii.eqb c Invoicing.backslash) eqn:Eb.
  - apply Ascii.eqb_eq in Eb. subst c. cbn [orb].
    rewrite !replaceAll_app. reflexivity.
  - cbn [Invoicing.replaceAll orb].
    destruct (Ascii.eqb c Invoicing.lparen) eqn:El.
    + apply Ascii.eqb_eq in El. subst c. cbn [orb].
      rewrite !replaceAll_app. reflexivity.
    + cbn [Invoicing.replaceAll orb].
      destruct (Ascii.eqb c Invoicing.rparen) eqn:Er; [|reflexivity].
      apply Ascii.eqb_eq in Er. subst c. reflexivity.
Qed.

(** X12.  The text written between the parentheses of a PDF literal string
    reads back as the original text, whatever follows the closing
    parenthesis: parentheses and backslashes in a name or code cannot end
    the string early. *)
Theorem escapePdfText_reads_back (value rest : string) :
  pdf_read_literal 0
    (Invoicing.escapePdfText value ++ String Invoicing.rparen rest)
  = Some (value, rest).
Proof.
  induction value as [|c r IH].
  - reflexivity.
  - rewrite escapePdfText_step.
    destruct (Ascii.eqb c Invoicing.backslash) eqn:Eb.
    + cbn [orb append pdf_read_literal]. rewrite Ascii.eqb_refl, Eb.
      cbn [orb]. rewrite IH. reflexivity.
    + destruct (Ascii.eqb c Invoicing.lparen) eqn:El.
      * cbn [orb append pdf_read_literal]. rewrite Ascii.eqb_refl, Eb, El.
        cbn [orb]. rewrite IH. reflexivity.
      * destruct (Ascii.eqb c Invoicing.rparen) eqn:Er.
        -- cbn [orb append pdf_read_literal]. rewrite Ascii.eqb_refl, Eb, El, Er.
           cbn [orb]. rewrite IH. reflexivity.
        -- cbn [orb append pdf_read_literal]. rewrite Eb, El, Er.
           rewrite IH. reflexivity.
Qed.

(** ** The export file reads back *)



Lemma at_field_end (st : ExportRoute.CsvState) (field : string) (row : list string)
    (tail : string) :
  field_end tail -> st <> ExportRoute.Quoted ->
  ExportRoute.parse_csv_from st field row tail = ExportRoute.parse_csv_from ExportRoute.Unquoted field row tail.
Proof.
  intros Hend Hst. destruct tail as [|c rest]; [reflexivity|].
  cbn [field_end] in Hend. cbn [ExportRoute.parse_csv_from].
  destruct st; try reflexivity; try contradiction;
    destruct Hend as [-> | ->]; reflexivity.
Qed.

Lemma scan_plain (value : string) :
  ExportRoute.includes ExportRoute.dquote value = false -> ExportRoute.includes ExportRoute.comma value = false ->
  ExportRoute.includes ExportRoute.newline value = false ->
  forall st field row tail, st = ExportRoute.FieldStart \/ st = ExportRoute.Unquoted ->
    ExportRoute.parse_csv_from st field row (value ++ tail)
    = ExportRoute.parse_csv_from (match value with EmptyString => st | _ => ExportRoute.Unquoted end)
                     (field ++ value) row tail.
Proof.
  induction value as [|c r IH]; intros Hq Hc Hn st field row tail Hst.
  - cbn [append]. rewrite text_app_empty. reflexivity.
  - cbn [ExportRoute.includes] in Hq, Hc, Hn.
    apply orb_false_iff in Hq, Hc, Hn.
    destruct Hq as [Hq Hq'], Hc as [Hc Hc'], Hn as [Hn Hn'].
    cbn [append ExportRoute.parse_csv_from].
    assert (Hstep : ExportRoute.parse_csv_from st field row (String c (r ++ tail))
                    = ExportRoute.parse_csv_from ExportRoute.Unquoted (field ++ String c EmptyString)
                                     row (r ++ tail)).
    { cbn [ExportRoute.parse_csv_from]. rewrite Hc, Hn, Hq.
      destruct Hst as [-> | ->]; reflexivity. }
    cbn [ExportRoute.parse_csv_from] in Hstep. rewrite Hstep.
    rewrite (IH Hq' Hc' Hn' ExportRoute.Unquoted _ row tail (or_intror eq_refl)).
    rewrite text_app_assoc. cbn [append].
    destruct r; reflexivity.
Qed.

Lemma scan_quoted (value : string) :
  forall field row tail,
    ExportRoute.parse_csv_from ExportRoute.Quoted field row
      (Invoicing.replaceAll ExportRoute.dquote (String ExportRoute.dquote (String ExportRoute.dquote EmptyString))
         value ++ String ExportRoute.dquote tail)
    = ExportRoute.parse_csv_from ExportRoute.QuoteSeen (field ++ value) row tail.
Proof.
  induction value as [|c r IH]; intros field row tail.
  - cbn [Invoicing.replaceAll append ExportRoute.parse_csv_from].
    rewrite Ascii.eqb_refl, text_app_empty. reflexivity.
  - cbn [Invoicing.replaceAll]. destruct (Ascii.eqb c ExportRoute.dquote) eqn:Eq.
    + apply Ascii.eqb_eq in Eq. subst c.
      cbn [append ExportRoute.parse_csv_from]. rewrite Ascii.eqb_refl.
      change (Ascii.eqb ExportRoute.dquote ExportRoute.comma) with false.
      change (Ascii.eqb ExportRoute.dquote ExportRoute.newline) with false. cbn iota.
      rewrite IH, text_app_assoc. reflexivity.
    + cbn [append ExportRoute.parse_csv_from]. rewrite Eq.
      rewrite IH, text_app_assoc. reflexivity.
Qed.

(** One escaped field is read back as written. *)
Lemma read_field (value : string) (row : list string) (tail : string) :
  field_end tail ->
  ExportRoute.parse_csv_from ExportRoute.FieldStart EmptyString row (ExportRoute.csvEscape value ++ tail)
  = ExportRoute.parse_csv_from ExportRoute.Unquoted value row tail.
Proof.
  intros Hend. unfold ExportRoute.csvEscape.
  destruct (ExportRoute.includes ExportRoute.dquote value) eqn:Hq; cbn [orb].
  2: destruct (ExportRoute.includes ExportRoute.comma value) eqn:Hc; cbn [orb].
  3: destruct (ExportRoute.includes ExportRoute.newline value) eqn:Hn.
  4:{ rewrite (scan_plain value Hq Hc Hn ExportRoute.FieldStart EmptyString row tail
                 (or_introl eq_refl)).
      cbn [append]. destruct value; [|reflexivity].
      apply at_field_end; [exact Hend|discriminate]. }
  all: cbn [append ExportRoute.parse_csv_from];
    change (Ascii.eqb ExportRoute.dquote ExportRoute.comma) with false;
    change (Ascii.eqb ExportRoute.dquote ExportRoute.newline) with false;
    rewrite Ascii.eqb_refl; cbn iota;
    rewrite text_app_assoc; cbn [append];
    rewrite scan_quoted; cbn [append];
    apply at_field_end; [exact Hend|discriminate].
Qed.

Lemma field_end_comma (t : string) : field_end (String ExportRoute.comma t).
Proof. left. reflexivity. Qed.

Lemma field_end_newline (t : string) : field_end (String ExportRoute.newline t).
Proof. right. reflexivity. Qed.

(** One line of escaped fields is read back as written. *)
Lemma read_line (values : list string) :
  forall first row tail, field_end tail ->
    ExportRoute.parse_csv_from ExportRoute.FieldStart EmptyString row
      (join "," (map ExportRoute.csvEscape (first :: values)) ++ tail)
    = ExportRoute.parse_csv_from ExportRoute.Unquoted (last values first)
                     (row ++ removelast (first :: values)) tail.
Proof.
  induction values as [|v values IH]; intros first row tail Hend.
  - cbn [map join last removelast]. rewrite app_nil_r.
    apply read_field. exact Hend.
  - change (join "," (map ExportRoute.csvEscape (first :: v :: values)))
      with (ExportRoute.csvEscape first ++ String ExportRoute.comma (join "," (map ExportRoute.csvEscape (v :: values))))%string.
    rewrite text_app_assoc. cbn [append].
    rewrite read_field by apply field_end_comma.
    cbn [ExportRoute.parse_csv_from]. rewrite Ascii.eqb_refl.
    rewrite IH by exact Hend.
    rewrite (last_cons_default v first values).
    change (removelast (first :: v :: values))
      with (first :: removelast (v :: values)).
    rewrite <- app_assoc. reflexivity.
Qed.

Lemma line_back (first : string) (values : list string) :
  removelast (first :: values) ++ [last values first] = first :: values.
Proof.
  revert first. induction values as [|v values IH]; intros first; [reflexivity|].
  change (removelast (first :: v :: values))
    with (first :: removelast (v :: values)).
  rewrite (last_cons_default v first values).
  cbn [app]. rewrite IH. reflexivity.
Qed.

(** The lines of a file, each with at least one field, are read back. *)
Lemma read_lines (lines : list (string * list string)) :
  forall first,
    ExportRoute.parse_csv_from ExportRoute.FieldStart EmptyString []
      (join (String ExportRoute.newline EmptyString)
         (map (fun l => join "," (map ExportRoute.csvEscape (fst l :: snd l)))
              (first :: lines)))
    = map (fun l => fst l :: snd l) (first :: lines).
Proof.
  induction lines as [|l lines IH]; intros [f vs].
  - change (ExportRoute.parse_csv_from ExportRoute.FieldStart EmptyString []
              (join "," (map ExportRoute.csvEscape (f :: vs))) = [f :: vs]).
    rewrite <- (text_app_empty (join "," (map ExportRoute.csvEscape (f :: vs)))).
    rewrite read_line by exact I.
    cbn [ExportRoute.parse_csv_from app]. rewrite line_back. reflexivity.
  - change (join (String ExportRoute.newline EmptyString)
              (map (fun l => join "," (map ExportRoute.csvEscape (fst l :: snd l)))
                   ((f, vs) :: l :: lines)))
      with (join "," (map ExportRoute.csvEscape (f :: vs))
            ++ String ExportRoute.newline
                 (join (String ExportRoute.newline EmptyString)
                    (map (fun l => join "," (map ExportRoute.csvEscape (fst l :: snd l)))
                         (l :: lines))))%string.
    rewrite read_line by apply field_end_newline.
    cbn [ExportRoute.parse_csv_from app].
    change (Ascii.eqb ExportRoute.newline ExportRoute.comma) with false. rewrite Ascii.eqb_refl.
    cbn iota. rewrite line_back, IH. reflexivity.
Qed.

(** The CSV file of the export reads back as the header followed by the
    five fields of every row. *)
Lemma csv_reads_back (rows : list ExportRoute.CsvRow) :
  ExportRoute.parse_csv (ExportRoute.csv rows) = ExportRoute.header :: map ExportRoute.fields rows.
Proof.
  unfold ExportRoute.parse_csv, ExportRoute.csv, ExportRoute.csvLines.
  pose proof (read_lines
                (map (fun row => (ExportRoute.c_id row, [ExportRoute.c_code row; ExportRoute.c_amount row;
                                             ExportRoute.c_status row; ExportRoute.c_debtor row])) rows)
                ("id", ["code"; "amount"; "status"; "debtor"])) as H.
  cbn [map fst snd] in H. rewrite map_map in H. cbn [fst snd] in H.
  rewrite map_map in H. cbn [fst snd] in H.
  exact H.
Qed.

(** X13.  Whenever the export route answers with a file, the caller has an id
    and is an administrator, and the file reads back as the header followed
    by the five fields of every row, whatever characters the fields
    contain. *)
Theorem export_serves_readable_csv_to_admin (adminEmail : option string)
    (user : option Permissions.User) (rows : option (list ExportRoute.CsvRow))
    (body : string) :
  ExportRoute.GET adminEmail user rows = ExportRoute.CsvFile body ->
  Permissions.isAdmin adminEmail user = true
  /\ (exists u id, user = Some u /\ Permissions.u_id u = Some id)
  /\ exists rs, rows = Some rs /\ ExportRoute.parse_csv body = ExportRoute.header :: map ExportRoute.fields rs.
Proof.
  unfold ExportRoute.GET. destruct user as [u|]; [|discriminate].
  destruct (Permissions.u_id u) as [id|] eqn:Hid; [|discriminate].
  unfold Permissions.canRunBilling.
  destruct (Permissions.isAdmin adminEmail (Some u)); cbn [negb]; [|discriminate].
  destruct rows as [rs|]; [|discriminate].
  intros H. injection H as <-.
  split; [reflexivity|]. split; [exists u, id; auto|].
  exists rs. split; [reflexivity|apply csv_reads_back].
Qed.

Lemma export_serves_readable_csv_to_admin_witness :
  exists body,
    ExportRoute.GET None
        (Some (Permissions.mkUser (Some 1) None (Some Permissions.ADMIN) None))
        (Some [ExportRoute.mkCsvRow "7" "#0007" "2750.00" "DONE"
                        (String "D" (String "r" (String "." (String " "
                           (String ExportRoute.dquote (String "A" (String ExportRoute.dquote
                              (String "," (String " " (String "B"
                                 EmptyString))))))))))])
    = ExportRoute.CsvFile body
    /\ ExportRoute.parse_csv body
       = [["id"; "code"; "amount"; "status"; "debtor"];
          ["7"; "#0007"; "2750.00"; "DONE";
           String "D" (String "r" (String "." (String " "
             (String ExportRoute.dquote (String "A" (String ExportRoute.dquote
                (String "," (String " " (String "B" EmptyString)))))))))]].
Proof.
  eexists.
  assert (Hrun : ExportRoute.GET None
                   (Some (Permissions.mkUser (Some 1) None
                            (Some Permissions.ADMIN) None))
                   (Some [ExportRoute.mkCsvRow "7" "#0007" "2750.00" "DONE"
                            (String "D" (String "r" (String "." (String " "
                               (String ExportRoute.dquote (String "A" (String ExportRoute.dquote
                                  (String "," (String " " (String "B"
                                     EmptyString))))))))))])
                 = ExportRoute.CsvFile _) by reflexivity.
  split; [exact Hrun|].
  destruct (export_serves_readable_csv_to_admin _ _ _ _ Hrun)
    as (_ & _ & rs & Hrs & Hparse).
  injection Hrs as <-. exact Hparse.
Defined.

(** ** The orders offered for billing *)

Lemma report_table_price (workType : option WorkType) :
  match workType with
  | None => 0
  | Some w =>
      orElse (map_get String.eqb (toUpperCase (workTypeName w))
                      Report.workTypePriceMap) 0
  end = orElse (table_price workType) 0.
Proof. destruct workType as [[]|]; vm_compute; reflexivity. Qed.

Lemma table_price_positive (workType : option WorkType) (listed : Amount) :
  table_price workType = Some listed -> 0 < listed.
Proof.
  destruct workType as [[]|]; vm_compute; intros H; try discriminate;
    injection H as <-; reflexivity.
Qed.

(** X14.  The amount the export shows for an order and the amount an invoice
    of that order gets are positive together.  They are equal, except that
    for an order with a positive stamped price and a different table price
    the export shows the stamped price while the invoice takes the table
    price, and that for a negative stamped price without table price the
    export shows 0. *)
Theorem export_amount_vs_invoice_amount (cols : Id -> OrderColumns)
    (s : Store) (o : WorkOrder) :
  let shown := Report.priceForOrder (Report.orderRow cols s o) in
  (0 < shown <-> 0 < resolved_amount o)
  /\ (shown = resolved_amount o
      \/ (exists stamped listed,
            wo_price o = Some stamped /\ 0 < stamped
            /\ table_price (wo_workType o) = Some listed
            /\ stamped <> listed
            /\ shown = stamped /\ resolved_amount o = listed)
      \/ (table_price (wo_workType o) = None
          /\ resolved_amount o < 0 /\ shown = 0))
  /\ Report.priceForOrder
       (Report.orderRow cols s
          (mkWorkOrder 1 None DONE (Some PROTESIS) (Some 100) None None)) = 100
  /\ resolved_amount
       (mkWorkOrder 1 None DONE (Some PROTESIS) (Some 100) None None) = 2750.
Proof.
  cbv zeta. unfold Report.priceForOrder, Report.orderRow, resolved_amount.
  cbn [Report.r_price Report.r_workType].
  rewrite report_table_price.
  pose proof (table_price_positive (wo_workType o)) as Hpos.
  split; [|split; [|split; reflexivity]].
  - destruct (wo_price o) as [p|]; destruct (table_price (wo_workType o)) as [t|];
      try specialize (Hpos t eq_refl); cbn [orElse];
      repeat match goal with
             | |- context [?a >? 0] => destruct (Z.gtb_spec a 0)
             | |- context [0 <? ?a] => destruct (Z.ltb_spec 0 a)
             end; zlia.
  - destruct (wo_price o) as [p|]; destruct (table_price (wo_workType o)) as [t|];
      try specialize (Hpos t eq_refl); cbn [orElse];
      repeat match goal with
             | |- context [?a >? 0] => destruct (Z.gtb_spec a 0)
             | |- context [0 <? ?a] => destruct (Z.ltb_spec 0 a)
             end; try (left; zlia); try zlia.
    + destruct (Z.eq_dec p t) as [->|Hne]; [left; reflexivity|].
      right. left. exists p, t. repeat split; auto.
    + destruct (Z.eq_dec p 0) as [->|Hne]; [left; reflexivity|].
      right. right. repeat split; zlia.
Qed.

Lemma invoiced_ids (s : Store) (id : Id) :
  mem id
    (somes (map inv_workOrderId
              (filter (fun i => match inv_workOrderId i with
                                | Some _ => true
                                | None => false
                                end) (invoices s)))) = true
  <-> exists i, In i (invoices s) /\ inv_workOrderId i = Some id.
Proof.
  rewrite mem_In, somes_In, in_map_iff. split.
  - intros (i & Hw & Hi). apply filter_In in Hi. exists i. tauto.
  - intros (i & Hi & Hw). exists i. split; [exact Hw|].
    apply filter_In. split; [exact Hi|]. rewrite Hw. reflexivity.
Qed.

(** The rows of the export: one for every finished order without invoice. *)
Lemma export_rows (cols : Id -> OrderColumns) (s : Store)
    (row : Report.ExportRow) :
  In row (Report.getBillableOrdersForExport cols s)
  <-> exists o, In o (work_orders s)
                /\ Billing.order_is_finished (wo_status o) = true
                /\ (forall i, In i (invoices s) ->
                              inv_workOrderId i <> Some (wo_id o))
                /\ row = Report.exportRow (Report.orderRow cols s o).
Proof.
  unfold Report.getBillableOrdersForExport. rewrite in_map_iff. split.
  - intros (r & <- & Hr). apply filter_In in Hr. destruct Hr as [Hr Hfree].
    apply in_map_iff in Hr. destruct Hr as (o & <- & Ho).
    apply order_by_In, filter_In in Ho. destruct Ho as [Ho Hfin].
    exists o. split; [exact Ho|]. split.
    + destruct (wo_status o); try discriminate; reflexivity.
    + split; [|reflexivity]. intros i Hi Hw.
      apply negb_true_iff in Hfree. cbn [Report.orderRow Report.r_id] in Hfree.
      assert (Hm : mem (wo_id o)
                     (somes (map inv_workOrderId
                               (filter (fun i => match inv_workOrderId i with
                                                 | Some _ => true
                                                 | None => false
                                                 end) (invoices s)))) = true)
        by (apply invoiced_ids; exists i; auto).
      congruence.
  - intros (o & Ho & Hfin & Hnone & ->).
    exists (Report.orderRow cols s o). split; [reflexivity|].
    apply filter_In. split.
    + apply in_map. apply order_by_In, filter_In. split; [exact Ho|].
      destruct (wo_status o); try discriminate; reflexivity.
    + apply negb_true_iff. cbn [Report.orderRow Report.r_id].
      destruct (mem _ _) eqn:Hm; [|reflexivity].
      apply invoiced_ids in Hm. destruct Hm as (i & Hi & Hw).
      exfalso. exact (Hnone i Hi Hw).
Qed.

(** X15.  An order is offered for billing as long as it is finished and has no
    invoice: creating its invoice takes it, and only it, off the export. *)
Theorem export_after_invoicing (cols : Id -> OrderColumns) (env : Env)
    (s s' : Store) (orderId : Id) (invoice : Invoice) :
  Billing.createInvoiceFromOrder env s orderId = Ok (s', invoice) ->
  (exists row, In row (Report.getBillableOrdersForExport cols s)
               /\ Report.x_id row = orderId)
  /\ (forall row, In row (Report.getBillableOrdersForExport cols s') <->
                  In row (Report.getBillableOrdersForExport cols s)
                  /\ Report.x_id row <> orderId).
Proof.
  intros Hrun.
  destruct (createInvoiceFromOrder_run _ _ _ _ _ Hrun)
    as (order & c & Hfind & Hid & _ & Hfin & Hnone & _ & Hres).
  unfold invoiced_store in Hres. injection Hres as Hs Hi.
  assert (Hprof : user_profiles s' = user_profiles s) by (rewrite Hs; reflexivity).
  assert (Hinvs : invoices s' = invoices s ++ [invoice])
    by (rewrite Hs, Hi; reflexivity).
  assert (Hw : inv_workOrderId invoice = Some orderId)
    by (rewrite Hi, <- Hid; reflexivity).
  assert (Hrow : forall o, Report.orderRow cols s' o = Report.orderRow cols s o).
  { intros o. unfold Report.orderRow. rewrite Hprof. reflexivity. }
  assert (Horders : forall o, wo_id o <> orderId ->
                      (In o (work_orders s') <-> In o (work_orders s))).
  { intros o Ho. rewrite Hs. cbn [work_orders].
    destruct (Billing.price_is_falsy (wo_price order)); [|reflexivity].
    rewrite Hid. split.
    - intros H. apply In_update_where in H. destruct H as (r & Hr & Heq).
      destruct (wo_id r =? orderId) eqn:E.
      + subst o. apply Z.eqb_eq in E. contradiction.
      + subst o. exact Hr.
    - intros H. apply In_update_where_other; [exact H|].
      apply Z.eqb_neq. exact Ho. }
  split.
  - apply maybeSingle_filter_In in Hfind. destruct Hfind as [Hin _].
    exists (Report.exportRow (Report.orderRow cols s order)).
    split; [|exact Hid]. apply export_rows. exists order.
    rewrite Hid. auto.
  - intros row. rewrite !export_rows. split.
    + intros (o & Ho & Hf & Hn & ->).
      assert (Hne : wo_id o <> orderId).
      { intros E. apply (Hn invoice); [rewrite Hinvs; apply in_or_app; right;
                                         left; reflexivity|].
        rewrite Hw, E. reflexivity. }
      split; [|exact Hne]. exists o.
      split; [apply Horders; assumption|]. split; [exact Hf|].
      split; [|apply f_equal, Hrow].
      intros i Hi'. apply Hn. rewrite Hinvs. apply in_or_app. left. exact Hi'.
    + intros [(o & Ho & Hf & Hn & ->) Hne].
      cbn [Report.exportRow Report.x_id Report.orderRow Report.r_id] in Hne.
      exists o. split; [apply Horders; assumption|]. split; [exact Hf|].
      split; [|symmetry; apply f_equal, Hrow].
      intros i Hi'. rewrite Hinvs in Hi'. apply in_app_or in Hi'.
      destruct Hi' as [Hi'|[<-|[]]]; [apply Hn; exact Hi'|].
      rewrite Hw. congruence.
Qed.

Lemma export_after_invoicing_witness :
  exists s' invoice,
    Billing.createInvoiceFromOrder (env_at 100000 100) store0 10
    = Ok (s', invoice)
    /\ map Report.x_id
         (Report.getBillableOrdersForExport
            (fun id => mkOrderColumns None id None None None) store0)
       = [12; 11; 10]
    /\ map Report.x_id
         (Report.getBillableOrdersForExport
            (fun id => mkOrderColumns None id None None None) s')
       = [12; 11]
    /\ exists row,
         In row (Report.getBillableOrdersForExport
                   (fun id => mkOrderColumns None id None None None) store0)
         /\ Report.x_id row = 10.
Proof.
  assert (Hrun : Billing.createInvoiceFromOrder (env_at 100000 100) store0 10
                 = Ok (store1,
                       mkInvoice 100 1 (Some 10) 2750 "ARS" 100000 PENDING
                                 100000))
    by (vm_compute; reflexivity).
  eexists. eexists. split; [exact Hrun|].
  split; [vm_compute; reflexivity|]. split; [vm_compute; reflexivity|].
  exact (proj1 (export_after_invoicing
                  (fun id => mkOrderColumns None id None None None)
                  _ _ _ _ _ Hrun)).
Defined.

(** ** Permissions *)

Lemma isAdmin_spec (adminEmail : option string) (u : Permissions.User) :
  Permissions.isAdmin adminEmail (Some u) = true
  <-> Permissions.u_role u = Some Permissions.ADMIN
      \/ (Permissions.u_role u = Some Permissions.TECHNICIAN
          /\ adminEmail <> Some EmptyString
          /\ adminEmail <> None
          /\ Permissions.u_email u = adminEmail).
Proof.
  destruct u as [id email role clinic].
  unfold Permissions.isAdmin, Permissions.role_is.
  cbn [Permissions.u_role Permissions.u_email].
  destruct role as [[]|]; cbn [Permissions.Role_eqb];
    try (split; [intros _; left; reflexivity|reflexivity]);
    try (destruct adminEmail as [[|c a]|];
         (split; [discriminate|intros [H|(H & _)]; discriminate])).
  destruct adminEmail as [[|c a]|].
  - split; [discriminate|]. intros [H|(_ & H & _)]; [discriminate|congruence].
  - destruct email as [e|].
    + split.
      * intros H. apply String.eqb_eq in H. subst e. right.
        repeat split; congruence.
      * intros [H|(_ & _ & _ & H)]; [discriminate|].
        injection H as ->. apply String.eqb_refl.
    + split; [discriminate|]. intros [H|(_ & _ & _ & H)]; discriminate.
  - split; [discriminate|]. intros [H|(_ & _ & H & _)]; [discriminate|congruence].
Qed.

(** X16.  The permissions are ordered: an administrator may run billing, see
    prices and create orders; whoever may see prices or upload files may
    create orders; a technician may see prices and upload files; a caller
    without session or without role may do none of these; and the
    administrators are the users of role ADMIN and the technician whose
    email is the configured administrator email. *)
Theorem permissions_are_ordered (adminEmail : option string)
    (user : option Permissions.User) :
  (Permissions.isAdmin adminEmail user = true ->
   Permissions.canRunBilling adminEmail user = true
   /\ Permissions.canSeePrices user = true
   /\ Permissions.canCreateWorkOrder user = true)
  /\ (Permissions.canSeePrices user = true ->
      Permissions.canCreateWorkOrder user = true)
  /\ (Permissions.canUploadWorkOrderFiles user = true ->
      Permissions.canCreateWorkOrder user = true)
  /\ (Permissions.isTecnico user = true ->
      Permissions.canSeePrices user = true
      /\ Permissions.canUploadWorkOrderFiles user = true)
  /\ (Permissions.canCreateWorkOrder user = true ->
      exists u r, user = Some u /\ Permissions.u_role u = Some r)
  /\ (Permissions.isAdmin adminEmail user = true <->
      exists u, user = Some u
                /\ (Permissions.u_role u = Some Permissions.ADMIN
                    \/ (Permissions.u_role u = Some Permissions.TECHNICIAN
                        /\ adminEmail <> Some EmptyString
                        /\ adminEmail <> None
                        /\ Permissions.u_email u = adminEmail))).
Proof.
  destruct user as [u|].
  - assert (Hadm := isAdmin_spec adminEmail u).
    split; [|split; [|split; [|split; [|split]]]].
    + intros H. split; [exact H|]. apply Hadm in H.
      unfold Permissions.canSeePrices, Permissions.canCreateWorkOrder,
        Permissions.role_is.
      destruct H as [-> | (-> & _)]; split; reflexivity.
    + unfold Permissions.canSeePrices, Permissions.canCreateWorkOrder,
        Permissions.role_is.
      destruct (Permissions.u_role u) as [[]|]; cbn; auto.
    + unfold Permissions.canUploadWorkOrderFiles, Permissions.canCreateWorkOrder,
        Permissions.role_is.
      destruct (Permissions.u_role u) as [[]|]; cbn; auto.
    + unfold Permissions.isTecnico, Permissions.canSeePrices,
        Permissions.canUploadWorkOrderFiles, Permissions.role_is.
      destruct (Permissions.u_role u) as [[]|]; cbn; auto; discriminate.
    + unfold Permissions.canCreateWorkOrder, Permissions.role_is.
      destruct (Permissions.u_role u) as [r|] eqn:Hr; [|discriminate].
      intros _. exists u, r. auto.
    + rewrite Hadm. split.
      * intros H. exists u. auto.
      * intros (u' & Hu & H). injection Hu as <-. exact H.
  - cbn. repeat split; try discriminate.
    intros (u & Hu & _). discriminate.
Qed.

Lemma permissions_are_ordered_witness :
  Permissions.isAdmin (Some "lab@example.com")
    (Some (Permissions.mkUser (Some 7) (Some "lab@example.com")
             (Some Permissions.TECHNICIAN) None)) = true
  /\ Permissions.canRunBilling (Some "lab@example.com")
       (Some (Permissions.mkUser (Some 7) (Some "lab@example.com")
                (Some Permissions.TECHNICIAN) None)) = true
  /\ Permissions.canSeePrices
       (Some (Permissions.mkUser (Some 7) (Some "lab@example.com")
                (Some Permissions.TECHNICIAN) None)) = true
  /\ Permissions.canCreateWorkOrder
       (Some (Permissions.mkUser (Some 7) (Some "lab@example.com")
                (Some Permissions.TECHNICIAN) None)) = true.
Proof.
  assert (H : Permissions.isAdmin (Some "lab@example.com")
                (Some (Permissions.mkUser (Some 7) (Some "lab@example.com")
                         (Some Permissions.TECHNICIAN) None)) = true)
    by reflexivity.
  split; [exact H|].
  exact (proj1 (permissions_are_ordered _ _) H).
Defined.

(** ** The status of a work order *)

Lemma column_stable cols (o o' : WorkOrder) (name : string) :
  wo_id o' = wo_id o -> wo_dentistId o' = wo_dentistId o ->
  WorkOrders.column cols o' name = WorkOrders.column cols o name.
Proof. unfold WorkOrders.column. intros -> ->. reflexivity. Qed.

Lemma applyScope_stable cols scope (o o' : WorkOrder) :
  wo_id o' = wo_id o -> wo_dentistId o' = wo_dentistId o ->
  WorkOrders.applyScope cols scope o' = WorkOrders.applyScope cols scope o.
Proof.
  intros Hid Hd. unfold WorkOrders.applyScope.
  destruct scope as [[alternatives eqs]|]; [|reflexivity].
  cbn [Permissions.sc_eq Permissions.sc_or].
  assert (Hcol : forall kv, WorkOrders.column_is cols o' kv
                            = WorkOrders.column_is cols o kv).
  { intros kv. unfold WorkOrders.column_is.
    rewrite (column_stable cols o o' (fst kv) Hid Hd). reflexivity. }
  f_equal.
  - induction eqs as [|kv eqs IH]; [reflexivity|].
    cbn [forallb]. rewrite IH, Hcol. reflexivity.
  - destruct alternatives as [alts|]; [|reflexivity].
    induction alts as [|kv alts IH]; [reflexivity|].
    cbn [existsb]. rewrite IH, Hcol. reflexivity.
Qed.

Lemma visible_to_stable cols user id (o o' : WorkOrder) :
  wo_id o' = wo_id o -> wo_dentistId o' = wo_dentistId o ->
  visible_to cols user id o' = visible_to cols user id o.
Proof.
  intros Hid Hd. unfold visible_to.
  rewrite (applyScope_stable cols _ o o' Hid Hd), Hid. reflexivity.
Qed.

Lemma maybeSingle_map {A B} (f : A -> B) (l : list A) :
  maybeSingle (map f l) = option_map f (maybeSingle l).
Proof. destruct l; reflexivity. Qed.

(** The first visible row after rows have been rewritten in place without
    touching their id and dentist. *)
Lemma visible_after_update cols user id (q : WorkOrder -> bool)
    (f : WorkOrder -> WorkOrder) (t : list WorkOrder) :
  (forall o, wo_id (f o) = wo_id o /\ wo_dentistId (f o) = wo_dentistId o) ->
  maybeSingle (filter (visible_to cols user id) (update_where q f t))
  = option_map (fun o => if q o then f o else o)
      (maybeSingle (filter (visible_to cols user id) t)).
Proof.
  intros Hf. unfold update_where. rewrite filter_map_comm.
  - apply maybeSingle_map.
  - intros o. destruct (q o); [|reflexivity].
    apply visible_to_stable; apply Hf.
Qed.

Lemma allowed_next_rank (from to : WorkOrderStatus) :
  existsb (WorkOrderStatus_eqb to) (WorkOrders.statusTransitions from) = true
  <-> status_rank to = status_rank from + 1.
Proof. destruct from, to; cbn; split; intros H; try discriminate; try lia; reflexivity. Qed.

Lemma same_status_rank (a b : WorkOrderStatus) :
  WorkOrderStatus_eqb a b = true <-> status_rank a = status_rank b.
Proof. destruct a, b; cbn; split; intros H; try discriminate; try lia; reflexivity. Qed.

Lemma WorkOrderStatus_eqb_eq (a b : WorkOrderStatus) :
  WorkOrderStatus_eqb a b = true <-> a = b.
Proof. destruct a, b; cbn; split; intros H; try discriminate; reflexivity. Qed.

Lemma sanitizePrice_fields (record : WorkOrder) (allowPrice : bool) :
  wo_id (WorkOrders.sanitizePrice record allowPrice) = wo_id record
  /\ wo_status (WorkOrders.sanitizePrice record allowPrice) = wo_status record
  /\ (allowPrice = false ->
      wo_price (WorkOrders.sanitizePrice record allowPrice) = None).
Proof.
  unfold WorkOrders.sanitizePrice. destruct allowPrice; cbn; auto.
  repeat split; discriminate.
Qed.

(** What [updateWorkOrderStatus] does when the caller sees the order. *)
Lemma updateWorkOrderStatus_eval cols s workOrderId status user existing :
  maybeSingle (filter (visible_to cols user workOrderId) (work_orders s))
  = Some existing ->
  exists first,
    maybeSingle (filter (fun o => wo_id o =? workOrderId) (work_orders s))
    = Some first
    /\ WorkOrders.updateWorkOrderStatus cols s workOrderId status user
       = if WorkOrderStatus_eqb (wo_status existing) status
         then inr (s, WorkOrders.sanitizePrice existing
                        (Permissions.canSeePrices user))
         else if existsb (WorkOrderStatus_eqb status)
                         (WorkOrders.statusTransitions (wo_status existing))
         then inr (with_work_orders
                     (update_where (fun o => wo_id o =? workOrderId)
                                   (set_wo_status status) (work_orders s)) s,
                   WorkOrders.sanitizePrice (set_wo_status status first)
                     (Permissions.canSeePrices user))
         else inl (WorkOrders.TransitionNotAllowed (wo_status existing) status).
Proof.
  intros Hfind.
  pose proof (maybeSingle_filter_In _ _ _ Hfind) as [Hin Hvis].
  unfold visible_to in Hvis. apply andb_true_iff in Hvis.
  destruct Hvis as [Hid _]. apply Z.eqb_eq in Hid.
  destruct (maybeSingle (filter (fun o => wo_id o =? workOrderId) (work_orders s)))
    as [first|] eqn:Hfirst.
  2:{ exfalso. unfold maybeSingle in Hfirst.
      destruct (filter (fun o => wo_id o =? workOrderId) (work_orders s))
        as [|x l] eqn:Hf; [|discriminate].
      assert (Hx : In existing (filter (fun o => wo_id o =? workOrderId)
                                       (work_orders s))).
      { apply filter_In. split; [exact Hin|]. apply Z.eqb_eq. exact Hid. }
      rewrite Hf in Hx. contradiction. }
  exists first. split; [reflexivity|].
  unfold WorkOrders.updateWorkOrderStatus.
  change (filter (fun o => (wo_id o =? workOrderId)
                           && WorkOrders.applyScope cols _ o) (work_orders s))
    with (filter (visible_to cols user workOrderId) (work_orders s)).
  rewrite Hfind.
  destruct (WorkOrderStatus_eqb (wo_status existing) status); [reflexivity|].
  cbv zeta.
  destruct (existsb (WorkOrderStatus_eqb status)
                    (WorkOrders.statusTransitions (wo_status existing)));
    cbn [negb]; [|reflexivity].
  cbn [work_orders with_work_orders]. rewrite Hid.
  rewrite filter_update_where by reflexivity.
  rewrite maybeSingle_map, Hfirst. reflexivity.
Qed.

Lemma updateWorkOrderStatus_found cols s workOrderId status user s' record :
  WorkOrders.updateWorkOrderStatus cols s workOrderId status user
  = inr (s', record) ->
  exists existing,
    maybeSingle (filter (visible_to cols user workOrderId) (work_orders s))
    = Some existing.
Proof.
  unfold WorkOrders.updateWorkOrderStatus.
  change (filter (fun o => (wo_id o =? workOrderId)
                           && WorkOrders.applyScope cols _ o) (work_orders s))
    with (filter (visible_to cols user workOrderId) (work_orders s)).
  destruct (maybeSingle (filter (visible_to cols user workOrderId)
                                (work_orders s))) as [existing|];
    [|discriminate].
  intros _. exists existing. reflexivity.
Qed.

(** X17.  A change of status moves an order forward by at most one step:
    CREATED, IN_PROGRESS, DONE, DELIVERED; the request succeeds only when
    the caller sees the order and the order already has the status or the
    one just before it, only rows of that order change, and only their
    status; a caller who may not see prices gets the record without
    price. *)
Theorem updateWorkOrderStatus_one_step (cols : Id -> OrderColumns)
    (s s' : Store) (workOrderId : Id) (status : WorkOrderStatus)
    (user : option Permissions.User) (record : WorkOrder) :
  WorkOrders.updateWorkOrderStatus cols s workOrderId status user
  = inr (s', record) ->
  wo_id record = workOrderId /\ wo_status record = status
  /\ (Permissions.canSeePrices user = false -> wo_price record = None)
  /\ (exists existing,
        In existing (work_orders s) /\ visible_to cols user workOrderId existing = true
        /\ (status_rank status = status_rank (wo_status existing)
            \/ status_rank status = status_rank (wo_status existing) + 1)
        /\ (wo_status existing = status -> s' = s))
  /\ Forall2 (fun o o' =>
                o' = o \/ (wo_id o = workOrderId /\ o' = set_wo_status status o))
             (work_orders s) (work_orders s')
  /\ user_profiles s' = user_profiles s /\ invoices s' = invoices s
  /\ payments s' = payments s /\ account_entries s' = account_entries s.
Proof.
  intros Hrun.
  destruct (updateWorkOrderStatus_found _ _ _ _ _ _ _ Hrun) as (existing & Hfind).
  destruct (updateWorkOrderStatus_eval cols s workOrderId status user existing Hfind)
    as (first & Hfirst & Heval).
  rewrite Heval in Hrun.
  pose proof (maybeSingle_filter_In _ _ _ Hfind) as [Hin Hvis].
  pose proof (maybeSingle_filter_In _ _ _ Hfirst) as [_ Hfid].
  apply Z.eqb_eq in Hfid.
  assert (Hid : wo_id existing = workOrderId).
  { unfold visible_to in Hvis. apply andb_true_iff in Hvis.
    apply Z.eqb_eq. apply Hvis. }
  destruct (WorkOrderStatus_eqb (wo_status existing) status) eqn:Hsame.
  - injection Hrun as <- <-. apply WorkOrderStatus_eqb_eq in Hsame.
    destruct (sanitizePrice_fields existing (Permissions.canSeePrices user))
      as (-> & -> & Hprice).
    split; [exact Hid|]. split; [exact Hsame|]. split; [exact Hprice|].
    split.
    { exists existing. rewrite Hsame. auto. }
    split; [|auto]. rewrite <- (map_id (work_orders s)) at 2.
    apply Forall2_map_r. intros o _. left. reflexivity.
  - destruct (existsb (WorkOrderStatus_eqb status)
                      (WorkOrders.statusTransitions (wo_status existing)))
      eqn:Hnext; [|discriminate].
    injection Hrun as <- <-. apply allowed_next_rank in Hnext.
    destruct (sanitizePrice_fields (set_wo_status status first)
                (Permissions.canSeePrices user)) as (-> & -> & Hprice).
    split; [exact Hfid|]. split; [reflexivity|]. split; [exact Hprice|].
    split.
    { exists existing. split; [exact Hin|]. split; [exact Hvis|].
      split; [right; exact Hnext|].
      intros E. apply WorkOrderStatus_eqb_eq in E. congruence. }
    cbn [work_orders with_work_orders user_profiles invoices payments
         account_entries].
    split; [|auto]. unfold update_where. apply Forall2_map_r.
    intros o _. destruct (wo_id o =? workOrderId) eqn:E; [|left; reflexivity].
    right. apply Z.eqb_eq in E. auto.
Qed.

Lemma updateWorkOrderStatus_one_step_witness :
  exists s' record,
    WorkOrders.updateWorkOrderStatus no_columns store0 11 DELIVERED
      (Some admin_user) = inr (s', record)
    /\ map wo_status (work_orders store0) = [DELIVERED; DONE; DONE]
    /\ map wo_status (work_orders s') = [DELIVERED; DELIVERED; DONE]
    /\ wo_status record = DELIVERED.
Proof.
  eexists. eexists.
  assert (Hrun : WorkOrders.updateWorkOrderStatus no_columns store0 11 DELIVERED
                   (Some admin_user)
                 = inr (with_work_orders
                          (update_where (fun o => wo_id o =? 11)
                                        (set_wo_status DELIVERED)
                                        (work_orders store0)) store0,
                        mkWorkOrder 11 (Some 1) DELIVERED None (Some 100)
                                    (Some "OT-11") None))
    by (vm_compute; reflexivity).
  split; [exact Hrun|]. split; [vm_compute; reflexivity|].
  split; [vm_compute; reflexivity|].
  exact (proj1 (proj2 (updateWorkOrderStatus_one_step _ _ _ _ _ _ _ Hrun))).
Defined.

(** ** Delivering an order *)

Lemma status_update_settled cols s workOrderId status user s' record :
  WorkOrders.updateWorkOrderStatus cols s workOrderId status user
  = inr (s', record) ->
  (exists current,
     maybeSingle (filter (visible_to cols user workOrderId) (work_orders s'))
     = Some current
     /\ wo_status current = status)
  /\ (exists existing,
        In existing (work_orders s) /\ wo_id existing = workOrderId
        /\ (wo_status existing = status
            \/ status_rank status = status_rank (wo_status existing) + 1))
  /\ wo_status record = status
  /\ map wo_id (work_orders s') = map wo_id (work_orders s)
  /\ user_profiles s' = user_profiles s /\ invoices s' = invoices s
  /\ payments s' = payments s /\ account_entries s' = account_entries s.
Proof.
  intros Hrun.
  destruct (updateWorkOrderStatus_found _ _ _ _ _ _ _ Hrun) as (existing & Hfind).
  destruct (updateWorkOrderStatus_eval cols s workOrderId status user existing Hfind)
    as (first & Hfirst & Heval).
  rewrite Heval in Hrun.
  pose proof (maybeSingle_filter_In _ _ _ Hfind) as [Hin Hvis].
  assert (Hid : wo_id existing = workOrderId).
  { unfold visible_to in Hvis. apply andb_true_iff in Hvis.
    apply Z.eqb_eq. apply Hvis. }
  destruct (WorkOrderStatus_eqb (wo_status existing) status) eqn:Hsame.
  - injection Hrun as <- <-. apply WorkOrderStatus_eqb_eq in Hsame.
    destruct (sanitizePrice_fields existing (Permissions.canSeePrices user))
      as (_ & -> & _).
    split; [exists existing; auto|]. split; [exists existing; auto|]. auto 10.
  - destruct (existsb (WorkOrderStatus_eqb status)
                      (WorkOrders.statusTransitions (wo_status existing)))
      eqn:Hnext; [|discriminate].
    injection Hrun as <- <-. apply allowed_next_rank in Hnext.
    destruct (sanitizePrice_fields (set_wo_status status first)
                (Permissions.canSeePrices user)) as (_ & -> & _).
    cbn [work_orders with_work_orders user_profiles invoices payments
         account_entries].
    split.
    { rewrite visible_after_update by (intros o; split; reflexivity).
      rewrite Hfind. cbn [option_map]. rewrite <- Hid, Z.eqb_refl.
      eexists. split; reflexivity. }
    split; [exists existing; auto|].
    split; [reflexivity|]. split; [|auto].
    apply map_update_where_key. reflexivity.
Qed.

Lemma status_update_again cols t workOrderId status user current :
  maybeSingle (filter (visible_to cols user workOrderId) (work_orders t))
  = Some current ->
  wo_status current = status ->
  WorkOrders.updateWorkOrderStatus cols t workOrderId status user
  = inr (t, WorkOrders.sanitizePrice current (Permissions.canSeePrices user)).
Proof.
  intros Hfind Hst.
  destruct (updateWorkOrderStatus_eval cols t workOrderId status user current Hfind)
    as (first & _ & ->).
  rewrite Hst.
  replace (WorkOrderStatus_eqb status status) with true; [reflexivity|].
  symmetry. apply WorkOrderStatus_eqb_eq. reflexivity.
Qed.

Lemma markOrderAsDelivered_eval cols env s orderId user :
  Invoicing.markOrderAsDelivered cols env s orderId user
  = match WorkOrders.updateWorkOrderStatus cols s orderId DELIVERED user with
    | inl e => (s, inl (Invoicing.StatusFailed e))
    | inr (s1, updated) =>
        match invoice_of_order s1 orderId with
        | Some i => (s1, inr (updated, i))
        | None =>
            match Billing.createInvoiceFromOrder env s1 orderId with
            | Ok (s2, created) => (s2, inr (updated, created))
            | Err e => (s1, inl (Invoicing.BillingFailed e))
            end
        end
    end.
Proof. reflexivity. Qed.

Lemma invoice_of_order_In s orderId i :
  invoice_of_order s orderId = Some i ->
  In i (invoices s) /\ inv_workOrderId i = Some orderId.
Proof.
  unfold invoice_of_order, maybeSingle. intros H.
  assert (Hin : In i (order_by (desc inv_createdAt)
                        (filter (fun i => match inv_workOrderId i with
                                          | Some w => w =? orderId
                                          | None => false
                                          end) (invoices s)))).
  { destruct (order_by _ _) as [|x l]; [discriminate|].
    injection H as ->. left. reflexivity. }
  apply order_by_In, filter_In in Hin. destruct Hin as [Hin Hw].
  split; [exact Hin|].
  destruct (inv_workOrderId i) as [w|]; [|discriminate].
  apply Z.eqb_eq in Hw. congruence.
Qed.

Lemma invoice_of_order_none s orderId :
  invoice_of_order s orderId = None ->
  forall i, In i (invoices s) -> inv_workOrderId i <> Some orderId.
Proof.
  unfold invoice_of_order, maybeSingle. intros H i Hi Hw.
  destruct (order_by _ _) as [|x l] eqn:Ho; [|discriminate].
  apply order_by_nil_iff in Ho.
  assert (Hin : In i (filter (fun i => match inv_workOrderId i with
                                       | Some w => w =? orderId
                                       | None => false
                                       end) (invoices s))).
  { apply filter_In. split; [exact Hi|]. rewrite Hw. apply Z.eqb_refl. }
  rewrite Ho in Hin. contradiction.
Qed.

Lemma invoice_of_order_new s t orderId invoice :
  invoices t = invoices s ++ [invoice] ->
  invoice_of_order s orderId = None ->
  inv_workOrderId invoice = Some orderId ->
  invoice_of_order t orderId = Some invoice.
Proof.
  intros Ht Hnone Hw. unfold invoice_of_order. rewrite Ht, filter_app.
  rewrite (filter_none _ (invoices s)).
  - cbn [filter app]. rewrite Hw, Z.eqb_refl. reflexivity.
  - intros i Hi. pose proof (invoice_of_order_none s orderId Hnone i Hi) as Hne.
    destruct (inv_workOrderId i) as [w|]; [|reflexivity].
    apply Z.eqb_neq. congruence.
Qed.

(** X18.  A delivery that succeeds concerns an order that was DONE or already
    DELIVERED; the order ends DELIVERED and the invoice returned is a stored
    invoice of that order: the latest one it had, or else one created by the
    call. *)
Theorem delivery_bills_the_order (cols : Id -> OrderColumns) (env : Env)
    (s s' : Store) (orderId : Id) (user : option Permissions.User)
    (record : WorkOrder) (invoice : Invoice) :
  Invoicing.markOrderAsDelivered cols env s orderId user
  = (s', inr (record, invoice)) ->
  (exists existing,
     In existing (work_orders s) /\ wo_id existing = orderId
     /\ Billing.order_is_finished (wo_status existing) = true)
  /\ wo_status record = DELIVERED
  /\ (exists current,
        In current (work_orders s') /\ wo_id current = orderId
        /\ wo_status current = DELIVERED)
  /\ In invoice (invoices s')
  /\ inv_workOrderId invoice = Some orderId
  /\ (invoice_of_order s orderId = Some invoice /\ invoices s' = invoices s
      \/ invoice_of_order s orderId = None
         /\ invoices s' = invoices s ++ [invoice]
         /\ inv_status invoice = PENDING)
  /\ payments s' = payments s.
Proof.
  rewrite markOrderAsDelivered_eval.
  destruct (WorkOrders.updateWorkOrderStatus cols s orderId DELIVERED user)
    as [e|[s1 updated]] eqn:Hu; [discriminate|].
  destruct (status_update_settled _ _ _ _ _ _ _ Hu)
    as ((current & Hcur & Hcst) & (existing & Hex & Hexid & Hexst) & Hrec & Hids
        & Hprof & Hinvs & Hpays & Hes).
  assert (Hfin : Billing.order_is_finished (wo_status existing) = true).
  { destruct Hexst as [->|Hr]; [reflexivity|].
    destruct (wo_status existing); cbn in Hr; try lia; reflexivity. }
  pose proof (maybeSingle_filter_In _ _ _ Hcur) as [Hcin Hcvis].
  assert (Hcid : wo_id current = orderId).
  { unfold visible_to in Hcvis. apply andb_true_iff in Hcvis.
    apply Z.eqb_eq. apply Hcvis. }
  assert (Hlook : invoice_of_order s1 orderId = invoice_of_order s orderId)
    by (unfold invoice_of_order; rewrite Hinvs; reflexivity).
  destruct (invoice_of_order s1 orderId) as [i|] eqn:Hi.
  - intros H. injection H as <- <- <-.
    destruct (invoice_of_order_In _ _ _ Hi) as [Hin Hw].
    split; [exists existing; auto|]. split; [exact Hrec|].
    split; [exists current; auto|]. split; [exact Hin|]. split; [exact Hw|].
    split; [left; auto|exact Hpays].
  - destruct (Billing.createInvoiceFromOrder env s1 orderId)
      as [[s2 created]|e] eqn:Hc; [|discriminate].
    intros H. injection H as <- <- <-.
    destruct (createInvoiceFromOrder_run _ _ _ _ _ Hc)
      as (order & c & Hfind & Hid & _ & _ & _ & _ & Hres).
    unfold invoiced_store in Hres. injection Hres as Hs2 Hcreated.
    split; [exists existing; auto|]. split; [exact Hrec|].
    split.
    { rewrite Hs2. cbn [work_orders].
      destruct (Billing.price_is_falsy (wo_price order)).
      - exists (if wo_id current =? wo_id order
                then set_wo_price (resolved_amount order) current else current).
        split.
        + unfold update_where. apply in_map_iff. exists current. auto.
        + destruct (wo_id current =? wo_id order); auto.
      - exists current. auto. }
    split; [rewrite Hs2; cbn [invoices]; apply in_or_app; right; left;
            symmetry; exact Hcreated|].
    split; [rewrite Hcreated, <- Hid; reflexivity|].
    split; [|rewrite Hs2; exact Hpays].
    right. split; [symmetry; exact Hlook|].
    rewrite Hs2, Hcreated. cbn [invoices inv_status]. rewrite Hinvs. auto.
Qed.

Lemma delivery_bills_the_order_witness :
  exists s' record invoice,
    Invoicing.markOrderAsDelivered no_columns (env_at 5000 500) store0 11
      (Some admin_user) = (s', inr (record, invoice))
    /\ inv_amount invoice = 100
    /\ inv_workOrderId invoice = Some 11.
Proof.
  eexists. eexists. eexists.
  assert (Hrun : Invoicing.markOrderAsDelivered no_columns (env_at 5000 500)
                   store0 11 (Some admin_user)
                 = (fst (Invoicing.markOrderAsDelivered no_columns
                           (env_at 5000 500) store0 11 (Some admin_user)),
                    inr (mkWorkOrder 11 (Some 1) DELIVERED None (Some 100)
                                     (Some "OT-11") None,
                         mkInvoice 500 1 (Some 11) 100 "ARS" 5000 PENDING 5000)))
    by (vm_compute; reflexivity).
  split; [exact Hrun|]. split; [reflexivity|].
  exact (proj1 (proj2 (proj2 (proj2 (proj2
           (delivery_bills_the_order _ _ _ _ _ _ _ _ Hrun)))))).
Defined.

(** X19.  Delivering an order twice bills it once: after a delivery that
    succeeded, the same request returns the same invoice and leaves the
    store as it is. *)
Theorem delivery_is_idempotent (cols : Id -> OrderColumns) (env env' : Env)
    (s s' : Store) (orderId : Id) (user : option Permissions.User)
    (record : WorkOrder) (invoice : Invoice) :
  Invoicing.markOrderAsDelivered cols env s orderId user
  = (s', inr (record, invoice)) ->
  exists record',
    Invoicing.markOrderAsDelivered cols env' s' orderId user
    = (s', inr (record', invoice)).
Proof.
  rewrite !markOrderAsDelivered_eval.
  destruct (WorkOrders.updateWorkOrderStatus cols s orderId DELIVERED user)
    as [e|[s1 updated]] eqn:Hu; [discriminate|].
  destruct (status_update_settled _ _ _ _ _ _ _ Hu)
    as ((current & Hcur & Hcst) & _).
  destruct (invoice_of_order s1 orderId) as [i|] eqn:Hi.
  - intros H. injection H as <- <- <-.
    rewrite (status_update_again cols s1 orderId DELIVERED user current Hcur Hcst).
    rewrite Hi. eexists. reflexivity.
  - destruct (Billing.createInvoiceFromOrder env s1 orderId)
      as [[s2 created]|e] eqn:Hc; [|discriminate].
    intros H. injection H as <- <- <-.
    destruct (createInvoiceFromOrder_run _ _ _ _ _ Hc)
      as (order & c & Hfind & Hid & _ & _ & _ & _ & Hres).
    unfold invoiced_store in Hres. injection Hres as Hs2 Hcreated.
    assert (Hcur2 : exists current2,
               maybeSingle (filter (visible_to cols user orderId) (work_orders s2))
               = Some current2 /\ wo_status current2 = DELIVERED).
    { rewrite Hs2. cbn [work_orders].
      destruct (Billing.price_is_falsy (wo_price order)).
      - rewrite visible_after_update by (intros o; split; reflexivity).
        rewrite Hcur. cbn [option_map]. eexists. split; [reflexivity|].
        destruct (wo_id current =? wo_id order); exact Hcst.
      - exists current. auto. }
    destruct Hcur2 as (current2 & Hcur2 & Hcst2).
    rewrite (status_update_again cols s2 orderId DELIVERED user current2
               Hcur2 Hcst2).
    rewrite (invoice_of_order_new s1 s2 orderId created).
    + eexists. reflexivity.
    + rewrite Hs2, Hcreated. reflexivity.
    + exact Hi.
    + rewrite Hcreated, <- Hid. reflexivity.
Qed.

Lemma delivery_is_idempotent_witness :
  exists s' record invoice record',
    Invoicing.markOrderAsDelivered no_columns (env_at 5000 500) store0 11
      (Some admin_user) = (s', inr (record, invoice))
    /\ Invoicing.markOrderAsDelivered no_columns (env_at 6000 600) s' 11
         (Some admin_user) = (s', inr (record', invoice)).
Proof.
  assert (Hrun : Invoicing.markOrderAsDelivered no_columns (env_at 5000 500)
                   store0 11 (Some admin_user)
                 = (fst (Invoicing.markOrderAsDelivered no_columns
                           (env_at 5000 500) store0 11 (Some admin_user)),
                    inr (mkWorkOrder 11 (Some 1) DELIVERED None (Some 100)
                                     (Some "OT-11") None,
                         mkInvoice 500 1 (Some 11) 100 "ARS" 5000 PENDING 5000)))
    by (vm_compute; reflexivity).
  destruct (delivery_is_idempotent no_columns (env_at 5000 500) (env_at 6000 600)
              _ _ _ _ _ _ Hrun) as (record' & Hagain).
  eexists. eexists. eexists. exists record'. split; [exact Hrun|exact Hagain].
Defined.

(** X20.  When the invoice of a delivery cannot be created, the request fails
    but the order stays DELIVERED and without invoice; the billing tables
    are untouched, and with unique order ids the cause is a missing dentist
    or an undetermined amount. *)
Theorem delivery_failure_keeps_status (cols : Id -> OrderColumns) (env : Env)
    (s s' : Store) (orderId : Id) (user : option Permissions.User)
    (e : Error) :
  Invoicing.markOrderAsDelivered cols env s orderId user
  = (s', inl (Invoicing.BillingFailed e)) ->
  (exists current,
     In current (work_orders s') /\ wo_id current = orderId
     /\ wo_status current = DELIVERED)
  /\ (forall i, In i (invoices s') -> inv_workOrderId i <> Some orderId)
  /\ invoices s' = invoices s /\ payments s' = payments s
  /\ account_entries s' = account_entries s
  /\ (NoDup (map wo_id (work_orders s)) ->
      e = BillingPartyMissing \/ e = AmountUndetermined).
Proof.
  rewrite markOrderAsDelivered_eval.
  destruct (WorkOrders.updateWorkOrderStatus cols s orderId DELIVERED user)
    as [e0|[s1 updated]] eqn:Hu; [discriminate|].
  destruct (status_update_settled _ _ _ _ _ _ _ Hu)
    as ((current & Hcur & Hcst) & _ & _ & Hids & _ & Hinvs & Hpays & Hes).
  pose proof (maybeSingle_filter_In _ _ _ Hcur) as [Hcin Hcvis].
  assert (Hcid : wo_id current = orderId).
  { unfold visible_to in Hcvis. apply andb_true_iff in Hcvis.
    apply Z.eqb_eq. apply Hcvis. }
  destruct (invoice_of_order s1 orderId) as [i|] eqn:Hi; [discriminate|].
  destruct (Billing.createInvoiceFromOrder env s1 orderId)
    as [[s2 created]|e1] eqn:Hc; [discriminate|].
  intros H. injection H as <- <-.
  split; [exists current; auto|].
  split; [apply invoice_of_order_none; exact Hi|].
  split; [exact Hinvs|]. split; [exact Hpays|]. split; [exact Hes|].
  intros Hnd. rewrite createInvoiceFromOrder_eval in Hc.
  assert (Hfirst : maybeSingle (filter (fun o => wo_id o =? orderId)
                                       (work_orders s1)) = Some current).
  { rewrite <- Hids in Hnd. rewrite <- Hcid.
    rewrite <- find_hd_filter. apply find_unique; assumption. }
  rewrite Hfirst in Hc.
  destruct (wo_dentistId current); [|left; congruence].
  rewrite Hcst in Hc. cbn [Billing.order_is_finished negb] in Hc.
  rewrite Hcid in Hc.
  assert (Hnone : maybeSingle
                    (filter (fun i => match inv_workOrderId i with
                                      | Some w => w =? orderId
                                      | None => false
                                      end) (invoices s1)) = None).
  { apply no_invoice_of_order. apply invoice_of_order_none. exact Hi. }
  rewrite Hnone in Hc.
  destruct (resolved_amount current <=? 0); [right; congruence|discriminate].
Qed.

Lemma delivery_failure_keeps_status_witness :
  exists s',
    Invoicing.markOrderAsDelivered no_columns (env_at 5000 500) store_unpriced 20
      (Some admin_user)
    = (s', inl (Invoicing.BillingFailed AmountUndetermined))
    /\ map wo_status (work_orders store_unpriced) = [DONE]
    /\ map wo_status (work_orders s') = [DELIVERED]
    /\ invoices s' = invoices store_unpriced.
Proof.
  eexists.
  assert (Hrun : Invoicing.markOrderAsDelivered no_columns (env_at 5000 500)
                   store_unpriced 20 (Some admin_user)
                 = (mkStore [mkUserProfile 1 (Some "Ana") None]
                            [mkWorkOrder 20 (Some 1) DELIVERED None None None None]
                            [] [] [],
                    inl (Invoicing.BillingFailed AmountUndetermined)))
    by (vm_compute; reflexivity).
  split; [exact Hrun|]. split; [reflexivity|]. split; [reflexivity|].
  exact (proj1 (proj2 (proj2
           (delivery_failure_keeps_status _ _ _ _ _ _ _ Hrun)))).
Defined.

(** ** The balance of a statement *)




(** ** Deleting a payment that was just recorded *)

Lemma reachable_storeAB : reachable storeAB.
Proof.
  eapply reach_step.
  - eapply reach_step.
    + apply (reach_init (user_profiles store0) (work_orders store0)).
    + eapply (step_createInvoice (env_at 1000 110) store0 11
                (store_of (Billing.createInvoiceFromOrder (env_at 1000 110)
                             store0 11))).
      * split; [uuid_injective|].
        change (invoices store0) with (@nil Invoice).
        change (payments store0) with (@nil Payment).
        change (account_entries store0) with (@nil AccountEntry).
        repeat split; fresh_uuid.
      * vm_compute. reflexivity.
  - eapply (step_createInvoice (env_at 2000 120) _ 12 storeAB).
    + split; [uuid_injective|].
      change (map inv_id (invoices (store_of (Billing.createInvoiceFromOrder
                                                (env_at 1000 110) store0 11))))
        with [110].
      change (map pay_id (payments (store_of (Billing.createInvoiceFromOrder
                                                (env_at 1000 110) store0 11))))
        with (@nil Id).
      change (map ae_id (account_entries
                           (store_of (Billing.createInvoiceFromOrder
                                        (env_at 1000 110) store0 11))))
        with [111].
      repeat split; fresh_uuid.
    + vm_compute. reflexivity.
Defined.

Lemma uuid_fresh_storeAB : uuid_fresh (env_at 3000 300) storeAB.
Proof.
  split; [uuid_injective|].
  change (map inv_id (invoices storeAB)) with [110; 120].
  change (map pay_id (payments storeAB)) with (@nil Id).
  change (map ae_id (account_entries storeAB)) with [111; 121].
  repeat split; fresh_uuid.
Defined.

Lemma first_by_key {A} (key : A -> Id) (rows : list A) (x : A) :
  NoDup (map key rows) -> In x rows ->
  maybeSingle (filter (fun y => key y =? key x) rows) = Some x.
Proof.
  intros Hnd Hin. rewrite <- find_hd_filter. apply find_unique; assumption.
Qed.

Lemma first_existing_key {A} (key : A -> Id) (rows : list A) (k : Id) :
  In k (map key rows) ->
  exists x, maybeSingle (filter (fun y => key y =? k) rows) = Some x.
Proof.
  intros Hin. apply in_map_iff in Hin. destruct Hin as (x & Hk & Hx).
  destruct (filter (fun y => key y =? k) rows) as [|y l] eqn:Hf.
  - assert (Hc : In x (filter (fun y => key y =? k) rows)).
    { apply filter_In. split; [exact Hx|]. apply Z.eqb_eq. exact Hk. }
    rewrite Hf in Hc. contradiction.
  - exists y. reflexivity.
Qed.

Lemma frames_after_recompute s c :
  map entry_frame (account_entries (PaymentRoute.recomputeBalances s c))
  = map entry_frame (account_entries s).
Proof.
  rewrite recomputeBalances_same, recomputeBalances_char.
  cbn [account_entries with_account_entries].
  rewrite map_map. apply map_ext. intros e. apply rewrite_balance_frame.
Qed.

Lemma frames_fix_credits (a b : list AccountEntry) :
  map entry_frame a = map entry_frame b -> map ae_credit a = map ae_credit b.
Proof.
  revert b. induction a as [|x a IH]; intros [|y b] H; try discriminate;
    [reflexivity|].
  cbn [map] in H |- *.
  assert (Hf : entry_frame x = entry_frame y) by congruence.
  assert (Hrest : map entry_frame a = map entry_frame b) by congruence.
  destruct (entry_frame_fields _ _ Hf) as (_ & _ & _ & _ & -> & _).
  rewrite (IH b Hrest). reflexivity.
Qed.

(** X22.  When a payment did not go as a whole to one invoice (it was split
    over several invoices or exceeded what was owed), deleting one of the
    payment rows it created removes no ledger row: the credit of the full
    amount stays in the ledger. *)
Theorem deleting_split_payment_keeps_credit (env : Env) (s s1 : Store)
    (payload : Billing.PaymentInput) (created : list Payment) (p : Payment) :
  reachable s -> uuid_fresh env s ->
  Billing.recordPayment env s payload = Ok (s1, created) ->
  In p created ->
  pay_amount p <> Billing.in_amount payload ->
  (forall e, In e (account_entries s) -> ae_credit e <> pay_amount p) ->
  exists s2,
    PaymentRoute.DELETE s1 (pay_id p) = Ok s2
    /\ payments s2 = delete_where (fun q => pay_id q =? pay_id p) (payments s1)
    /\ map entry_frame (account_entries s2)
       = map entry_frame (account_entries s1)
    /\ sumZ (map ae_credit (account_entries s2))
       = sumZ (map ae_credit (account_entries s)) + Billing.in_amount payload.
Proof.
  intros Hr Hfresh Hrun Hp Hne Hold.
  pose proof (recordPayment_inv env s payload s1 created Hfresh
                (reachable_inv s Hr) Hrun) as (Hni & Hnp & _ & Hlink & _).
  destruct (recordPayment_ok_pre _ _ _ _ _ Hrun) as [Hin Hpos].
  pose proof (recordPayment_effect env s payload Hin Hpos) as Heff.
  cbv zeta in Heff. rewrite Heff in Hrun. injection Hrun as Hs1 Hcreated.
  assert (Hpin : In p (payments s1)).
  { rewrite <- Hs1. cbn [payments]. rewrite Hcreated.
    apply in_or_app. right. exact Hp. }
  pose proof (first_by_key pay_id (payments s1) p Hnp Hpin) as Hfindp.
  rewrite Forall_forall in Hlink.
  destruct (first_existing_key inv_id (invoices s1) (pay_invoiceId p)
              (Hlink p Hpin)) as (invoice & Hfindi).
  destruct (deletePayment_effect s1 (pay_id p) p invoice Hfindp Hfindi)
    as (s2 & Hdel & _ & _ & Hpays & Hes & _).
  exists s2. split; [exact Hdel|]. split; [exact Hpays|].
  assert (Hes1 : exists target,
             account_entries s1
             = account_entries s
               ++ [credit_entry env s payload
                     (env_uuid env (List.length created)) target]).
  { rewrite <- Hs1. cbn [account_entries]. rewrite Hcreated.
    destruct created as [|q created']; [contradiction|].
    eexists. reflexivity. }
  destruct Hes1 as (target & Hes1).
  assert (Hnomatch : credit_entry_of s1 invoice p = None).
  { unfold credit_entry_of. rewrite filter_none; [reflexivity|].
    intros e He. rewrite Hes1 in He. apply in_app_or in He.
    unfold credit_entry_matches.
    assert (Hc : ae_credit e <> pay_amount p).
    { destruct He as [He|[<-|[]]]; [apply Hold; exact He|].
      cbn [credit_entry ae_credit]. congruence. }
    apply Z.eqb_neq in Hc. rewrite Hc.
    rewrite andb_false_r. reflexivity. }
  assert (Hframes : map entry_frame (account_entries s2)
                    = map entry_frame (account_entries s1)).
  { rewrite Hes. unfold ledger_without_credit. rewrite Hnomatch.
    rewrite frames_after_recompute. reflexivity. }
  split; [exact Hframes|].
  rewrite (frames_fix_credits _ _ Hframes), Hes1, map_app, sumZ_app.
  cbn [map credit_entry ae_credit]. unfold sumZ at 2. cbn [fold_left]. zlia.
Qed.

Lemma deleting_split_payment_keeps_credit_witness :
  exists s2,
    PaymentRoute.DELETE storeAB_paid 300 = Ok s2
    /\ map pay_id (payments storeAB_paid) = [300; 301]
    /\ map pay_id (payments s2) = [301]
    /\ sumZ (map ae_credit (account_entries s2))
       = sumZ (map ae_credit (account_entries storeAB)) + 120.
Proof.
  assert (Hrun : Billing.recordPayment (env_at 3000 300) storeAB
                   (Billing.mkPaymentInput 1 120 None None)
                 = Ok (storeAB_paid,
                       [mkPayment 300 110 "MANUAL" EmptyString 100 COMPLETED 3000;
                        mkPayment 301 120 "MANUAL" EmptyString 20 COMPLETED 3000]))
    by (vm_compute; reflexivity).
  assert (Hp : In (mkPayment 300 110 "MANUAL" EmptyString 100 COMPLETED 3000)
                  [mkPayment 300 110 "MANUAL" EmptyString 100 COMPLETED 3000;
                   mkPayment 301 120 "MANUAL" EmptyString 20 COMPLETED 3000])
    by (left; reflexivity).
  assert (Hne : pay_amount (mkPayment 300 110 "MANUAL" EmptyString 100 COMPLETED
                                      3000)
                <> Billing.in_amount (Billing.mkPaymentInput 1 120 None None))
    by (cbn; lia).
  assert (Hold : forall e, In e (account_entries storeAB) ->
                   ae_credit e
                   <> pay_amount (mkPayment 300 110 "MANUAL" EmptyString 100
                                            COMPLETED 3000)).
  { change (account_entries storeAB)
      with [mkAccountEntry 111 1 110 100 0 100 1000;
            mkAccountEntry 121 1 120 50 0 150 2000].
    intros e [<-|[<-|[]]]; cbn; lia. }
  destruct (deleting_split_payment_keeps_credit (env_at 3000 300) storeAB
              storeAB_paid _ _ _ reachable_storeAB uuid_fresh_storeAB Hrun Hp
              Hne Hold) as (s2 & Hdel & Hpays & _ & Hsum).
  exists s2. split; [exact Hdel|]. split; [vm_compute; reflexivity|].
  split; [rewrite Hpays; vm_compute; reflexivity|exact Hsum].
Defined.

Lemma reopen_pending (i : Invoice) (st : InvoiceStatus) :
  inv_status i = PENDING ->
  set_inv_status PENDING (set_inv_status st i) = i
  /\ set_inv_status PENDING i = i.
Proof. destruct i. cbn. intros ->. split; reflexivity. Qed.

Lemma in_window_center (t : Timestamp) : in_window t t = true.
Proof.
  unfold in_window. apply andb_true_iff. split; apply Z.leb_le; zlia.
Qed.

(** X23.  In a reachable store whose ledger is consistent for the client, a
    payment that goes as a whole to one invoice is undone by deleting the
    payment row it created: the store is again what it was before the
    payment. *)
Theorem payment_to_one_invoice_round_trip (env : Env) (s s1 : Store)
    (payload : Billing.PaymentInput) (p : Payment) :
  reachable s -> uuid_fresh env s ->
  ledger_ok s (Billing.in_clientId payload) = true ->
  Billing.recordPayment env s payload = Ok (s1, [p]) ->
  pay_amount p = Billing.in_amount payload ->
  (forall e, In e (account_entries s) -> ae_credit e <> pay_amount p) ->
  PaymentRoute.DELETE s1 (pay_id p) = Ok s.
Proof.
  intros Hr (Hinj & Hfi & Hfp & Hfe) Hok Hrun Hamt Hold.
  pose proof (reachable_inv s Hr) as (Hni & Hnp & _ & _ & Hst).
  pose proof (reachable_ledger_inv s Hr) as (_ & Hne & _).
  destruct (recordPayment_ok_pre _ _ _ _ _ Hrun) as [Hin Hpos].
  pose proof (recordPayment_effect env s payload Hin Hpos) as Heff.
  cbv zeta in Heff. rewrite Heff in Hrun. clear Heff.
  pose proof (allocation_plan_bounds (outstanding s)
                (pending_invoices s (Billing.in_clientId payload))
                (Billing.in_amount payload)) as Hb.
  destruct (allocation_plan (outstanding s)
              (pending_invoices s (Billing.in_clientId payload))
              (Billing.in_amount payload)) as [|a [|b plan]];
    cbn [payments_of List.length fold_left] in Hrun;
    [discriminate| |discriminate].
  injection Hrun as Hs1 Hp. subst s1 p.
  inversion Hb as [|? ? (_ & _ & i & Hi & Hai & _) _]; subst.
  apply pending_invoices_In in Hi. destruct Hi as (Hi & Hcl & Hpend).
  set (p := payment_of env payload 0 a) in *.
  set (cr := credit_entry env s payload (env_uuid env 1) (alloc_invoice a)) in *.
  set (i1 := if alloc_settles a then set_inv_status PAID i else i).
  assert (Hi1 : inv_id i1 = inv_id i /\ inv_clientId i1 = inv_clientId i
                /\ inv_amount i1 = inv_amount i).
  { unfold i1. destruct (alloc_settles a); repeat split; reflexivity. }
  destruct Hi1 as (Hi1id & Hi1cl & Hi1amt).
  assert (Hfindp : maybeSingle (filter (fun q => pay_id q =? pay_id p)
                                       (payments s ++ [p])) = Some p).
  { rewrite filter_app, filter_none.
    - cbn [filter app]. rewrite Z.eqb_refl. reflexivity.
    - intros q Hq. apply Z.eqb_neq. intros E. apply (Hfp 0%nat).
      unfold p in E. cbn [payment_of pay_id] in E. rewrite <- E.
      apply in_map. exact Hq. }
  assert (Hfindi : maybeSingle (filter (fun r => inv_id r =? pay_invoiceId p)
                                       (settle (invoices s) a)) = Some i1).
  { unfold p. cbn [payment_of pay_invoiceId]. rewrite Hai.
    unfold settle, i1. destruct (alloc_settles a).
    - rewrite Hai. rewrite filter_update_where by reflexivity.
      rewrite maybeSingle_map, (first_by_key inv_id (invoices s) i Hni Hi).
      reflexivity.
    - apply (first_by_key inv_id (invoices s) i Hni Hi). }
  destruct (deletePayment_effect
              (mkStore (user_profiles s) (work_orders s) (settle (invoices s) a)
                       (payments s ++ [p]) (account_entries s ++ [cr]))
              (pay_id p) p i1 Hfindp Hfindi)
    as (s2 & Hdel & Hu & Hw & Hpays & Hes & Hinvs).
  cbn [user_profiles work_orders payments account_entries invoices] in *.
  rewrite Hdel. f_equal.
  assert (Hpays' : payments s2 = payments s).
  { rewrite Hpays. unfold delete_where. rewrite filter_app.
    cbn [filter]. rewrite Z.eqb_refl. cbn [negb]. rewrite app_nil_r.
    apply filter_keeps_all. intros q Hq. apply negb_true_iff, Z.eqb_neq.
    intros E. apply (Hfp 0%nat). unfold p in E. cbn [payment_of pay_id] in E.
    rewrite <- E. apply in_map. exact Hq. }
  apply store_eq; try assumption.
  - rewrite Hinvs.
    assert (Hlt : (paid s2 (inv_id i1) <? inv_amount i1) = true).
    { rewrite (paid_ext s s2 (inv_id i1) Hpays'), Hi1id, Hi1amt.
      apply Z.ltb_lt. destruct (Hst i Hi) as [_ Hback].
      destruct (Z.le_gt_cases (inv_amount i) (paid s (inv_id i))) as [Hle|Hgt];
        [|zlia].
      specialize (Hback Hle). congruence. }
    rewrite Hlt, Hi1id. unfold settle, update_where.
    transitivity (map (fun r : Invoice => r) (invoices s)); [|apply map_id].
    destruct (alloc_settles a).
    + rewrite map_map. apply map_ext_in. intros r Hrin. rewrite Hai.
      destruct (inv_id r =? inv_id i) eqn:E.
      * apply Z.eqb_eq in E.
        assert (r = i) by (apply (NoDup_map_In_eq inv_id (invoices s)); assumption).
        subst r. cbn [inv_id set_inv_status]. rewrite Z.eqb_refl.
        apply (reopen_pending i PAID Hpend).
      * rewrite E. reflexivity.
    + apply map_ext_in. intros r Hrin.
      destruct (inv_id r =? inv_id i) eqn:E; [|reflexivity].
      apply Z.eqb_eq in E.
      assert (r = i) by (apply (NoDup_map_In_eq inv_id (invoices s)); assumption).
      subst r. apply (reopen_pending i PAID Hpend).
  - rewrite Hes. unfold ledger_without_credit.
    assert (Hmatch : credit_entry_of
                       (mkStore (user_profiles s) (work_orders s)
                                (settle (invoices s) a) (payments s ++ [p])
                                (account_entries s ++ [cr])) i1 p = Some cr).
    { unfold credit_entry_of. cbn [account_entries].
      rewrite filter_app, filter_none.
      - cbn [filter app]. unfold credit_entry_matches.
        unfold cr at 1 2 3 4. cbn [credit_entry ae_clientId ae_invoiceId
                                     ae_credit ae_createdAt].
        unfold p at 1 2. cbn [payment_of pay_amount pay_createdAt].
        rewrite Hi1cl, Hi1id, Hcl, Hai, !Z.eqb_refl, in_window_center.
        replace (Billing.in_amount payload =? alloc_amount a) with true
          by (symmetry; apply Z.eqb_eq; unfold p in Hamt;
              cbn [payment_of pay_amount] in Hamt; congruence).
        reflexivity.
      - intros e He. unfold credit_entry_matches.
        pose proof (Hold e He) as Hc. apply Z.eqb_neq in Hc. rewrite Hc.
        rewrite andb_false_r. reflexivity. }
    rewrite Hmatch. cbn [account_entries].
    assert (Hdrop : delete_where (fun e => ae_id e =? ae_id cr)
                                 (account_entries s ++ [cr])
                    = account_entries s).
    { unfold delete_where. rewrite filter_app. cbn [filter].
      rewrite Z.eqb_refl. cbn [negb]. rewrite app_nil_r.
      apply filter_keeps_all. intros e He. apply negb_true_iff, Z.eqb_neq.
      intros E. apply (Hfe 1%nat). unfold cr in E.
      cbn [credit_entry ae_id] in E. rewrite <- E. apply in_map. exact He. }
    rewrite Hdrop, recomputeBalances_same.
    rewrite (recompute_entries_only s _ (inv_clientId i1)) by reflexivity.
    rewrite Hi1cl, Hcl. apply recompute_consistent_ledger; assumption.
Qed.

Lemma payment_to_one_invoice_round_trip_witness :
  Billing.recordPayment (env_at 3000 300) storeAB
    (Billing.mkPaymentInput 1 60 None None)
  = Ok (store_of (Billing.recordPayment (env_at 3000 300) storeAB
                    (Billing.mkPaymentInput 1 60 None None)),
        [mkPayment 300 110 "MANUAL" EmptyString 60 COMPLETED 3000])
  /\ PaymentRoute.DELETE
       (store_of (Billing.recordPayment (env_at 3000 300) storeAB
                    (Billing.mkPaymentInput 1 60 None None))) 300
     = Ok storeAB.
Proof.
  assert (Hrun : Billing.recordPayment (env_at 3000 300) storeAB
                   (Billing.mkPaymentInput 1 60 None None)
                 = Ok (store_of (Billing.recordPayment (env_at 3000 300) storeAB
                                   (Billing.mkPaymentInput 1 60 None None)),
                       [mkPayment 300 110 "MANUAL" EmptyString 60 COMPLETED
                                  3000]))
    by (vm_compute; reflexivity).
  assert (Hok : ledger_ok storeAB
                  (Billing.in_clientId (Billing.mkPaymentInput 1 60 None None))
                = true) by (vm_compute; reflexivity).
  assert (Hold : forall e, In e (account_entries storeAB) ->
                   ae_credit e
                   <> pay_amount (mkPayment 300 110 "MANUAL" EmptyString 60
                                            COMPLETED 3000)).
  { change (account_entries storeAB)
      with [mkAccountEntry 111 1 110 100 0 100 1000;
            mkAccountEntry 121 1 120 50 0 150 2000].
    intros e [<-|[<-|[]]]; cbn; lia. }
  split; [exact Hrun|].
  exact (payment_to_one_invoice_round_trip (env_at 3000 300) storeAB _ _ _
           reachable_storeAB uuid_fresh_storeAB Hok Hrun eq_refl Hold).
Defined.

(** ** Billing an order twice *)

(** X24.  An order cannot be billed twice: after an invoice has been created
    for an order, a second request for the same order is rejected as a
    duplicate, whatever the clock and the uuids. *)
Theorem createInvoice_twice_is_rejected (env env' : Env) (s s' : Store)
    (orderId : Id) (invoice : Invoice) :
  Billing.createInvoiceFromOrder env s orderId = Ok (s', invoice) ->
  Billing.createInvoiceFromOrder env' s' orderId = Err DuplicateInvoice.
Proof.
  intros Hrun.
  destruct (createInvoiceFromOrder_run _ _ _ _ _ Hrun)
    as (order & c & Hfind & Hid & Hd & Hfin & _ & _ & Hres).
  unfold invoiced_store in Hres. injection Hres as Hs Hi.
  rewrite createInvoiceFromOrder_eval. subst orderId.
  assert (Hfind' : exists order',
             maybeSingle (filter (fun o => wo_id o =? wo_id order)
                                 (work_orders s'))
             = Some order'
             /\ wo_id order' = wo_id order
             /\ wo_dentistId order' = wo_dentistId order
             /\ wo_status order' = wo_status order).
  { rewrite Hs. cbn [work_orders].
    destruct (Billing.price_is_falsy (wo_price order)).
    - rewrite filter_update_where; [|intros a; reflexivity].
      rewrite maybeSingle_map, Hfind. cbn [option_map].
      eexists. split; [reflexivity|]. repeat split; reflexivity.
    - exists order. auto. }
  destruct Hfind' as (order' & -> & Hid' & Hd' & Hst').
  rewrite Hd', Hd, Hst', Hfin. cbn [negb].
  assert (Hdup : exists found,
             maybeSingle
               (filter (fun i => match inv_workOrderId i with
                                 | Some w => w =? wo_id order'
                                 | None => false
                                 end) (invoices s')) = Some found).
  { destruct (filter (fun i => match inv_workOrderId i with
                               | Some w => w =? wo_id order'
                               | None => false
                               end) (invoices s')) as [|x l] eqn:Hf.
    - exfalso.
      assert (Hin : In invoice
                      (filter (fun i => match inv_workOrderId i with
                                        | Some w => w =? wo_id order'
                                        | None => false
                                        end) (invoices s'))).
      { apply filter_In. split.
        - rewrite Hs. cbn [invoices]. apply in_or_app. right. left.
          symmetry. exact Hi.
        - rewrite Hi. cbn [inv_workOrderId]. rewrite Hid'. apply Z.eqb_refl. }
      rewrite Hf in Hin. contradiction.
    - exists x. reflexivity. }
  destruct Hdup as (found & ->). reflexivity.
Qed.

Lemma createInvoice_twice_is_rejected_witness :
  Billing.createInvoiceFromOrder (env_at 100000 100) store0 10
  = Ok (store1, mkInvoice 100 1 (Some 10) 2750 "ARS" 100000 PENDING 100000)
  /\ Billing.createInvoiceFromOrder (env_at 200000 200) store1 10
     = Err DuplicateInvoice.
Proof.
  assert (Hrun : Billing.createInvoiceFromOrder (env_at 100000 100) store0 10
                 = Ok (store1,
                       mkInvoice 100 1 (Some 10) 2750 "ARS" 100000 PENDING
                                 100000))
    by (vm_compute; reflexivity).
  split; [exact Hrun|].
  exact (createInvoice_twice_is_rejected (env_at 100000 100) (env_at 200000 200)
           store0 store1 10 _ Hrun).
Defined.

(** X25.  Deleting the invoice of a finished order puts the order back on the
    export of billable orders. *)
Theorem export_after_invoice_deletion (cols : Id -> OrderColumns)
    (s s' : Store) (invoiceId : Id) (invoice : Invoice) (o : WorkOrder) :
  reachable s ->
  InvoiceRoute.DELETE s invoiceId = Ok s' ->
  maybeSingle (filter (fun i => inv_id i =? invoiceId) (invoices s))
  = Some invoice ->
  inv_workOrderId invoice = Some (wo_id o) ->
  In o (work_orders s) ->
  Billing.order_is_finished (wo_status o) = true ->
  In (Report.exportRow (Report.orderRow cols s o))
     (Report.getBillableOrdersForExport cols s')
  /\ forall row, In row (Report.getBillableOrdersForExport cols s) ->
                 Report.x_id row <> wo_id o.
Proof.
  intros Hr Hrun Hfind Hw Ho Hfin.
  destruct (reachable_ledger_inv s Hr) as (_ & _ & N3 & _).
  apply maybeSingle_filter_In in Hfind. destruct Hfind as [Hin Hid].
  apply Z.eqb_eq in Hid.
  rewrite deleteInvoice_eval in Hrun.
  destruct (maybeSingle (filter (fun i => inv_id i =? invoiceId) (invoices s)))
    as [found|]; [|discriminate].
  injection Hrun as <-. split.
  - apply export_rows. exists o.
    rewrite recomputeBalances_char.
    cbn [work_orders invoices with_account_entries].
    split; [exact Ho|]. split; [exact Hfin|]. split.
    + intros i Hi Hwi. apply delete_where_gone in Hi. destruct Hi as [Hi Hne].
      assert (i = invoice)
        by (apply (somes_key_unique inv_workOrderId (invoices s) i invoice
                     (wo_id o)); assumption).
      subst i. apply Z.eqb_neq in Hne. contradiction.
    + unfold Report.orderRow. reflexivity.
  - intros row Hrow Hx. apply export_rows in Hrow.
    destruct Hrow as (o' & _ & _ & Hnone & ->).
    cbn [Report.exportRow Report.x_id Report.orderRow Report.r_id] in Hx.
    apply (Hnone invoice Hin). rewrite Hw, Hx. reflexivity.
Qed.

Lemma export_after_invoice_deletion_witness :
  exists s',
    InvoiceRoute.DELETE store1 100 = Ok s'
    /\ map Report.x_id (Report.getBillableOrdersForExport no_columns store1)
       = [11; 12]
    /\ In (Report.exportRow
             (Report.orderRow no_columns store1
                (mkWorkOrder 10 (Some 1) DELIVERED (Some PROTESIS) (Some 2750)
                             (Some "OT-10") (Some (mkPatient (Some "Juan"))))))
          (Report.getBillableOrdersForExport no_columns s').
Proof.
  assert (Hrun : InvoiceRoute.DELETE store1 100
                 = Ok (mkStore (user_profiles store1) (work_orders store1)
                               [] [] []))
    by (vm_compute; reflexivity).
  assert (Hfind : maybeSingle (filter (fun i => inv_id i =? 100) (invoices store1))
                  = Some pending_invoice) by (vm_compute; reflexivity).
  assert (Ho : In (mkWorkOrder 10 (Some 1) DELIVERED (Some PROTESIS) (Some 2750)
                               (Some "OT-10") (Some (mkPatient (Some "Juan"))))
                  (work_orders store1)) by (vm_compute; left; reflexivity).
  eexists. split; [exact Hrun|]. split; [vm_compute; reflexivity|].
  exact (proj1 (export_after_invoice_deletion no_columns store1 _ 100
                  pending_invoice
                  (mkWorkOrder 10 (Some 1) DELIVERED (Some PROTESIS) (Some 2750)
                               (Some "OT-10") (Some (mkPatient (Some "Juan"))))
                  reachable_store1 Hrun Hfind eq_refl Ho eq_refl)).
Defined.
